(** * Livy word index: the analysis pipeline and its query facade

    A shallow embedding of [src/text_extractor.py], [src/downloader.py]
    and [src/analyzer.py].

    - Python [str] values are lists of Unicode code points.
    - Python [int] values are [Z]; [float] values are exact rationals [Q].
    - Python [dict] and [Counter] values are association lists in
      insertion order, which is the order Python iterates them in.
    - The SQLite file is a record of four tables; the statements the
      pipeline sends to it are data, executed by a small step function. *)

From Stdlib Require Import List ZArith NArith QArith Lia Bool Ascii String.
From Stdlib Require Import Permutation Sorted.
Import ListNotations.

Close Scope Q_scope.
Local Open Scope N_scope.

(* ================================================================== *)
(** ** Text *)

Definition char := N.
Definition str := list char.

Definition of_string (s : string) : str :=
  map N_of_ascii (list_ascii_of_string s).

Definition str_eqb (a b : str) : bool :=
  if list_eq_dec N.eq_dec a b then true else false.

Definition is_az (c : char) : bool := (97 <=? c) && (c <=? 122).
Definition is_AZ (c : char) : bool := (65 <=? c) && (c <=? 90).

(** A run of ASCII characters none of which is an upper-case letter. *)
Definition ascii_uncased (c : char) : bool := (c <? 128) && negb (is_AZ c).

(* ================================================================== *)
(** ** text_extractor.py *)

Module TextExtractor.

(** The accented characters of [LATIN_WORD_PATTERN], in the order of the
    character class. *)
Definition LATIN_WORD_ACCENTED : list char :=
  [ 257; 275; 299; 333; 363;   256; 274; 298; 332; 362;
    224; 232; 236; 242; 249;   192; 200; 204; 210; 217;
    235; 239; 252;   203; 207; 220;
    230; 339;   198; 338 ].

(** [[a-zA-Z...]] *)
Definition latin_letter (c : char) : bool :=
  is_az c || is_AZ c || existsb (N.eqb c) LATIN_WORD_ACCENTED.

Definition DIACRITIC_MAP : list (char * str) :=
  [ (257, [97]); (275, [101]); (299, [105]); (333, [111]); (363, [117]);
    (256, [97]); (274, [101]); (298, [105]); (332, [111]); (362, [117]);
    (224, [97]); (232, [101]); (236, [105]); (242, [111]); (249, [117]);
    (192, [97]); (200, [101]); (204, [105]); (210, [111]); (217, [117]);
    (235, [101]); (239, [105]); (252, [117]);
    (203, [101]); (207, [105]); (220, [117]);
    (230, [97; 101]); (339, [111; 101]);
    (198, [97; 101]); (338, [111; 101]) ].

Definition is_diacritic (c : char) : bool :=
  existsb (fun e => N.eqb c (fst e)) DIACRITIC_MAP.

(** [text.replace(old, new)] for a one-character [old]. *)
Definition replace (old : char) (new : str) (text : str) : str :=
  flat_map (fun c => if N.eqb c old then new else [c]) text.

Definition normalize_diacritics (text : str) : str :=
  fold_left (fun t e => replace (fst e) (snd e) t) DIACRITIC_MAP text.

(** The builtins of Python the code calls, with the facts about them
    that the proofs rely on.  [lower] is [str.lower], [alnum] is
    [str.isalnum] on one character (the regular expression class [\w] is
    [alnum] or the underscore), [ieq] is the comparison of two characters
    the [re] module makes under [re.IGNORECASE]. *)
Class PyText := {
  lower : str -> str;
  alnum : char -> bool;
  ieq : char -> char -> bool;
  (** [lower] leaves ASCII text without capitals alone *)
  lower_uncased : forall t, forallb ascii_uncased t = true -> lower t = t;
  (** lowering twice is lowering once *)
  lower_lower : forall t, lower (lower t) = lower t;
  (** ASCII letters are alphanumeric; space and full stop are not *)
  alnum_az : forall c, is_az c = true -> alnum c = true;
  alnum_space : alnum 32 = false;
  alnum_stop : alnum 46 = false;
  (** lowering text that holds none of the accented letters of
      [DIACRITIC_MAP] yields no letter of [LATIN_WORD_PATTERN] other than
      a to z: no capital survives, and no accented letter of the pattern
      is the lower case of a character outside the table *)
  lower_latin : forall t d,
    forallb (fun c => negb (is_diacritic c)) t = true ->
    In d (lower t) -> latin_letter d = true -> is_az d = true;
}.

Section Tokenizer.
Context {py : PyText}.

(** [\w] *)
Definition word_char (c : char) : bool := alnum c || N.eqb c 95.

Definition word_side (c : option char) : bool :=
  match c with Some c => word_char c | None => false end.

(** [\b] between the characters [before] and [after] ([None] beyond
    either end of the text). *)
Definition boundary (before after : option char) : bool :=
  xorb (word_side before) (word_side after).

(** Length of the longest run of class characters at the head of [t]. *)
Fixpoint span_letters (t : str) : nat :=
  match t with
  | c :: t' => if latin_letter c then S (span_letters t') else O
  | [] => O
  end.

(** The greedy [+] gives characters back one at a time until [\b] holds
    after the run; it keeps at least one. *)
Fixpoint backtrack (t : str) (k : nat) : option nat :=
  match k with
  | O => None
  | S k' =>
      if boundary (nth_error t k') (nth_error t k) then Some k
      else backtrack t k'
  end.

(** An attempt to match [LATIN_WORD_PATTERN] at the head of [t], the
    character before it being [prev]. *)
Definition match_here (prev : option char) (t : str) : option nat :=
  if boundary prev (hd_error t) then backtrack t (span_letters t) else None.

(** [LATIN_WORD_PATTERN.findall]: leftmost matches, not overlapping. *)
Fixpoint findall_from (fuel : nat) (prev : option char) (t : str) : list str :=
  match fuel with
  | O => []
  | S fuel' =>
      match t with
      | [] => []
      | c :: t' =>
          match match_here prev t with
          | Some k =>
              firstn k t
                :: findall_from fuel' (nth_error t (Nat.pred k)) (skipn k t)
          | None => findall_from fuel' (Some c) t'
          end
      end
  end.

Definition findall (t : str) : list str :=
  findall_from (List.length t) None t.

Definition tokenize (text : str) (normalize : bool) : list str :=
  let text := if normalize then lower (normalize_diacritics text) else text in
  let words := findall text in
  if normalize then map lower words else words.

End Tokenizer.

End TextExtractor.

(* ================================================================== *)
(** ** downloader.py *)

Module Downloader.

Local Open Scope Z_scope.

(** (book_id, url_path, sequence_index) *)
Definition BOOKS : list (str * str * Z) :=
  [ (of_string "praefatio", of_string "livy/liv.pr.shtml", 0);
    (of_string "1", of_string "livy/liv.1.shtml", 1);
    (of_string "2", of_string "livy/liv.2.shtml", 2);
    (of_string "3", of_string "livy/liv.3.shtml", 3);
    (of_string "4", of_string "livy/liv.4.shtml", 4);
    (of_string "5", of_string "livy/liv.5.shtml", 5);
    (of_string "6", of_string "livy/liv.6.shtml", 6);
    (of_string "7", of_string "livy/liv.7.shtml", 7);
    (of_string "8", of_string "livy/liv.8.shtml", 8);
    (of_string "9", of_string "livy/liv.9.shtml", 9);
    (of_string "10", of_string "livy/liv.10.shtml", 10);
    (of_string "21", of_string "livy/liv.21.shtml", 11);
    (of_string "22", of_string "livy/liv.22.shtml", 12);
    (of_string "23", of_string "livy/liv.23.shtml", 13);
    (of_string "24", of_string "livy/liv.24.shtml", 14);
    (of_string "25", of_string "livy/liv.25.shtml", 15);
    (of_string "26", of_string "livy/liv.26.shtml", 16);
    (of_string "27", of_string "livy/liv.27.shtml", 17);
    (of_string "28", of_string "livy/liv.28.shtml", 18);
    (of_string "29", of_string "livy/liv.29.shtml", 19);
    (of_string "30", of_string "livy/liv.30.shtml", 20);
    (of_string "31", of_string "livy/liv.31.shtml", 21);
    (of_string "32", of_string "livy/liv.32.shtml", 22);
    (of_string "33", of_string "livy/liv.33.shtml", 23);
    (of_string "34", of_string "livy/liv.34.shtml", 24);
    (of_string "35", of_string "livy/liv.35.shtml", 25);
    (of_string "36", of_string "livy/liv.36.shtml", 26);
    (of_string "37", of_string "livy/liv.37.shtml", 27);
    (of_string "38", of_string "livy/liv.38.shtml", 28);
    (of_string "39", of_string "livy/liv.39.shtml", 29);
    (of_string "40", of_string "livy/liv.40.shtml", 30);
    (of_string "41", of_string "livy/liv.41.shtml", 31);
    (of_string "42", of_string "livy/liv.42.shtml", 32);
    (of_string "43", of_string "livy/liv.43.shtml", 33);
    (of_string "44", of_string "livy/liv.44.shtml", 34);
    (of_string "45", of_string "livy/liv.45.shtml", 35) ].

Definition get_book_title (book_id : str) : str :=
  if str_eqb book_id (of_string "praefatio") then of_string "Praefatio"
  else of_string "Book " ++ book_id.

Record BookMeta := {
  book_id : str;
  title : str;
  url_path : str;
  sequence_index : Z;
}.

Definition get_book_metadata : list BookMeta :=
  map (fun b =>
         let '(book_id, url_path, seq_idx) := b in
         {| book_id := book_id;
            title := get_book_title book_id;
            url_path := url_path;
            sequence_index := seq_idx |})
      BOOKS.

End Downloader.

(* ================================================================== *)
(** ** Python dictionaries with string keys, in insertion order *)

Module Dict.

Definition dict (V : Type) := list (str * V).

Fixpoint get {V} (k : str) (d : dict V) : option V :=
  match d with
  | [] => None
  | (k', v) :: d' => if str_eqb k' k then Some v else get k d'
  end.

Definition mem {V} (k : str) (d : dict V) : bool :=
  match get k d with Some _ => true | None => false end.

(** [d[k] = v]: an existing key keeps its place, a new one goes last. *)
Fixpoint set {V} (k : str) (v : V) (d : dict V) : dict V :=
  match d with
  | [] => [(k, v)]
  | (k', v') :: d' =>
      if str_eqb k' k then (k', v) :: d' else (k', v') :: set k v d'
  end.

Definition keys {V} (d : dict V) : list str := map fst d.
Definition values {V} (d : dict V) : list V := map snd d.

End Dict.

(* ================================================================== *)
(** ** analyzer.py *)

Module Analyzer.

Import TextExtractor Downloader.
Local Open Scope Z_scope.

Definition sum (l : list Z) : Z := fold_left Z.add l 0.
Definition len {A} (l : list A) : Z := Z.of_nat (List.length l).

(** *** Snippets *)

Record Snippet := { context : str; position : Z }.

Definition ellipsis : str := of_string "...".

(** Python's [text[a:b]]: a negative index counts from the end, and both
    are clipped to the text. *)
Definition slice_index (n i : Z) : Z :=
  if i <? 0 then Z.max 0 (i + n) else Z.min i n.

Definition slice (text : str) (a b : Z) : str :=
  let a' := slice_index (len text) a in
  let b' := slice_index (len text) b in
  firstn (Z.to_nat (b' - a')) (skipn (Z.to_nat a') text).

Definition char_before (text : str) (i : nat) : option char :=
  match i with O => None | S j => nth_error text j end.

Section Analysis.
Context {py : PyText}.

Definition Counter (words : list str) : Dict.dict Z :=
  fold_left
    (fun c w =>
       Dict.set w (match Dict.get w c with Some n => n | None => 0 end + 1) c)
    words [].

Definition calculate_frequencies (text : str) : Dict.dict Z :=
  Counter (tokenize text true).

Definition calculate_relative_frequency (count total_words : Z) : Q :=
  if total_words =? 0 then 0%Q
  else (inject_Z count / inject_Z total_words * inject_Z 10000)%Q.

(** The characters of [re.escape(word)] against the head of [text],
    each compared as [re.IGNORECASE] compares. *)
Fixpoint imatch (word text : str) : bool :=
  match word, text with
  | [], _ => true
  | w :: word', c :: text' => ieq w c && imatch word' text'
  | _ :: _, [] => false
  end.

(** The pattern [\b word \b] at offset [i] of [text]. *)
Definition match_at (word text : str) (i : nat) : bool :=
  boundary (char_before text i) (nth_error text i)
  && imatch word (skipn i text)
  && boundary (char_before text (i + List.length word))
              (nth_error text (i + List.length word)).

(** [pattern.finditer(text)]: the (start, end) of the matches from left
    to right, none overlapping; after an empty match the scan moves on
    by one character. *)
Fixpoint finditer_from (fuel : nat) (word text : str) (i : nat)
  : list (nat * nat) :=
  match fuel with
  | O => []
  | S fuel' =>
      if (List.length text <? i)%nat then []
      else if match_at word text i then
        (i, (i + List.length word)%nat)
          :: finditer_from fuel' word text
               (match word with [] => S i | _ => (i + List.length word)%nat end)
      else finditer_from fuel' word text (S i)
  end.

Definition finditer (word text : str) : list (nat * nat) :=
  finditer_from (S (List.length text)) word text O.

(** The body of the loop of [extract_snippets] up to the [append]. *)
Definition snippet_of (text : str) (context_chars : Z) (m : nat * nat)
  : Snippet :=
  let start := Z.max 0 (Z.of_nat (fst m) - context_chars) in
  let end_ := Z.min (len text) (Z.of_nat (snd m) + context_chars) in
  let context := slice text start end_ in
  let context := if 0 <? start then ellipsis ++ context else context in
  let context := if end_ <? len text then context ++ ellipsis else context in
  {| context := context; position := Z.of_nat (fst m) |}.

(** The loop itself: append, then leave once the list is long enough. *)
Fixpoint snippets_loop (text : str) (context_chars max_snippets : Z)
    (matches : list (nat * nat)) (snippets : list Snippet) : list Snippet :=
  match matches with
  | [] => snippets
  | m :: matches' =>
      let snippets := snippets ++ [snippet_of text context_chars m] in
      if max_snippets <=? len snippets then snippets
      else snippets_loop text context_chars max_snippets matches' snippets
  end.

Definition extract_snippets (text word : str)
    (context_chars max_snippets : Z) : list Snippet :=
  snippets_loop text context_chars max_snippets (finditer word text) [].

End Analysis.

(** *** The database *)

Record BookRow := {
  b_book_id : str;
  b_title : str;
  b_sequence_index : Z;
  b_total_words : Z;
  b_unique_words : Z;
}.

Record WordFrequencyRow := {
  wf_word : str;
  wf_book_id : str;
  wf_count : Z;
  wf_relative_frequency : Q;
}.

Record WordStatRow := {
  ws_word : str;
  ws_total_count : Z;
  ws_book_count : Z;
  ws_mean_position : Q;
}.

Record SnippetRow := {
  s_id : Z;
  s_word : str;
  s_book_id : str;
  s_context : str;
  s_position_in_book : Z;
}.

Record DB := {
  books : list BookRow;
  word_frequencies : list WordFrequencyRow;
  word_stats : list WordStatRow;
  snippets : list SnippetRow;
}.

Definition empty_db : DB :=
  {| books := []; word_frequencies := []; word_stats := []; snippets := [] |}.

(** What the pipeline asks of the file at [db_path]. *)
Inductive stmt :=
| Unlink                       (* db_path.unlink() if it exists *)
| CreateSchema                 (* sqlite3.connect, executescript *)
| Commit
| Close
| InsertBook (r : BookRow)
| InsertWordFrequency (r : WordFrequencyRow)
| InsertWordStat (r : WordStatRow)
| InsertSnippet (word book_id context : str) (position : Z).

(** [disk] is what a reader that opens the file finds: [None] when there
    is no file or it has no tables.  [conn] is the writer's view, with the
    rows of its open transaction; [None] when there is no connection. *)
Record store := { disk : option DB; conn : option DB }.

Definition has_book (k : str) (db : DB) : bool :=
  existsb (fun r => str_eqb (b_book_id r) k) (books db).

Definition has_word_frequency (w k : str) (db : DB) : bool :=
  existsb (fun r => str_eqb (wf_word r) w && str_eqb (wf_book_id r) k)
          (word_frequencies db).

Definition has_word_stat (w : str) (db : DB) : bool :=
  existsb (fun r => str_eqb (ws_word r) w) (word_stats db).

(** One INSERT on the tables of the connection; [None] is the
    [sqlite3.IntegrityError] of a primary key already present. *)
Definition insert (s : stmt) (db : DB) : option DB :=
  match s with
  | InsertBook r =>
      if has_book (b_book_id r) db then None
      else Some {| books := books db ++ [r];
                   word_frequencies := word_frequencies db;
                   word_stats := word_stats db;
                   snippets := snippets db |}
  | InsertWordFrequency r =>
      if has_word_frequency (wf_word r) (wf_book_id r) db then None
      else Some {| books := books db;
                   word_frequencies := word_frequencies db ++ [r];
                   word_stats := word_stats db;
                   snippets := snippets db |}
  | InsertWordStat r =>
      if has_word_stat (ws_word r) db then None
      else Some {| books := books db;
                   word_frequencies := word_frequencies db;
                   word_stats := word_stats db ++ [r];
                   snippets := snippets db |}
  | InsertSnippet word book_id context position =>
      Some {| books := books db;
              word_frequencies := word_frequencies db;
              word_stats := word_stats db;
              snippets := snippets db
                ++ [ {| s_id := len (snippets db) + 1;
                        s_word := word;
                        s_book_id := book_id;
                        s_context := context;
                        s_position_in_book := position |} ] |}
  | _ => Some db
  end.

(** One statement; [None] when sqlite3 raises. *)
Definition exec (s : stmt) (st : store) : option store :=
  match s with
  | Unlink => Some {| disk := None; conn := conn st |}
  | CreateSchema =>
      match disk st with
      | Some _ => None
      | None => Some {| disk := Some empty_db; conn := Some empty_db |}
      end
  | Commit =>
      match conn st with
      | Some db => Some {| disk := Some db; conn := Some db |}
      | None => None
      end
  | Close => Some {| disk := disk st; conn := None |}
  | _ =>
      match conn st with
      | Some db =>
          match insert s db with
          | Some db' => Some {| disk := disk st; conn := Some db' |}
          | None => None
          end
      | None => None
      end
  end.

(** Statements in order until one raises; the flag tells whether all
    went through.  The exception is not caught anywhere in the pipeline,
    so the store stays as the last good statement left it. *)
Fixpoint exec_all (stmts : list stmt) (st : store) : store * bool :=
  match stmts with
  | [] => (st, true)
  | s :: stmts' =>
      match exec s st with
      | Some st' => exec_all stmts' st'
      | None => (st, false)
      end
  end.

(** A storage failure on statement number [k] (from 0): the first [k]
    run, the next one raises whatever it is. *)
Definition exec_until_failure (k : nat) (stmts : list stmt) (st : store)
  : store :=
  fst (exec_all (firstn k stmts) st).

Definition create_database : list stmt := [Unlink; CreateSchema; Commit].

(** *** The pipeline *)

Section Pipeline.
Context {py : PyText}.

(** The text files of [texts_dir] by book id: what [read_text] returns
    for a file that is there, and [None], the [FileNotFoundError], for
    one that is not.  A file that is there but cannot be read or decoded
    is not among these; a run over such files is [Files.run] below. *)
Variable texts : str -> option str.

Definition load_text (book_id : str) : option str := texts book_id.

(** The three maps filled by the first loop of [run_analysis]. *)
Record Gathered := {
  all_frequencies : Dict.dict (Dict.dict Z);
  book_totals : Dict.dict Z;
  book_texts : Dict.dict str;
}.

Definition book_id_to_metadata (book_metadata : list BookMeta)
  : Dict.dict BookMeta :=
  fold_left (fun d b => Dict.set (book_id b) b d) book_metadata [].

(** [all_frequencies[word][book_id] = count], after the word got an
    empty map if it had none. *)
Definition aggregate (book_id : str) (all_frequencies : Dict.dict (Dict.dict Z))
    (item : str * Z) : Dict.dict (Dict.dict Z) :=
  let (word, count) := item in
  let all_frequencies :=
    if Dict.mem word all_frequencies then all_frequencies
    else Dict.set word [] all_frequencies in
  match Dict.get word all_frequencies with
  | Some book_counts =>
      Dict.set word (Dict.set book_id count book_counts) all_frequencies
  | None => all_frequencies
  end.

(** One turn of the loop over [book_metadata]. *)
Definition gather_book (acc : Gathered * list stmt) (meta : BookMeta)
  : Gathered * list stmt :=
  let (g, out) := acc in
  let book_id := book_id meta in
  match load_text book_id with
  | None => (g, out)
  | Some text =>
      let book_texts := Dict.set book_id text (book_texts g) in
      let frequencies := calculate_frequencies text in
      let total_words := sum (Dict.values frequencies) in
      let unique_words := len frequencies in
      let book_totals := Dict.set book_id total_words (book_totals g) in
      let out :=
        out ++ [InsertBook {| b_book_id := book_id;
                              b_title := title meta;
                              b_sequence_index := sequence_index meta;
                              b_total_words := total_words;
                              b_unique_words := unique_words |}] in
      let all_frequencies :=
        fold_left (aggregate book_id) frequencies (all_frequencies g) in
      ({| all_frequencies := all_frequencies;
          book_totals := book_totals;
          book_texts := book_texts |}, out)
  end.

Definition weighted_sum_of (by_id : Dict.dict BookMeta)
    (book_counts : Dict.dict Z) : Z :=
  fold_left
    (fun weighted_sum item =>
       let '(book_id, count) := item in
       match Dict.get book_id by_id with
       | Some meta => weighted_sum + sequence_index meta * count
       | None => weighted_sum
       end)
    book_counts 0.

Definition mean_position_of (weighted_sum total_count : Z) : Q :=
  if 0 <? total_count then (inject_Z weighted_sum / inject_Z total_count)%Q
  else 0%Q.

Definition store_frequency (word : str) (book_totals : Dict.dict Z)
    (out : list stmt) (item : str * Z) : list stmt :=
  let '(book_id, count) := item in
  match Dict.get book_id book_totals with
  | Some total =>
      out ++ [InsertWordFrequency
                {| wf_word := word;
                   wf_book_id := book_id;
                   wf_count := count;
                   wf_relative_frequency :=
                     calculate_relative_frequency count total |}]
  | None => out
  end.

(** One turn of the loop over [all_frequencies.items()]. *)
Definition stat_word (by_id : Dict.dict BookMeta) (book_totals : Dict.dict Z)
    (acc : list WordStatRow * list stmt) (item : str * Dict.dict Z)
  : list WordStatRow * list stmt :=
  let (word_stats, out) := acc in
  let (word, book_counts) := item in
  let total_count := sum (Dict.values book_counts) in
  let book_count := len book_counts in
  let weighted_sum := weighted_sum_of by_id book_counts in
  let mean_position := mean_position_of weighted_sum total_count in
  let word_stats :=
    word_stats ++ [ {| ws_word := word;
                       ws_total_count := total_count;
                       ws_book_count := book_count;
                       ws_mean_position := mean_position |} ] in
  (word_stats, fold_left (store_frequency word book_totals) book_counts out).

Definition store_snippets (max_snippets_per_book : Z)
    (book_texts : Dict.dict str) (common_words : list str) : list stmt :=
  flat_map
    (fun word =>
       flat_map
         (fun item : str * str =>
            let (book_id, text) := item in
            map (fun snippet =>
                   InsertSnippet word book_id (context snippet)
                                 (position snippet))
                (extract_snippets text word 50 max_snippets_per_book))
         book_texts)
    common_words.

Definition gathered (book_metadata : list BookMeta) : Gathered * list stmt :=
  fold_left gather_book book_metadata
    ({| all_frequencies := []; book_totals := []; book_texts := [] |}, []).

Definition stats (book_metadata : list BookMeta) (g : Gathered)
  : list WordStatRow * list stmt :=
  fold_left (stat_word (book_id_to_metadata book_metadata) (book_totals g))
            (all_frequencies g) ([], []).

(** Everything [run_analysis] sends to the database, in order, once
    [get_book_metadata()] has returned [book_metadata]. *)
Definition analysis (book_metadata : list BookMeta)
    (min_word_freq max_snippets_per_book : Z) : list stmt :=
  let (g, books_out) := gathered book_metadata in
  let (word_stats, frequencies_out) := stats book_metadata g in
  let common_words :=
    map ws_word
        (filter (fun r => min_word_freq <=? ws_total_count r) word_stats) in
  create_database
    ++ books_out
    ++ frequencies_out
    ++ map InsertWordStat word_stats
    ++ store_snippets max_snippets_per_book (book_texts g) common_words
    ++ [Commit; Close].

Definition run_analysis (min_word_freq max_snippets_per_book : Z)
  : list stmt :=
  analysis get_book_metadata min_word_freq max_snippets_per_book.

(** The file after a run that nothing interrupts. *)
Definition rebuild (min_word_freq max_snippets_per_book : Z) (st : store)
  : store * bool :=
  exec_all (run_analysis min_word_freq max_snippets_per_book) st.

End Pipeline.

(** *** The queries *)

Fixpoint insert_by {A} (le : A -> A -> bool) (x : A) (l : list A) : list A :=
  match l with
  | [] => [x]
  | y :: l' => if le x y then x :: l else y :: insert_by le x l'
  end.

(** Rows in ascending order of their keys; rows that compare equal keep
    the order of the scan.  This is the order SQLite's sorter gives for
    ORDER BY, and the order of an index over the table walked forwards;
    a query that walks an index backwards, for DESC, gets the reverse. *)
Definition order_by {A} (le : A -> A -> bool) (l : list A) : list A :=
  fold_right (insert_by le) [] l.

(** LIMIT with a bound that fits 64 bits (see [bind_int] for the
    others): a negative bound is no bound. *)
Definition limit_rows {A} (n : Z) (l : list A) : list A :=
  if n <? 0 then l else firstn (Z.to_nat n) l.

Definition ascii_fold (c : char) : char :=
  if is_AZ c then (c + 32)%N else c.

(** SQLite's comparison of a pattern with a string, both as far as
    their first NUL: [%] is any run of characters, [_] any one
    character, ASCII letters match in either case. *)
Fixpoint pattern_compare (pattern : str) : str -> bool :=
  match pattern with
  | [] => fun s => match s with [] => true | _ :: _ => false end
  | p :: pattern' =>
      if (p =? 37)%N then
        fix any (s : str) : bool :=
          pattern_compare pattern' s
          || match s with [] => false | _ :: s' => any s' end
      else if (p =? 95)%N then
        fun s =>
          match s with [] => false | _ :: s' => pattern_compare pattern' s' end
      else
        fun s =>
          match s with
          | [] => false
          | c :: s' =>
              (ascii_fold p =? ascii_fold c)%N && pattern_compare pattern' s'
          end
  end.

(** A text as C reads it: up to the first NUL. *)
Fixpoint c_string (t : str) : str :=
  match t with
  | [] => []
  | c :: t' => if (c =? 0)%N then [] else c :: c_string t'
  end.

(** *** Parameters and limits of SQLite *)

(** A Python int bound to a parameter: outside 64 bits sqlite3 raises
    [OverflowError]. *)
Definition bind_int (n : Z) : option Z :=
  if (- 2 ^ 63 <=? n) && (n <? 2 ^ 63) then Some n else None.

(** The bytes of one character in UTF-8; a surrogate has none. *)
Definition utf8_length (c : char) : option Z :=
  if (c <? 128)%N then Some 1
  else if (c <? 2048)%N then Some 2
  else if (55296 <=? c)%N && (c <=? 57343)%N then None
  else if (c <? 65536)%N then Some 3
  else if (c <? 1114112)%N then Some 4
  else None.

(** The length in bytes of a str bound to a parameter; [None] is the
    [UnicodeEncodeError] of a str that cannot be encoded. *)
Fixpoint utf8_bytes (t : str) : option Z :=
  match t with
  | [] => Some 0
  | c :: t' =>
      match utf8_length c, utf8_bytes t' with
      | Some n, Some m => Some (n + m)
      | _, _ => None
      end
  end.

(** SQLITE_MAX_LIKE_PATTERN_LENGTH *)
Definition LIKE_PATTERN_LENGTH : Z := 50000.

(** [s LIKE pattern] for a pattern of [bytes] bytes; [None] is the
    error "LIKE or GLOB pattern too complex". *)
Definition like (pattern : str) (bytes : Z) (s : str) : option bool :=
  if LIKE_PATTERN_LENGTH <? bytes then None
  else Some (pattern_compare (c_string pattern) (c_string s)).

Record FrequencyResult := {
  fr_book_id : str;
  fr_title : str;
  fr_sequence_index : Z;
  fr_count : Z;
  fr_relative_frequency : Q;
}.

Section Queries.
Context {py : PyText}.

(** books LEFT JOIN word_frequencies: the rows of one book. *)
Definition joined (word : str) (db : DB) (b : BookRow)
  : list FrequencyResult :=
  match filter (fun wf => str_eqb (b_book_id b) (wf_book_id wf)
                          && str_eqb (wf_word wf) word)
               (word_frequencies db) with
  | [] => [ {| fr_book_id := b_book_id b;
               fr_title := b_title b;
               fr_sequence_index := b_sequence_index b;
               fr_count := 0;
               fr_relative_frequency := 0%Q |} ]
  | found =>
      map (fun wf => {| fr_book_id := b_book_id b;
                        fr_title := b_title b;
                        fr_sequence_index := b_sequence_index b;
                        fr_count := wf_count wf;
                        fr_relative_frequency := wf_relative_frequency wf |})
          found
  end.

(** [None]: the file has no tables and sqlite3 raises. *)
Definition get_word_frequencies (word : str) (st : store)
  : option (list FrequencyResult) :=
  match disk st with
  | None => None
  | Some db =>
      Some (order_by
              (fun a b => fr_sequence_index a <=? fr_sequence_index b)
              (flat_map (joined (lower word) db) (books db)))
  end.

(** The rows of idx_word_stats_count from the lowest total_count up;
    rows with the same count stand in the order of their insertion. *)
Definition by_total_count (db : DB) : list WordStatRow :=
  order_by (fun a b => ws_total_count a <=? ws_total_count b) (word_stats db).

(** WHERE word LIKE ? ... LIMIT ? over the rows in the order of the
    walk: a row is tested only while the limit is not reached, and the
    test of a pattern that is too long raises. *)
Fixpoint select_like (pattern : str) (bytes limit : Z)
    (rows : list WordStatRow) : option (list WordStatRow) :=
  if limit =? 0 then Some []
  else
    match rows with
    | [] => Some []
    | r :: rows' =>
        match like pattern bytes (ws_word r) with
        | None => None
        | Some true =>
            option_map (cons r) (select_like pattern bytes (limit - 1) rows')
        | Some false => select_like pattern bytes limit rows'
        end
    end.

(** ORDER BY total_count DESC is answered by walking
    idx_word_stats_count backwards, so of two rows with the same
    total_count the one inserted later comes first.  [None]: sqlite3
    raises, because the file has no tables, a parameter cannot be bound
    or the pattern is too long. *)
Definition search_words (prefix : str) (limit : Z) (st : store)
  : option (list str) :=
  let pattern := lower prefix ++ [37%N] in
  match utf8_bytes pattern, bind_int limit, disk st with
  | Some bytes, Some limit, Some db =>
      option_map (map ws_word)
                 (select_like pattern bytes limit (rev (by_total_count db)))
  | _, _, _ => None
  end.

End Queries.

End Analyzer.

(* ================================================================== *)
(** ** Python's builtins on Basic Latin, Latin-1 and Latin Extended-A

    [str.lower], [str.isalnum] and the case-blind comparison of [re],
    restricted to the code points below U+0180; characters beyond are
    left alone and count as symbols. *)

Module Latin.

Local Open Scope N_scope.

Definition lower_char (c : char) : str :=
  if is_AZ c then [c + 32]
  else if (192 <=? c) && (c <=? 222) && negb (c =? 215) then [c + 32]
  else if c =? 304 then [105; 775]
  else if (256 <=? c) && (c <=? 303) && N.even c then [c + 1]
  else if (306 <=? c) && (c <=? 311) && N.even c then [c + 1]
  else if (313 <=? c) && (c <=? 328) && N.odd c then [c + 1]
  else if (330 <=? c) && (c <=? 375) && N.even c then [c + 1]
  else if c =? 376 then [255]
  else if (377 <=? c) && (c <=? 382) && N.odd c then [c + 1]
  else [c].

Definition lower (t : str) : str := flat_map lower_char t.

Definition between (a b c : char) : bool := (a <=? c) && (c <=? b).

Definition alnum (c : char) : bool :=
  (c <? 384)
  && negb (between 0 47 c || between 58 64 c || between 91 96 c
           || between 123 169 c || between 171 177 c || (c =? 180)
           || between 182 184 c || (c =? 187) || (c =? 191)
           || (c =? 215) || (c =? 247)).

Definition lower1 (c : char) : char := hd c (lower_char c).

(** What [re.IGNORECASE] takes for the same letter: the simple lower
    case, with dotless i counted as i and long s as s, as the table of
    equivalences of [re] has it.  The five characters beyond U+0180 that
    [re] matches with a letter below it are the Kelvin and Angstrom
    signs, the two Greek mu and the capital sharp s. *)
Definition fold_case (c : char) : char :=
  if c =? 8490 then 107
  else if c =? 8491 then 229
  else if (c =? 924) || (c =? 956) then 181
  else if c =? 7838 then 223
  else
    let l := lower1 c in
    if l =? 305 then 105 else if l =? 383 then 115 else l.

(** Exact whenever one of the two characters, the pattern's, is below
    U+0180. *)
Definition ieq (a b : char) : bool := fold_case a =? fold_case b.

End Latin.

(* ================================================================== *)
(** ** Vocabulary of the properties *)

Module Vocabulary.
Import TextExtractor.

(** Text without any character of [DIACRITIC_MAP]. *)
Definition plain (t : str) : bool := forallb (fun c => negb (is_diacritic c)) t.

(** A token in normalized form: a run of a to z, not empty. *)
Definition normalized (w : str) : Prop := w <> [] /\ forallb is_az w = true.

(** [' '.join(ws)] *)
Fixpoint unwords (ws : list str) : str :=
  match ws with
  | [] => []
  | [w] => w
  | w :: ws' => w ++ 32 :: unwords ws'
  end.

(** What may follow a word in [unwords]: the end, or a space. *)
Definition ends_word (rest : str) : Prop :=
  rest = [] \/ exists r, rest = 32 :: r.

End Vocabulary.

(* ================================================================== *)
(** * Proofs *)

Lemma str_eqb_eq (a b : str) : str_eqb a b = true <-> a = b.
Proof.
  unfold str_eqb. destruct (list_eq_dec N.eq_dec a b); split; congruence.
Qed.

Lemma str_eqb_neq (a b : str) : str_eqb a b = false <-> a <> b.
Proof.
  unfold str_eqb. destruct (list_eq_dec N.eq_dec a b); split; congruence.
Qed.

Lemma str_eqb_refl (a : str) : str_eqb a a = true.
Proof. now apply str_eqb_eq. Qed.

Lemma str_eqb_sym (a b : str) : str_eqb a b = str_eqb b a.
Proof.
  destruct (str_eqb b a) eqn:E.
  - apply str_eqb_eq in E. subst. apply str_eqb_refl.
  - apply str_eqb_neq in E. apply str_eqb_neq. congruence.
Qed.

(** Every code point below a bound passes a test that all of them pass. *)
Lemma below_forallb (p : N -> bool) (n : nat) :
  forallb p (map N.of_nat (seq 0 n)) = true ->
  forall c, c < N.of_nat n -> p c = true.
Proof.
  intros H c Hc. rewrite forallb_forall in H. apply H.
  rewrite <- (N2Nat.id c). apply in_map. apply in_seq. lia.
Qed.

(** ** The Latin-range builtins obey the laws of [PyText] *)

Module LatinFacts.
Import TextExtractor.

Lemma lower_char_beyond c : 384 <= c -> Latin.lower_char c = [c].
Proof.
  intros H. unfold Latin.lower_char, is_AZ.
  repeat match goal with
  | |- (if ?b then _ else _) = _ =>
      let E := fresh "E" in
      destruct b eqn:E;
      [ exfalso;
        repeat (rewrite andb_true_iff in E; destruct E as [E ?]);
        rewrite ?N.leb_le, ?N.eqb_eq in *; lia | ]
  end.
  reflexivity.
Qed.

Lemma lower_char_uncased c :
  ascii_uncased c = true -> Latin.lower_char c = [c].
Proof.
  intros H.
  destruct (N.ltb_spec c 384) as [Hc|Hc]; [|now apply lower_char_beyond].
  assert (K : implb (ascii_uncased c) (str_eqb (Latin.lower_char c) [c])
              = true).
  { clear H. revert c Hc. apply (below_forallb _ 384).
    vm_compute. reflexivity. }
  rewrite H in K. now apply str_eqb_eq in K.
Qed.

Lemma lower_char_twice c :
  flat_map Latin.lower_char (Latin.lower_char c) = Latin.lower_char c.
Proof.
  destruct (N.ltb_spec c 384) as [Hc|Hc].
  - apply str_eqb_eq. revert c Hc.
    apply (below_forallb
             (fun c => str_eqb (flat_map Latin.lower_char (Latin.lower_char c))
                               (Latin.lower_char c)) 384).
    vm_compute. reflexivity.
  - rewrite (lower_char_beyond c Hc). simpl.
    rewrite (lower_char_beyond c Hc). reflexivity.
Qed.

Lemma lower_char_latin c :
  is_diacritic c = false ->
  forall d, In d (Latin.lower_char c) -> latin_letter d = true ->
            is_az d = true.
Proof.
  intros Hc d Hd Hl.
  destruct (N.ltb_spec c 384) as [Hlt|Hge].
  - assert (K : is_diacritic c
                || forallb (fun d => implb (latin_letter d) (is_az d))
                           (Latin.lower_char c) = true).
    { clear Hc Hd. revert c Hlt. apply (below_forallb _ 384).
      vm_compute. reflexivity. }
    rewrite Hc in K. simpl in K. rewrite forallb_forall in K.
    specialize (K d Hd). now rewrite Hl in K.
  - rewrite (lower_char_beyond c Hge) in Hd. destruct Hd as [<-|[]].
    exfalso. unfold latin_letter, is_az, is_AZ in Hl.
    rewrite !orb_true_iff, !andb_true_iff, !N.leb_le in Hl.
    destruct Hl as [[Hl|Hl]|Hl]; try lia.
    apply existsb_exists in Hl. destruct Hl as (x & Hx & E).
    apply N.eqb_eq in E. subst x.
    assert (forallb (fun x => x <? 384) LATIN_WORD_ACCENTED = true)
      by reflexivity.
    rewrite forallb_forall in H. apply H in Hx. apply N.ltb_lt in Hx. lia.
Qed.

Lemma lower_uncased t :
  forallb ascii_uncased t = true -> Latin.lower t = t.
Proof.
  induction t as [|c t IH]; simpl; [reflexivity|].
  rewrite andb_true_iff. intros [Hc Ht].
  unfold Latin.lower in *. simpl.
  rewrite (lower_char_uncased c Hc), (IH Ht). reflexivity.
Qed.

Lemma lower_lower t : Latin.lower (Latin.lower t) = Latin.lower t.
Proof.
  unfold Latin.lower. induction t as [|c t IH]; simpl; [reflexivity|].
  rewrite flat_map_app, IH, lower_char_twice. reflexivity.
Qed.

Lemma lower_latin t d :
  forallb (fun c => negb (is_diacritic c)) t = true ->
  In d (Latin.lower t) -> latin_letter d = true -> is_az d = true.
Proof.
  intros Ht Hd. unfold Latin.lower in Hd. apply in_flat_map in Hd.
  destruct Hd as (c & Hc & Hd).
  rewrite forallb_forall in Ht. specialize (Ht c Hc).
  apply negb_true_iff in Ht. now apply (lower_char_latin c).
Qed.

Lemma alnum_az c : is_az c = true -> Latin.alnum c = true.
Proof.
  intros H.
  assert (K : implb (is_az c) (Latin.alnum c) = true).
  { destruct (N.ltb_spec c 384) as [Hc|Hc].
    - clear H. revert c Hc. apply (below_forallb _ 384).
      vm_compute. reflexivity.
    - unfold is_az in H. rewrite andb_true_iff, !N.leb_le in H. lia. }
  now rewrite H in K.
Qed.

End LatinFacts.

(** The builtins on the Latin range, as one [PyText]. *)
Definition latin : TextExtractor.PyText := {|
  TextExtractor.lower := Latin.lower;
  TextExtractor.alnum := Latin.alnum;
  TextExtractor.ieq := Latin.ieq;
  TextExtractor.lower_uncased := LatinFacts.lower_uncased;
  TextExtractor.lower_lower := LatinFacts.lower_lower;
  TextExtractor.alnum_az := LatinFacts.alnum_az;
  TextExtractor.alnum_space := eq_refl;
  TextExtractor.alnum_stop := eq_refl;
  TextExtractor.lower_latin := LatinFacts.lower_latin;
|}.

(** ** The tokenizer *)

Module TokenizerFacts.
Import TextExtractor Vocabulary.

Lemma in_replace c old new t :
  In c (replace old new t) -> (In c t /\ c <> old) \/ In c new.
Proof.
  unfold replace. rewrite in_flat_map. intros (x & Hx & Hc).
  destruct (N.eqb_spec x old) as [->|Hne]; [now right|].
  destruct Hc as [<-|[]]. now left.
Qed.

Lemma replace_absent old new t : ~ In old t -> replace old new t = t.
Proof.
  unfold replace. induction t as [|c t IH]; simpl; [reflexivity|].
  intros H. destruct (N.eqb_spec c old) as [->|Hne].
  - exfalso. apply H. now left.
  - simpl. f_equal. apply IH. intros K. apply H. now right.
Qed.

(** What a chain of replacements leaves: characters of the text that are
    no key, and characters of the replacements. *)
Lemma in_replace_all (m : list (char * str)) : forall t c,
  In c (fold_left (fun t e => replace (fst e) (snd e) t) m t) ->
  (In c t /\ ~ In c (map fst m)) \/ In c (List.concat (map snd m)).
Proof.
  induction m as [|e m IH]; simpl; intros t c H.
  - left. split; [assumption|tauto].
  - apply IH in H. destruct H as [[H Hk]|H].
    + apply in_replace in H. destruct H as [[H Hne]|H].
      * left. split; [assumption|]. intros [E|K]; [congruence|tauto].
      * right. apply in_or_app. now left.
    + right. apply in_or_app. now right.
Qed.

Lemma replace_all_absent (m : list (char * str)) : forall t,
  (forall c, In c t -> ~ In c (map fst m)) ->
  fold_left (fun t e => replace (fst e) (snd e) t) m t = t.
Proof.
  induction m as [|e m IH]; simpl; intros t H; [reflexivity|].
  rewrite replace_absent.
  - apply IH. intros c Hc K. apply (H c Hc). now right.
  - intros K. apply (H _ K). now left.
Qed.

Lemma is_diacritic_key c : is_diacritic c = true <-> In c (map fst DIACRITIC_MAP).
Proof.
  unfold is_diacritic. rewrite existsb_exists, in_map_iff. split.
  - intros (e & He & E). apply N.eqb_eq in E. exists e. now split.
  - intros (e & E & He). exists e. split; [assumption|]. now apply N.eqb_eq.
Qed.

(** No character of the table survives [normalize_diacritics]. *)
Lemma normalize_diacritics_plain t : plain (normalize_diacritics t) = true.
Proof.
  apply forallb_forall. intros c Hc. apply negb_true_iff.
  apply in_replace_all in Hc. destruct Hc as [[_ Hk]|Hr].
  - destruct (is_diacritic c) eqn:E; [|reflexivity].
    apply is_diacritic_key in E. contradiction.
  - assert (K : plain (List.concat (map snd DIACRITIC_MAP)) = true) by reflexivity.
    unfold plain in K. rewrite forallb_forall in K.
    apply negb_true_iff. now apply K.
Qed.

(** Text without characters of the table is left as it is. *)
Lemma normalize_diacritics_id t :
  plain t = true -> normalize_diacritics t = t.
Proof.
  intros H. apply replace_all_absent. intros c Hc K.
  unfold plain in H. rewrite forallb_forall in H. specialize (H c Hc).
  apply is_diacritic_key in K. now rewrite K in H.
Qed.

(** Every accented letter of the pattern is a key of the table, and the
    other way round. *)
Lemma accented_are_keys c :
  existsb (N.eqb c) LATIN_WORD_ACCENTED = is_diacritic c.
Proof.
  unfold is_diacritic.
  assert (E : LATIN_WORD_ACCENTED = map fst DIACRITIC_MAP) by reflexivity.
  rewrite E. clear E. induction DIACRITIC_MAP as [|e m IH]; simpl; [reflexivity|].
  now rewrite IH.
Qed.

Section WithPy.
Context {py : PyText}.

Lemma is_az_uncased c : is_az c = true -> ascii_uncased c = true.
Proof.
  unfold is_az, ascii_uncased, is_AZ.
  rewrite !andb_true_iff, negb_true_iff, !N.leb_le, N.ltb_lt.
  intros [H1 H2]. split; [lia|].
  apply andb_false_iff. right. apply N.leb_gt. lia.
Qed.

Lemma is_az_plain c : is_az c = true -> is_diacritic c = false.
Proof.
  intros H. destruct (is_diacritic c) eqn:E; [|reflexivity].
  exfalso. apply is_diacritic_key in E.
  assert (K : forallb (fun k => negb (is_az k)) (map fst DIACRITIC_MAP) = true)
    by reflexivity.
  rewrite forallb_forall in K. apply K in E. now rewrite H in E.
Qed.

Lemma is_az_letter c : is_az c = true -> latin_letter c = true.
Proof. unfold latin_letter. now intros ->. Qed.

Lemma is_diacritic_letter c : is_diacritic c = true -> latin_letter c = true.
Proof.
  unfold latin_letter. rewrite accented_are_keys. intros ->.
  now rewrite orb_true_r.
Qed.

(** Lowered text without accented letters of the table still has none. *)
Lemma lower_plain t : plain t = true -> plain (lower t) = true.
Proof.
  intros H. apply forallb_forall. intros d Hd. apply negb_true_iff.
  destruct (is_diacritic d) eqn:E; [|reflexivity].
  assert (K := lower_latin t d H Hd (is_diacritic_letter d E)).
  apply is_az_plain in K. congruence.
Qed.

Lemma backtrack_bounds t n k :
  backtrack t n = Some k -> (1 <= k <= n)%nat.
Proof.
  induction n as [|n IH]; simpl; [discriminate|].
  destruct (boundary _ _).
  - intros [= <-]. lia.
  - intros H. apply IH in H. lia.
Qed.

Lemma span_letters_firstn t : forall k,
  (k <= span_letters t)%nat ->
  forallb latin_letter (firstn k t) = true /\ List.length (firstn k t) = k.
Proof.
  induction t as [|c t IH]; simpl; intros k Hk.
  - assert (k = O) by lia. subst. now simpl.
  - destruct k as [|k]; [now simpl|].
    destruct (latin_letter c) eqn:E; [|lia].
    destruct (IH k ltac:(lia)) as [H1 H2]. simpl. rewrite E, H1, H2. now split.
Qed.

Lemma match_here_bounds prev t k :
  match_here prev t = Some k -> (1 <= k <= span_letters t)%nat.
Proof.
  unfold match_here. destruct (boundary _ _); [|discriminate].
  apply backtrack_bounds.
Qed.

Lemma in_skipn {A} (x : A) n l : In x (skipn n l) -> In x l.
Proof.
  intros H. rewrite <- (firstn_skipn n l). apply in_or_app. now right.
Qed.

Lemma in_firstn {A} (x : A) n l : In x (firstn n l) -> In x l.
Proof.
  intros H. rewrite <- (firstn_skipn n l). apply in_or_app. now left.
Qed.

(** A match of the pattern is a run of class characters of the text, and
    has at least one. *)
Lemma findall_from_letters fuel : forall prev t w,
  In w (findall_from fuel prev t) ->
  w <> [] /\ forallb latin_letter w = true /\ incl w t.
Proof.
  induction fuel as [|fuel IH]; simpl; intros prev t w H; [contradiction|].
  destruct t as [|c t]; [contradiction|].
  destruct (match_here prev (c :: t)) as [k|] eqn:E.
  - destruct H as [<-|H].
    + apply match_here_bounds in E.
      destruct (span_letters_firstn (c :: t) k ltac:(lia)) as [H1 H2].
      repeat split.
      * intros K. rewrite K in H2. simpl in H2. lia.
      * assumption.
      * intros x. apply in_firstn.
    + apply IH in H. destruct H as (H1 & H2 & H3). repeat split; try assumption.
      intros x Hx. apply H3 in Hx. now apply in_skipn in Hx.
  - apply IH in H. destruct H as (H1 & H2 & H3). repeat split; try assumption.
    intros x Hx. right. now apply H3.
Qed.

(** More fuel than the text is long changes nothing. *)
Lemma findall_from_fuel fuel : forall fuel' prev t,
  (List.length t <= fuel)%nat -> (List.length t <= fuel')%nat ->
  findall_from fuel prev t = findall_from fuel' prev t.
Proof.
  induction fuel as [|fuel IH]; intros fuel' prev t H H'.
  - destruct t; [|simpl in H; lia]. now destruct fuel'.
  - destruct t as [|c t]; [now destruct fuel'|].
    destruct fuel' as [|fuel']; simpl in H, H'; [lia|]. simpl.
    destruct (match_here prev (c :: t)) as [k|] eqn:E.
    + apply match_here_bounds in E. destruct k as [|k]; [lia|].
      f_equal. simpl.
      assert (L : (List.length (skipn k t) <= List.length t)%nat)
        by (rewrite length_skipn; lia).
      apply IH; lia.
    + apply IH; lia.
Qed.

Lemma forallb_az_uncased w :
  forallb is_az w = true -> forallb ascii_uncased w = true.
Proof.
  rewrite !forallb_forall. intros H c Hc. apply is_az_uncased. now apply H.
Qed.

Lemma forallb_az_plain w : forallb is_az w = true -> plain w = true.
Proof.
  unfold plain. rewrite !forallb_forall. intros H c Hc.
  apply negb_true_iff, is_az_plain. now apply H.
Qed.

(** The tokens of the normalizing mode are runs of a to z. *)
Lemma tokenize_normalized text :
  Forall normalized (tokenize text true).
Proof.
  unfold tokenize, findall. apply Forall_forall. intros w Hw.
  apply in_map_iff in Hw. destruct Hw as (w0 & <- & Hw).
  apply findall_from_letters in Hw. destruct Hw as (Hne & Hl & Hin).
  assert (Haz : forallb is_az w0 = true).
  { apply forallb_forall. intros c Hc.
    rewrite forallb_forall in Hl.
    apply (lower_latin (normalize_diacritics text) c).
    - apply normalize_diacritics_plain.
    - now apply Hin.
    - now apply Hl. }
  rewrite (lower_uncased w0 (forallb_az_uncased _ Haz)). now split.
Qed.

Lemma word_char_az c : is_az c = true -> word_char c = true.
Proof. intros H. unfold word_char. now rewrite (alnum_az c H). Qed.

Lemma word_char_space : word_char 32 = false.
Proof. unfold word_char. now rewrite alnum_space. Qed.

Lemma ends_word_side rest : ends_word rest -> word_side (hd_error rest) = false.
Proof. intros [->|[r ->]]; simpl; [reflexivity|apply word_char_space]. Qed.

Lemma ends_word_span rest : ends_word rest -> span_letters rest = O.
Proof. intros [->|[r ->]]; reflexivity. Qed.

Lemma span_letters_word w rest :
  forallb is_az w = true -> ends_word rest ->
  span_letters (w ++ rest) = List.length w.
Proof.
  intros Hw Hr. induction w as [|c w IH]; simpl.
  - now apply ends_word_span.
  - simpl in Hw. apply andb_true_iff in Hw. destruct Hw as [Hc Hw].
    rewrite (is_az_letter c Hc). f_equal. now apply IH.
Qed.

Lemma nth_error_hd {A} (l : list A) : nth_error l 0 = hd_error l.
Proof. now destruct l. Qed.

Lemma match_here_word prev w rest :
  normalized w -> word_side prev = false -> ends_word rest ->
  match_here prev (w ++ rest) = Some (List.length w)
  /\ exists c, nth_error (w ++ rest) (Nat.pred (List.length w)) = Some c
               /\ word_char c = true.
Proof.
  intros [Hne Haz] Hp Hr.
  assert (Hall : forall c, In c w -> word_char c = true).
  { intros c Hc. apply word_char_az. rewrite forallb_forall in Haz.
    now apply Haz. }
  destruct w as [|c0 w]; [contradiction|].
  assert (Hlast : exists c, nth_error ((c0 :: w) ++ rest) (List.length w)
                            = Some c /\ word_char c = true).
  { destruct (nth_error (c0 :: w) (List.length w)) as [c|] eqn:E.
    - exists c. split.
      + rewrite nth_error_app1 by (simpl; lia). exact E.
      + apply Hall. eapply nth_error_In. exact E.
    - apply nth_error_None in E. simpl in E. lia. }
  split; [|exact Hlast].
  unfold match_here, boundary. simpl hd_error. simpl word_side at 2.
  rewrite Hp, (Hall c0 (or_introl eq_refl)). simpl xorb.
  rewrite (span_letters_word (c0 :: w) rest Haz Hr).
  change (List.length (c0 :: w)) with (S (List.length w)).
  change (backtrack ((c0 :: w) ++ rest) (S (List.length w)))
    with (if boundary (nth_error ((c0 :: w) ++ rest) (List.length w))
                      (nth_error ((c0 :: w) ++ rest) (S (List.length w)))
          then Some (S (List.length w))
          else backtrack ((c0 :: w) ++ rest) (List.length w)).
  destruct Hlast as (c & -> & Hc). unfold boundary. simpl word_side at 1.
  rewrite Hc.
  rewrite nth_error_app2 by (simpl; lia).
  replace (S (List.length w) - List.length (c0 :: w))%nat with O
    by (simpl; lia).
  rewrite nth_error_hd, (ends_word_side rest Hr). reflexivity.
Qed.

Lemma findall_from_word fuel prev w rest :
  normalized w -> word_side prev = false -> ends_word rest ->
  (List.length (w ++ rest) <= fuel)%nat ->
  exists c, word_char c = true /\
    findall_from fuel prev (w ++ rest)
    = w :: findall_from (List.length rest) (Some c) rest.
Proof.
  intros Hw Hp Hr Hf.
  destruct (match_here_word prev w rest Hw Hp Hr) as (Hm & c & Hc & Hwc).
  exists c. split; [assumption|].
  destruct Hw as [Hne Haz].
  destruct fuel as [|fuel].
  { destruct w; [contradiction|simpl in Hf; lia]. }
  destruct (w ++ rest) as [|c0 t] eqn:E.
  { destruct w; [contradiction|discriminate]. }
  simpl. rewrite Hm, Hc. rewrite <- E.
  rewrite firstn_app, firstn_all, Nat.sub_diag, app_nil_r.
  rewrite skipn_app, skipn_all, Nat.sub_diag. simpl.
  f_equal. apply findall_from_fuel; [|lia].
  rewrite <- E, length_app in Hf. simpl in Hf.
  destruct w; [contradiction|]. simpl in Hf. lia.
Qed.

Lemma findall_from_sep fuel (c : char) (rest : str) :
  word_char c = true -> (S (List.length rest) <= fuel)%nat ->
  findall_from fuel (Some c) (32 :: rest)
  = findall_from (List.length rest) (Some 32) rest.
Proof.
  intros Hc Hf. destruct fuel as [|fuel]; [lia|]. simpl.
  unfold match_here. simpl.
  destruct (boundary _ _); apply findall_from_fuel; lia.
Qed.

Lemma findall_from_unwords ws : forall fuel prev,
  Forall normalized ws -> word_side prev = false ->
  (List.length (unwords ws) <= fuel)%nat ->
  findall_from fuel prev (unwords ws) = ws.
Proof.
  induction ws as [|w ws IH]; intros fuel prev Hws Hp Hf.
  - simpl. now destruct fuel.
  - inversion Hws as [|? ? Hw Hws']; subst.
    destruct ws as [|w2 ws].
    + simpl unwords in *. rewrite <- (app_nil_r w) in Hf |- * at 1.
      destruct (findall_from_word fuel prev w [] Hw Hp (or_introl eq_refl) Hf)
        as (c & _ & ->).
      reflexivity.
    + change (unwords (w :: w2 :: ws)) with (w ++ 32 :: unwords (w2 :: ws))
        in *.
      destruct (findall_from_word fuel prev w (32 :: unwords (w2 :: ws)) Hw Hp
                  (or_intror (ex_intro _ _ eq_refl)) Hf) as (c & Hc & ->).
      f_equal. rewrite findall_from_sep by (simpl; auto; lia).
      apply IH; [assumption|apply word_char_space|lia].
Qed.

Lemma unwords_uncased ws :
  Forall normalized ws -> forallb ascii_uncased (unwords ws) = true.
Proof.
  induction ws as [|w ws IH]; intros H; [reflexivity|].
  inversion H as [|? ? [_ Hw] Hws]; subst.
  destruct ws as [|w2 ws].
  - simpl. now apply forallb_az_uncased.
  - change (unwords (w :: w2 :: ws)) with (w ++ 32 :: unwords (w2 :: ws)).
    rewrite forallb_app. rewrite (forallb_az_uncased _ Hw). simpl.
    now apply IH.
Qed.

Lemma uncased_plain t : forallb ascii_uncased t = true -> plain t = true.
Proof.
  unfold plain. rewrite !forallb_forall. intros H c Hc.
  specialize (H c Hc). apply negb_true_iff.
  destruct (is_diacritic c) eqn:E; [|reflexivity].
  apply is_diacritic_key in E.
  assert (K : forallb (fun k => 128 <=? k) (map fst DIACRITIC_MAP) = true)
    by reflexivity.
  rewrite forallb_forall in K. apply K in E.
  unfold ascii_uncased in H. apply andb_true_iff in H. destruct H as [H _].
  apply N.ltb_lt in H. apply N.leb_le in E. lia.
Qed.

Lemma map_lower_normalized ws :
  Forall normalized ws -> map lower ws = ws.
Proof.
  induction 1 as [|w ws [_ Hw] _ IH]; simpl; [reflexivity|].
  now rewrite IH, (lower_uncased w (forallb_az_uncased _ Hw)).
Qed.

Lemma tokenize_unwords ws :
  Forall normalized ws -> tokenize (unwords ws) true = ws.
Proof.
  intros H. unfold tokenize, findall.
  assert (U := unwords_uncased ws H).
  rewrite (normalize_diacritics_id _ (uncased_plain _ U)).
  rewrite (lower_uncased _ U).
  rewrite (findall_from_unwords ws _ None H eq_refl (le_n _)).
  now apply map_lower_normalized.
Qed.

End WithPy.
End TokenizerFacts.

(** ** Snippets *)

Module SnippetFacts.
Import TextExtractor Analyzer.
Local Open Scope Z_scope.

Section WithPy.
Context {py : PyText}.

(** What the loop returns is what it had, then snippets of matches. *)
Lemma snippets_loop_in text cc max ms : forall acc s,
  In s (snippets_loop text cc max ms acc) ->
  In s acc \/ exists m, In m ms /\ s = snippet_of text cc m.
Proof.
  induction ms as [|m ms IH]; simpl; intros acc s H; [now left|].
  destruct (max <=? len (acc ++ [snippet_of text cc m])).
  - apply in_app_or in H. destruct H as [H|[<-|[]]]; [now left|].
    right. exists m. split; [now left|reflexivity].
  - apply IH in H. destruct H as [H|(m' & Hm & ->)].
    + apply in_app_or in H. destruct H as [H|[<-|[]]]; [now left|].
      right. exists m. split; [now left|reflexivity].
    + right. exists m'. split; [now right|reflexivity].
Qed.

Lemma len_app {A} (l : list A) x : len (l ++ [x]) = len l + 1.
Proof. unfold len. rewrite length_app. simpl. lia. Qed.

(** Entered with room for one more, the loop never outgrows the cap. *)
Lemma snippets_loop_bound text cc max ms : forall acc,
  len acc < max -> len (snippets_loop text cc max ms acc) <= max.
Proof.
  induction ms as [|m ms IH]; simpl; intros acc H; [lia|].
  destruct (Z.leb_spec max (len (acc ++ [snippet_of text cc m]))) as [L|L].
  - rewrite len_app in *. lia.
  - apply IH. exact L.
Qed.

Lemma extract_snippets_bound text word cc max :
  1 <= max -> len (extract_snippets text word cc max) <= max.
Proof.
  intros H. unfold extract_snippets. apply snippets_loop_bound.
  unfold len. simpl. lia.
Qed.

(** With a cap of zero or less the first match is kept all the same. *)
Lemma extract_snippets_uncapped text word cc max m ms :
  max <= 0 -> finditer word text = m :: ms ->
  extract_snippets text word cc max = [snippet_of text cc m].
Proof.
  intros H E. unfold extract_snippets. rewrite E. simpl.
  destruct (Z.leb_spec max (len [snippet_of text cc m])) as [L|L];
    [reflexivity|].
  unfold len in L. simpl in L. lia.
Qed.

Definition window_start (cc : Z) (m : nat * nat) : Z :=
  Z.max 0 (Z.of_nat (fst m) - cc).
Definition window_end (text : str) (cc : Z) (m : nat * nat) : Z :=
  Z.min (len text) (Z.of_nat (snd m) + cc).

Lemma snippet_of_context text cc m :
  context (snippet_of text cc m)
  = (if window_start cc m =? 0 then [] else ellipsis)
      ++ slice text (window_start cc m) (window_end text cc m)
      ++ (if window_end text cc m =? len text then [] else ellipsis).
Proof.
  unfold snippet_of, window_start, window_end. simpl.
  set (a := Z.max 0 (Z.of_nat (fst m) - cc)).
  set (b := Z.min (len text) (Z.of_nat (snd m) + cc)).
  assert (Ha : 0 <= a) by (unfold a; lia).
  assert (Hb : b <= len text) by (unfold b; lia).
  destruct (Z.ltb_spec b (len text)), (Z.eqb_spec b (len text)); try lia;
  destruct (Z.ltb_spec 0 a), (Z.eqb_spec a 0); try lia;
  rewrite ?app_nil_r, <- ?app_assoc; reflexivity.
Qed.

End WithPy.
End SnippetFacts.

(** ** Dictionaries *)

Module DictFacts.
Import Dict.

Section Generic.
Context {V : Type}.
Implicit Types (d : dict V) (k : str) (v : V).

Lemma get_set_same k v d : get k (set k v d) = Some v.
Proof.
  induction d as [|[k' v'] d IH]; simpl.
  - now rewrite str_eqb_refl.
  - destruct (str_eqb k' k) eqn:E; simpl; rewrite E; [reflexivity|exact IH].
Qed.

Lemma get_set_other k k' v d : k <> k' -> get k' (set k v d) = get k' d.
Proof.
  intros Hne. induction d as [|[k0 v0] d IH]; simpl.
  - apply str_eqb_neq in Hne. now rewrite Hne.
  - destruct (str_eqb k0 k) eqn:E; simpl.
    + apply str_eqb_eq in E. subst k0.
      apply str_eqb_neq in Hne. now rewrite Hne.
    + now rewrite IH.
Qed.

Lemma get_in_keys k d : get k d <> None <-> In k (keys d).
Proof.
  induction d as [|[k0 v0] d IH]; simpl;
    [split; [congruence|contradiction]|].
  destruct (str_eqb k0 k) eqn:E.
  - apply str_eqb_eq in E. subst. split; [now left|discriminate].
  - apply str_eqb_neq in E. rewrite IH. split; [now right|].
    intros [K|K]; [contradiction|assumption].
Qed.

Lemma get_none_keys k d : get k d = None <-> ~ In k (keys d).
Proof.
  rewrite <- get_in_keys. destruct (get k d); intuition congruence.
Qed.

Lemma get_in k v d : get k d = Some v -> In (k, v) d.
Proof.
  induction d as [|[k0 v0] d IH]; simpl; [discriminate|].
  destruct (str_eqb k0 k) eqn:E.
  - apply str_eqb_eq in E. subst. intros [= ->]. now left.
  - intros H. right. now apply IH.
Qed.

Lemma in_get k v d : NoDup (keys d) -> In (k, v) d -> get k d = Some v.
Proof.
  induction d as [|[k0 v0] d IH]; simpl; [contradiction|].
  intros Hnd H. inversion Hnd as [|? ? Hk0 Hnd']; subst.
  destruct H as [[= -> ->]|H].
  - now rewrite str_eqb_refl.
  - destruct (str_eqb k0 k) eqn:E; [|now apply IH].
    apply str_eqb_eq in E. subst. exfalso. apply Hk0.
    change k with (fst (k, v)). now apply in_map.
Qed.

(** A new key goes last; a key already there keeps its place. *)
Lemma set_absent k v d : ~ In k (keys d) -> set k v d = d ++ [(k, v)].
Proof.
  induction d as [|[k0 v0] d IH]; simpl; intros H; [reflexivity|].
  destruct (str_eqb k0 k) eqn:E.
  - apply str_eqb_eq in E. subst. exfalso. apply H. now left.
  - f_equal. apply IH. intros K. apply H. now right.
Qed.

Lemma keys_set_present k v d : In k (keys d) -> keys (set k v d) = keys d.
Proof.
  induction d as [|[k0 v0] d IH]; simpl; [contradiction|].
  destruct (str_eqb k0 k) eqn:E; simpl; [reflexivity|].
  intros [K|K]; [apply str_eqb_neq in E; contradiction|].
  f_equal. now apply IH.
Qed.

Lemma keys_set k v d :
  keys (set k v d) = if mem k d then keys d else keys d ++ [k].
Proof.
  unfold mem. destruct (get k d) eqn:E.
  - apply keys_set_present. apply get_in_keys. congruence.
  - apply get_none_keys in E. rewrite (set_absent k v d E).
    unfold keys. rewrite map_app. reflexivity.
Qed.

Lemma NoDup_keys_set k v d : NoDup (keys d) -> NoDup (keys (set k v d)).
Proof.
  intros H. rewrite keys_set. unfold mem. destruct (get k d) eqn:E; [exact H|].
  apply get_none_keys in E.
  apply NoDup_app; [exact H|repeat constructor; intros []|].
  intros x Hx [<-|[]]. contradiction.
Qed.

Lemma mem_true k d : mem k d = true <-> In k (keys d).
Proof.
  unfold mem. rewrite <- get_in_keys. destruct (get k d); split; congruence.
Qed.

End Generic.
End DictFacts.

(** ** Counting *)

Module CountFacts.
Import TextExtractor Analyzer DictFacts.
Local Open Scope Z_scope.

(** How often [w] is among [ws]. *)
Definition count_word (w : str) (ws : list str) : Z :=
  len (filter (str_eqb w) ws).

Definition or_zero (o : option Z) : Z :=
  match o with Some n => n | None => 0 end.

Lemma fold_add l : forall a, fold_left Z.add l a = a + sum l.
Proof.
  unfold sum. induction l as [|x l IH]; simpl; intros a; [lia|].
  rewrite (IH (a + x)), (IH x). lia.
Qed.

Lemma sum_cons x l : sum (x :: l) = x + sum l.
Proof. unfold sum at 1. simpl. now rewrite fold_add. Qed.

Lemma sum_app l l' : sum (l ++ l') = sum l + sum l'.
Proof.
  induction l as [|x l IH]; simpl; [reflexivity|].
  rewrite !sum_cons, IH. lia.
Qed.

Lemma sum_nil : sum [] = 0.
Proof. reflexivity. Qed.

Lemma len_cons {A} (x : A) l : len (x :: l) = 1 + len l.
Proof. unfold len. simpl List.length. lia. Qed.

Lemma len_nonneg {A} (l : list A) : 0 <= len l.
Proof. unfold len. lia. Qed.

Lemma count_word_nonneg w ws : 0 <= count_word w ws.
Proof. apply len_nonneg. Qed.

Lemma count_word_cons w x ws :
  count_word w (x :: ws)
  = (if str_eqb w x then 1 else 0) + count_word w ws.
Proof.
  unfold count_word. simpl. destruct (str_eqb w x);
    [now rewrite len_cons|lia].
Qed.

Lemma sum_values_set k v (d : Dict.dict Z) :
  sum (Dict.values (Dict.set k v d))
  = sum (Dict.values d) + v - or_zero (Dict.get k d).
Proof.
  unfold Dict.values.
  induction d as [|[k0 v0] d IH]; cbn [Dict.set Dict.get map snd or_zero].
  - rewrite sum_cons, sum_nil. lia.
  - destruct (str_eqb k0 k); cbn [map snd or_zero]; rewrite !sum_cons; [lia|].
    rewrite IH. lia.
Qed.

Definition count_step (c : Dict.dict Z) (w : str) : Dict.dict Z :=
  Dict.set w (or_zero (Dict.get w c) + 1) c.

Lemma Counter_fold ws : Counter ws = fold_left count_step ws [].
Proof. reflexivity. Qed.

Lemma get_count_fold w ws : forall c,
  Dict.get w (fold_left count_step ws c)
  = if count_word w ws =? 0 then Dict.get w c
    else Some (or_zero (Dict.get w c) + count_word w ws).
Proof.
  induction ws as [|x ws IH]; intros c; [reflexivity|].
  simpl fold_left. rewrite IH, count_word_cons.
  pose proof (count_word_nonneg w ws) as Hn. unfold count_step.
  destruct (str_eqb w x) eqn:E.
  - apply str_eqb_eq in E. subst x. rewrite get_set_same. simpl or_zero.
    destruct (Z.eqb_spec (count_word w ws) 0) as [Hz|Hne];
      destruct (Z.eqb_spec (1 + count_word w ws) 0); try lia;
      f_equal; lia.
  - apply str_eqb_neq in E. rewrite get_set_other by congruence.
    simpl. reflexivity.
Qed.

(** A word is a key of the counter when it occurs, with its count. *)
Lemma get_Counter w ws :
  Dict.get w (Counter ws)
  = if count_word w ws =? 0 then None else Some (count_word w ws).
Proof. rewrite Counter_fold, get_count_fold. reflexivity. Qed.

Lemma NoDup_count_fold ws : forall c,
  NoDup (Dict.keys c) -> NoDup (Dict.keys (fold_left count_step ws c)).
Proof.
  induction ws as [|x ws IH]; intros c H; [exact H|].
  simpl. apply IH. now apply NoDup_keys_set.
Qed.

Lemma NoDup_Counter ws : NoDup (Dict.keys (Counter ws)).
Proof. apply NoDup_count_fold. constructor. Qed.

Lemma sum_count_fold ws : forall c,
  sum (Dict.values (fold_left count_step ws c))
  = sum (Dict.values c) + len ws.
Proof.
  induction ws as [|x ws IH]; intros c.
  - unfold len. simpl. lia.
  - simpl fold_left. rewrite IH, len_cons. unfold count_step.
    rewrite sum_values_set. lia.
Qed.

(** The counts add up to the number of tokens. *)
Lemma sum_Counter ws : sum (Dict.values (Counter ws)) = len ws.
Proof. rewrite Counter_fold, sum_count_fold. reflexivity. Qed.

Lemma in_Counter w c ws :
  In (w, c) (Counter ws) <-> c = count_word w ws /\ 0 < c.
Proof.
  pose proof (count_word_nonneg w ws) as Hn. split.
  - intros H. apply (in_get _ _ _ (NoDup_Counter ws)) in H.
    rewrite get_Counter in H.
    destruct (Z.eqb_spec (count_word w ws) 0); [discriminate|].
    injection H as <-. lia.
  - intros [-> H]. apply get_in. rewrite get_Counter.
    destruct (Z.eqb_spec (count_word w ws) 0); [lia|reflexivity].
Qed.

End CountFacts.

(** ** The first loop: gathering *)

Module GatherFacts.
Import TextExtractor Downloader Analyzer DictFacts CountFacts.
Local Open Scope Z_scope.

Definition or_empty {V} (o : option (Dict.dict V)) : Dict.dict V :=
  match o with Some d => d | None => [] end.

(** The entries of [w] in the counters of the books [l], book by book. *)
Definition column (w : str) (l : list (str * Dict.dict Z)) : Dict.dict Z :=
  flat_map (fun e => match Dict.get w (snd e) with
                     | Some c => [(fst e, c)]
                     | None => []
                     end) l.

Definition aggregate_book (af : Dict.dict (Dict.dict Z))
    (e : str * Dict.dict Z) : Dict.dict (Dict.dict Z) :=
  fold_left (aggregate (fst e)) (snd e) af.

Lemma get_aggregate b w c af w' :
  Dict.get w' (aggregate b af (w, c))
  = if str_eqb w w' then Some (Dict.set b c (or_empty (Dict.get w af)))
    else Dict.get w' af.
Proof.
  unfold aggregate, Dict.mem.
  destruct (Dict.get w af) as [bc|] eqn:E.
  - rewrite E. simpl or_empty. destruct (str_eqb w w') eqn:Ew.
    + apply str_eqb_eq in Ew. subst. apply get_set_same.
    + apply str_eqb_neq in Ew. now apply get_set_other.
  - rewrite get_set_same. simpl or_empty. destruct (str_eqb w w') eqn:Ew.
    + apply str_eqb_eq in Ew. subst. apply get_set_same.
    + apply str_eqb_neq in Ew. now rewrite !get_set_other.
Qed.

Lemma NoDup_keys_aggregate b af item :
  NoDup (Dict.keys af) -> NoDup (Dict.keys (aggregate b af item)).
Proof.
  destruct item as [w c]. unfold aggregate. intros H.
  destruct (Dict.mem w af).
  - destruct (Dict.get w af); [now apply NoDup_keys_set|exact H].
  - rewrite get_set_same. now apply NoDup_keys_set, NoDup_keys_set.
Qed.

Lemma NoDup_keys_aggregate_book e af :
  NoDup (Dict.keys af) -> NoDup (Dict.keys (aggregate_book af e)).
Proof.
  unfold aggregate_book. generalize (snd e) as items. intros items.
  revert af. induction items as [|i items IH]; intros af H; [exact H|].
  simpl. apply IH. now apply NoDup_keys_aggregate.
Qed.

Lemma get_aggregate_items b w' : forall items af,
  NoDup (Dict.keys items) ->
  Dict.get w' (fold_left (aggregate b) items af)
  = match Dict.get w' items with
    | Some c => Some (Dict.set b c (or_empty (Dict.get w' af)))
    | None => Dict.get w' af
    end.
Proof.
  induction items as [|[w c] items IH]; intros af H; [reflexivity|].
  inversion H as [|? ? Hw Hnd]; subst.
  cbn [fold_left]. rewrite (IH _ Hnd).
  change (Dict.get w' ((w, c) :: items))
    with (if str_eqb w w' then Some c else Dict.get w' items).
  rewrite !get_aggregate.
  destruct (str_eqb w w') eqn:E; [|reflexivity].
  apply str_eqb_eq in E. subst w'.
  apply get_none_keys in Hw. now rewrite Hw.
Qed.

Lemma keys_column w l : incl (Dict.keys (column w l)) (map fst l).
Proof.
  induction l as [|e l IH]; simpl; [easy|].
  unfold Dict.keys in *. rewrite map_app. intros x Hx.
  apply in_app_or in Hx. destruct Hx as [Hx|Hx].
  - destruct (Dict.get w (snd e)); [|contradiction].
    destruct Hx as [<-|[]]. now left.
  - right. now apply IH.
Qed.

(** After the books [l], a word has the column of its counts, or no
    entry when no book has it. *)
Lemma get_aggregate_books w : forall l af,
  NoDup (map fst l) ->
  Forall (fun e => NoDup (Dict.keys (snd e))) l ->
  (forall b, In b (Dict.keys (or_empty (Dict.get w af))) ->
             ~ In b (map fst l)) ->
  Dict.get w (fold_left aggregate_book l af)
  = match column w l with
    | [] => Dict.get w af
    | _ :: _ => Some (or_empty (Dict.get w af) ++ column w l)
    end.
Proof.
  induction l as [|[b f] l IH]; intros af Hnd Hf Hfresh; [reflexivity|].
  inversion Hnd as [|? ? Hb Hnd']; subst.
  inversion Hf as [|? ? Hfb Hf']; subst. simpl in Hfb.
  simpl fold_left. rewrite (IH _ Hnd' Hf').
  - unfold aggregate_book at 1 2. simpl fst. simpl snd.
    rewrite (get_aggregate_items b w f af Hfb).
    cbn [column flat_map snd fst].
    destruct (Dict.get w f) as [c|]; [|reflexivity].
    cbn [or_empty app].
    rewrite set_absent by (intros K; apply (Hfresh b K); now left).
    fold (column w l).
    destruct (column w l); [reflexivity|].
    now rewrite <- app_assoc.
  - unfold aggregate_book. simpl fst. simpl snd.
    rewrite (get_aggregate_items b w f af Hfb).
    intros x Hx K.
    destruct (Dict.get w f) as [c|].
    + cbn [or_empty] in Hx.
      rewrite set_absent in Hx by (intros K'; apply (Hfresh b K'); now left).
      unfold Dict.keys in Hx. rewrite map_app in Hx.
      apply in_app_or in Hx. destruct Hx as [Hx|[<-|[]]].
      * apply (Hfresh x Hx). now right.
      * contradiction.
    + apply (Hfresh x Hx). now right.
Qed.

Lemma NoDup_keys_aggregate_books : forall l af,
  NoDup (Dict.keys af) -> NoDup (Dict.keys (fold_left aggregate_book l af)).
Proof.
  induction l as [|e l IH]; intros af H; [exact H|].
  simpl. apply IH. now apply NoDup_keys_aggregate_book.
Qed.

Lemma fold_set_fresh {A V} (key : A -> str) (val : A -> V) l : forall d,
  NoDup (Dict.keys d ++ map key l) ->
  fold_left (fun d m => Dict.set (key m) (val m) d) l d
  = d ++ map (fun m => (key m, val m)) l.
Proof.
  induction l as [|m l IH]; intros d H; simpl; [now rewrite app_nil_r|].
  assert (Hm : ~ In (key m) (Dict.keys d)).
  { intros K. apply NoDup_remove_2 in H. apply H. apply in_or_app. now left. }
  rewrite (set_absent _ _ _ Hm), IH.
  - now rewrite <- app_assoc.
  - unfold Dict.keys in *. rewrite map_app, <- app_assoc. exact H.
Qed.

Section Gather.
Context {py : PyText}.
Variable texts : str -> option str.

Definition has_text (m : BookMeta) : bool :=
  match texts (book_id m) with Some _ => true | None => false end.

(** The books whose text file is there, in corpus order. *)
Definition loaded (metas : list BookMeta) : list BookMeta :=
  filter has_text metas.

Definition text_of (m : BookMeta) : str :=
  match texts (book_id m) with Some t => t | None => [] end.

Definition tokens_of (m : BookMeta) : list str := tokenize (text_of m) true.

Definition counted (m : BookMeta) : str * Dict.dict Z :=
  (book_id m, Counter (tokens_of m)).

Definition book_row (m : BookMeta) : BookRow :=
  {| b_book_id := book_id m;
     b_title := title m;
     b_sequence_index := sequence_index m;
     b_total_words := len (tokens_of m);
     b_unique_words := len (Counter (tokens_of m)) |}.

Lemma gather_fold metas : forall g out,
  fold_left (gather_book texts) metas (g, out)
  = ({| all_frequencies :=
          fold_left aggregate_book (map counted (loaded metas))
                    (all_frequencies g);
        book_totals :=
          fold_left (fun d m => Dict.set (book_id m) (len (tokens_of m)) d)
                    (loaded metas) (book_totals g);
        book_texts :=
          fold_left (fun d m => Dict.set (book_id m) (text_of m) d)
                    (loaded metas) (book_texts g) |},
     out ++ map (fun m => InsertBook (book_row m)) (loaded metas)).
Proof.
  induction metas as [|m metas IH]; intros g out.
  - simpl. rewrite app_nil_r. now destruct g.
  - cbn [fold_left]. unfold loaded. cbn [filter].
    unfold gather_book at 2, load_text, has_text.
    destruct (texts (book_id m)) as [text|] eqn:E.
    + rewrite IH. cbn [all_frequencies book_totals book_texts map fold_left].
      unfold calculate_frequencies.
      assert (Et : tokenize text true = tokens_of m).
      { unfold tokens_of, text_of. now rewrite E. }
      assert (Ex : text = text_of m) by (unfold text_of; now rewrite E).
      rewrite Et, sum_Counter, <- Ex, <- app_assoc.
      reflexivity.
    + apply IH.
Qed.

Lemma incl_loaded metas : incl (loaded metas) metas.
Proof. intros m H. now apply filter_In in H. Qed.

Lemma NoDup_map_filter {A B} (f : A -> B) p l :
  NoDup (map f l) -> NoDup (map f (filter p l)).
Proof.
  induction l as [|x l IH]; simpl; intros H; [constructor|].
  inversion H as [|? ? Hx Hl]; subst.
  destruct (p x); [|now apply IH]. simpl. constructor; [|now apply IH].
  intros K. apply Hx. apply in_map_iff in K. destruct K as (y & E & Hy).
  apply filter_In in Hy. apply in_map_iff. exists y. tauto.
Qed.

Variable metas : list BookMeta.
Hypothesis ids_distinct : NoDup (map book_id metas).

Lemma gathered_books :
  snd (gathered texts metas)
  = map (fun m => InsertBook (book_row m)) (loaded metas).
Proof. unfold gathered. now rewrite gather_fold. Qed.

Lemma gathered_totals :
  book_totals (fst (gathered texts metas))
  = map (fun m => (book_id m, len (tokens_of m))) (loaded metas).
Proof.
  unfold gathered. rewrite gather_fold. cbn [fst book_totals].
  rewrite fold_set_fresh; [reflexivity|].
  simpl. now apply NoDup_map_filter.
Qed.

Lemma gathered_texts :
  book_texts (fst (gathered texts metas))
  = map (fun m => (book_id m, text_of m)) (loaded metas).
Proof.
  unfold gathered. rewrite gather_fold. cbn [fst book_texts].
  rewrite fold_set_fresh; [reflexivity|].
  simpl. now apply NoDup_map_filter.
Qed.

Lemma gathered_frequencies :
  all_frequencies (fst (gathered texts metas))
  = fold_left aggregate_book (map counted (loaded metas)) [].
Proof. unfold gathered. now rewrite gather_fold. Qed.

Lemma map_fst_counted l : map fst (map counted l) = map book_id l.
Proof. rewrite map_map. reflexivity. Qed.

(** The entry of a word after the loop: its column over the loaded
    books, when that is not empty. *)
Lemma gathered_get w :
  Dict.get w (all_frequencies (fst (gathered texts metas)))
  = match column w (map counted (loaded metas)) with
    | [] => None
    | col => Some col
    end.
Proof.
  rewrite gathered_frequencies, get_aggregate_books.
  - simpl. now destruct (column w _).
  - rewrite map_fst_counted. now apply NoDup_map_filter.
  - apply Forall_forall. intros e He. apply in_map_iff in He.
    destruct He as (m & <- & _). apply NoDup_Counter.
  - intros b [].
Qed.

Lemma gathered_NoDup :
  NoDup (Dict.keys (all_frequencies (fst (gathered texts metas)))).
Proof.
  rewrite gathered_frequencies. apply NoDup_keys_aggregate_books. constructor.
Qed.

Lemma book_id_to_metadata_get m :
  In m metas -> Dict.get (book_id m) (book_id_to_metadata metas) = Some m.
Proof.
  intros H. unfold book_id_to_metadata.
  rewrite (fold_set_fresh book_id (fun m => m)) by (simpl; exact ids_distinct).
  simpl. apply in_get.
  - unfold Dict.keys. rewrite map_map. simpl. exact ids_distinct.
  - apply in_map_iff. now exists m.
Qed.

(** The column of a word, from the token counts. *)
Lemma column_counted w l :
  column w (map counted l)
  = flat_map (fun m => if count_word w (tokens_of m) =? 0 then []
                       else [(book_id m, count_word w (tokens_of m))]) l.
Proof.
  induction l as [|m l IH]; [reflexivity|].
  cbn [map column flat_map]. fold (column w (map counted l)). rewrite IH.
  unfold counted at 1. cbn [fst snd]. rewrite get_Counter.
  now destruct (count_word w (tokens_of m) =? 0).
Qed.

Definition total_occurrences (w : str) (l : list BookMeta) : Z :=
  sum (map (fun m => count_word w (tokens_of m)) l).

Definition weighted_occurrences (w : str) (l : list BookMeta) : Z :=
  sum (map (fun m => sequence_index m * count_word w (tokens_of m)) l).

Lemma sum_column w l :
  sum (Dict.values (column w (map counted l))) = total_occurrences w l.
Proof.
  rewrite column_counted. unfold total_occurrences, Dict.values.
  induction l as [|m l IH]; [reflexivity|].
  cbn [flat_map map]. rewrite map_app, sum_app, sum_cons, IH.
  destruct (Z.eqb_spec (count_word w (tokens_of m)) 0) as [E|E].
  - rewrite E. reflexivity.
  - cbn [map snd]. rewrite sum_cons, sum_nil. lia.
Qed.

Lemma weighted_sum_fold by_id bc : forall a,
  fold_left
    (fun weighted_sum (item : str * Z) =>
       let '(book_id, count) := item in
       match Dict.get book_id by_id with
       | Some meta => weighted_sum + sequence_index meta * count
       | None => weighted_sum
       end) bc a
  = a + weighted_sum_of by_id bc.
Proof.
  unfold weighted_sum_of. induction bc as [|[b c] bc IH]; intros a.
  - simpl. lia.
  - cbn [fold_left]. rewrite IH. symmetry. rewrite IH.
    destruct (Dict.get b by_id); lia.
Qed.

Lemma weighted_sum_cons by_id b c bc :
  weighted_sum_of by_id ((b, c) :: bc)
  = match Dict.get b by_id with
    | Some meta => sequence_index meta * c
    | None => 0
    end + weighted_sum_of by_id bc.
Proof.
  unfold weighted_sum_of at 1. cbn [fold_left]. rewrite weighted_sum_fold.
  destruct (Dict.get b by_id); lia.
Qed.

Lemma weighted_sum_column w l :
  incl l metas ->
  weighted_sum_of (book_id_to_metadata metas) (column w (map counted l))
  = weighted_occurrences w l.
Proof.
  rewrite column_counted. unfold weighted_occurrences.
  induction l as [|m l IH]; intros Hl; [reflexivity|].
  cbn [flat_map map]. rewrite sum_cons.
  assert (Hm : In m metas) by (apply Hl; now left).
  assert (Hl' : incl l metas) by (intros x Hx; apply Hl; now right).
  destruct (Z.eqb_spec (count_word w (tokens_of m)) 0) as [E|E].
  - rewrite E. cbn [app]. rewrite (IH Hl'). lia.
  - cbn [app]. rewrite weighted_sum_cons, (book_id_to_metadata_get m Hm).
    now rewrite (IH Hl').
Qed.

End Gather.

(** ** The second loop: statistics *)

Section Stats.
Variable by_id : Dict.dict BookMeta.
Variable totals : Dict.dict Z.

Definition stat_row (item : str * Dict.dict Z) : WordStatRow :=
  {| ws_word := fst item;
     ws_total_count := sum (Dict.values (snd item));
     ws_book_count := len (snd item);
     ws_mean_position :=
       mean_position_of (weighted_sum_of by_id (snd item))
                        (sum (Dict.values (snd item))) |}.

Definition frequency_rows (item : str * Dict.dict Z)
  : list WordFrequencyRow :=
  flat_map
    (fun e : str * Z =>
       match Dict.get (fst e) totals with
       | Some total =>
           [ {| wf_word := fst item;
                wf_book_id := fst e;
                wf_count := snd e;
                wf_relative_frequency :=
                  calculate_relative_frequency (snd e) total |} ]
       | None => []
       end)
    (snd item).

Lemma store_frequency_fold word bc : forall out,
  fold_left (store_frequency word totals) bc out
  = out ++ map InsertWordFrequency (frequency_rows (word, bc)).
Proof.
  unfold frequency_rows. cbn [fst snd].
  induction bc as [|[b c] bc IH]; intros out; simpl;
    [now rewrite app_nil_r|].
  rewrite IH. destruct (Dict.get b totals); simpl.
  - now rewrite <- app_assoc.
  - reflexivity.
Qed.

Lemma stat_fold af : forall rows out,
  fold_left (stat_word by_id totals) af (rows, out)
  = (rows ++ map stat_row af,
     out ++ map InsertWordFrequency (flat_map frequency_rows af)).
Proof.
  induction af as [|[w bc] af IH]; intros rows out.
  - simpl. now rewrite !app_nil_r.
  - cbn [fold_left]. unfold stat_word at 2. rewrite IH.
    rewrite store_frequency_fold. cbn [map flat_map].
    rewrite map_app, <- !app_assoc. reflexivity.
Qed.

End Stats.

End GatherFacts.

(** ** Executing the statements *)

Module ExecFacts.
Import TextExtractor Downloader Analyzer DictFacts CountFacts GatherFacts.
Local Open Scope Z_scope.

Definition is_insert (s : stmt) : bool :=
  match s with
  | Unlink | CreateSchema | Commit | Close => false
  | _ => true
  end.

Definition is_insert_snippet (s : stmt) : bool :=
  match s with InsertSnippet _ _ _ _ => true | _ => false end.

Definition frequency_key (r : WordFrequencyRow) : str * str :=
  (wf_word r, wf_book_id r).

Lemma exec_all_app a : forall b st,
  exec_all (a ++ b) st
  = if snd (exec_all a st) then exec_all b (fst (exec_all a st))
    else exec_all a st.
Proof.
  induction a as [|s a IH]; intros b st; [reflexivity|].
  simpl. destruct (exec s st) as [st'|]; [apply IH|reflexivity].
Qed.

(** Inserts never touch what is on disk. *)
Lemma exec_insert_disk s st st' :
  is_insert s = true -> exec s st = Some st' -> disk st' = disk st.
Proof.
  intros Hs. destruct s; try discriminate; cbn [exec];
    destruct (conn st) as [db|]; try discriminate;
    (destruct (insert _ db); [|discriminate]);
    now intros [= <-].
Qed.

Lemma exec_all_inserts_disk stmts : forall st,
  forallb is_insert stmts = true ->
  disk (fst (exec_all stmts st)) = disk st.
Proof.
  induction stmts as [|s stmts IH]; intros st H; [reflexivity|].
  simpl in H. apply andb_true_iff in H. destruct H as [Hs H].
  simpl. destruct (exec s st) as [st'|] eqn:E; [|reflexivity].
  rewrite (IH _ H). now apply (exec_insert_disk s).
Qed.

Lemma has_book_false k db :
  ~ In k (map b_book_id (books db)) -> has_book k db = false.
Proof.
  unfold has_book. intros H. destruct (existsb _ _) eqn:E; [|reflexivity].
  exfalso. apply H. apply existsb_exists in E. destruct E as (r & Hr & E).
  apply str_eqb_eq in E. subst. now apply in_map.
Qed.

Lemma has_word_frequency_false w k db :
  ~ In (w, k) (map frequency_key (word_frequencies db)) ->
  has_word_frequency w k db = false.
Proof.
  unfold has_word_frequency. intros H.
  destruct (existsb _ _) eqn:E; [|reflexivity].
  exfalso. apply H. apply existsb_exists in E. destruct E as (r & Hr & E).
  apply andb_true_iff in E. destruct E as [E1 E2].
  apply str_eqb_eq in E1, E2. subst.
  change (wf_word r, wf_book_id r) with (frequency_key r). now apply in_map.
Qed.

Lemma has_word_stat_false w db :
  ~ In w (map ws_word (word_stats db)) -> has_word_stat w db = false.
Proof.
  unfold has_word_stat. intros H. destruct (existsb _ _) eqn:E; [|reflexivity].
  exfalso. apply H. apply existsb_exists in E. destruct E as (r & Hr & E).
  apply str_eqb_eq in E. subst. now apply in_map.
Qed.

Lemma NoDup_app_cons {A} (l : list A) x l' :
  NoDup (l ++ x :: l') -> ~ In x l /\ NoDup ((l ++ [x]) ++ l').
Proof.
  intros H. split.
  - intros K. apply NoDup_remove_2 in H. apply H. apply in_or_app. now left.
  - now rewrite <- app_assoc.
Qed.

Lemma exec_books rows : forall d db,
  NoDup (map b_book_id (books db ++ rows)) ->
  exec_all (map InsertBook rows) {| disk := d; conn := Some db |}
  = ({| disk := d;
        conn := Some {| books := books db ++ rows;
                        word_frequencies := word_frequencies db;
                        word_stats := word_stats db;
                        snippets := snippets db |} |}, true).
Proof.
  induction rows as [|r rows IH]; intros d db H.
  - simpl. rewrite app_nil_r. now destruct db.
  - rewrite map_app in H. simpl in H. apply NoDup_app_cons in H.
    destruct H as [Hr H].
    cbn [map exec_all exec conn insert]. rewrite (has_book_false _ _ Hr).
    cbn [disk]. rewrite IH.
    + cbn [books word_frequencies word_stats snippets].
      now rewrite <- app_assoc.
    + cbn [books]. now rewrite map_app, map_app.
Qed.

Lemma exec_frequencies rows : forall d db,
  NoDup (map frequency_key (word_frequencies db ++ rows)) ->
  exec_all (map InsertWordFrequency rows) {| disk := d; conn := Some db |}
  = ({| disk := d;
        conn := Some {| books := books db;
                        word_frequencies := word_frequencies db ++ rows;
                        word_stats := word_stats db;
                        snippets := snippets db |} |}, true).
Proof.
  induction rows as [|r rows IH]; intros d db H.
  - simpl. rewrite app_nil_r. now destruct db.
  - rewrite map_app in H. simpl in H. apply NoDup_app_cons in H.
    destruct H as [Hr H].
    cbn [map exec_all exec conn insert].
    rewrite (has_word_frequency_false _ _ _ Hr).
    cbn [disk]. rewrite IH.
    + cbn [books word_frequencies word_stats snippets].
      now rewrite <- app_assoc.
    + cbn [word_frequencies]. now rewrite map_app, map_app.
Qed.

Lemma exec_stats rows : forall d db,
  NoDup (map ws_word (word_stats db ++ rows)) ->
  exec_all (map InsertWordStat rows) {| disk := d; conn := Some db |}
  = ({| disk := d;
        conn := Some {| books := books db;
                        word_frequencies := word_frequencies db;
                        word_stats := word_stats db ++ rows;
                        snippets := snippets db |} |}, true).
Proof.
  induction rows as [|r rows IH]; intros d db H.
  - simpl. rewrite app_nil_r. now destruct db.
  - rewrite map_app in H. simpl in H. apply NoDup_app_cons in H.
    destruct H as [Hr H].
    cbn [map exec_all exec conn insert]. rewrite (has_word_stat_false _ _ Hr).
    cbn [disk]. rewrite IH.
    + cbn [books word_frequencies word_stats snippets].
      now rewrite <- app_assoc.
    + cbn [word_stats]. now rewrite map_app, map_app.
Qed.

(** Snippets have no key of the caller's: they always go in. *)
Lemma exec_snippets stmts : forall d db,
  forallb is_insert_snippet stmts = true ->
  exists rows,
    exec_all stmts {| disk := d; conn := Some db |}
    = ({| disk := d;
          conn := Some {| books := books db;
                          word_frequencies := word_frequencies db;
                          word_stats := word_stats db;
                          snippets := snippets db ++ rows |} |}, true)
    /\ List.length rows = List.length stmts.
Proof.
  induction stmts as [|s stmts IH]; intros d db H.
  - exists []. simpl. rewrite app_nil_r. split; [now destruct db|reflexivity].
  - simpl in H. apply andb_true_iff in H. destruct H as [Hs H].
    destruct s; try discriminate.
    cbn [exec_all exec conn insert disk].
    match goal with
    | |- context [exec_all stmts {| disk := d; conn := Some ?db' |}] =>
        destruct (IH d db' H) as (rows & -> & Hl)
    end.
    cbn [books word_frequencies word_stats snippets].
    eexists (_ :: rows). rewrite <- app_assoc. split; [reflexivity|].
    simpl. now rewrite Hl.
Qed.

End ExecFacts.

(** ** The whole run *)

Module PipelineFacts.
Import TextExtractor Downloader Analyzer.
Import DictFacts CountFacts GatherFacts ExecFacts.
Local Open Scope Z_scope.

Fixpoint distinct (l : list str) : bool :=
  match l with
  | [] => true
  | x :: l' => negb (existsb (str_eqb x) l') && distinct l'
  end.

Lemma distinct_NoDup l : distinct l = true -> NoDup l.
Proof.
  induction l as [|x l IH]; simpl; intros H; [constructor|].
  apply andb_true_iff in H. destruct H as [Hx Hl].
  constructor; [|now apply IH].
  intros K. apply negb_true_iff in Hx.
  assert (E : existsb (str_eqb x) l = true).
  { apply existsb_exists. exists x. split; [assumption|apply str_eqb_refl]. }
  congruence.
Qed.

(** No two books of [BOOKS] share their id. *)
Lemma book_ids_distinct : NoDup (map book_id get_book_metadata).
Proof. apply distinct_NoDup. vm_compute. reflexivity. Qed.

Lemma NoDup_keys_column w l :
  NoDup (map fst l) -> NoDup (Dict.keys (column w l)).
Proof.
  induction l as [|e l IH]; simpl; intros H; [constructor|].
  inversion H as [|? ? He Hl]; subst.
  unfold Dict.keys. rewrite map_app. fold (Dict.keys (column w l)).
  destruct (Dict.get w (snd e)); simpl; [|now apply IH].
  constructor; [|now apply IH].
  intros K. apply He. now apply (keys_column w l).
Qed.

Section Keys.
Variable totals : Dict.dict Z.

Lemma in_frequency_rows r w bc :
  In r (frequency_rows totals (w, bc)) ->
  wf_word r = w
  /\ exists total, In (wf_book_id r, wf_count r) bc
       /\ Dict.get (wf_book_id r) totals = Some total
       /\ wf_relative_frequency r
          = calculate_relative_frequency (wf_count r) total.
Proof.
  unfold frequency_rows. cbn [fst snd]. rewrite in_flat_map.
  intros ([b c] & Hbc & Hr). cbn [fst snd] in Hr.
  destruct (Dict.get b totals) as [t|] eqn:E; [|contradiction].
  destruct Hr as [<-|[]]. cbn. split; [reflexivity|].
  exists t. now repeat split.
Qed.

Lemma NoDup_frequency_rows w bc :
  NoDup (Dict.keys bc) ->
  NoDup (map frequency_key (frequency_rows totals (w, bc))).
Proof.
  unfold frequency_rows. cbn [fst snd].
  induction bc as [|[b c] bc IH]; simpl; intros H; [constructor|].
  inversion H as [|? ? Hb Hbc]; subst.
  destruct (Dict.get b totals) as [t|]; [|now apply IH].
  simpl. constructor; [|now apply IH].
  intros K. apply in_map_iff in K. destruct K as (r & E & Hr).
  apply (in_frequency_rows r w bc) in Hr.
  destruct Hr as (_ & _ & Hin & _).
  unfold frequency_key in E. injection E as _ E. rewrite E in Hin.
  apply Hb. change b with (fst (b, wf_count r)). now apply in_map.
Qed.

Lemma NoDup_frequency_keys (af : Dict.dict (Dict.dict Z)) :
  NoDup (Dict.keys af) ->
  (forall w bc, In (w, bc) af -> NoDup (Dict.keys bc)) ->
  NoDup (map frequency_key (flat_map (frequency_rows totals) af)).
Proof.
  induction af as [|[w bc] af IH]; simpl; intros Hk Hin; [constructor|].
  inversion Hk as [|? ? Hw Hk']; subst.
  rewrite map_app. apply NoDup_app.
  - apply NoDup_frequency_rows. apply (Hin w). now left.
  - apply IH; [assumption|]. intros w' bc' H. apply (Hin w'). now right.
  - intros k K1 K2.
    apply in_map_iff in K1. destruct K1 as (r1 & <- & H1).
    apply in_frequency_rows in H1. destruct H1 as [E1 _].
    apply in_map_iff in K2. destruct K2 as (r2 & E2 & H2).
    apply in_flat_map in H2. destruct H2 as ([w2 bc2] & Hin2 & H2).
    apply in_frequency_rows in H2. destruct H2 as [E3 _].
    unfold frequency_key in E2. injection E2 as E2 _.
    apply Hw. unfold Dict.keys. apply in_map_iff. exists (w2, bc2).
    split; [simpl; congruence|assumption].
Qed.

End Keys.

Section Run.
Context {py : PyText}.
Variable texts : str -> option str.
Variable metas : list BookMeta.
Hypothesis ids_distinct : NoDup (map book_id metas).

(** The books that went into the index. *)
Definition indexed : list BookMeta := loaded texts metas.

Definition frequencies : Dict.dict (Dict.dict Z) :=
  all_frequencies (fst (gathered texts metas)).

Definition totals : Dict.dict Z := book_totals (fst (gathered texts metas)).

(** The entry of a word is its column over the indexed books. *)
Lemma in_frequencies w bc :
  In (w, bc) frequencies ->
  bc = column w (map (counted texts) indexed) /\ bc <> [].
Proof.
  intros H. apply (in_get _ _ _ (gathered_NoDup texts metas)) in H.
  unfold frequencies in H.
  rewrite (gathered_get texts metas ids_distinct) in H.
  unfold indexed.
  destruct (column w (map (counted texts) (loaded texts metas)));
    [discriminate|].
  injection H as <-. split; [reflexivity|discriminate].
Qed.

Lemma frequencies_NoDup w bc :
  In (w, bc) frequencies -> NoDup (Dict.keys bc).
Proof.
  intros H. apply in_frequencies in H. destruct H as [-> _].
  apply NoDup_keys_column. rewrite map_fst_counted.
  apply NoDup_map_filter, ids_distinct.
Qed.

(** The three tables a run leaves. *)
Definition index : DB :=
  {| books := map (book_row texts) indexed;
     word_frequencies := flat_map (frequency_rows totals) frequencies;
     word_stats := map (stat_row (book_id_to_metadata metas)) frequencies;
     snippets := [] |}.

Lemma store_snippets_inserts max texts' words :
  forallb is_insert_snippet (store_snippets max texts' words) = true.
Proof.
  unfold store_snippets. apply forallb_forall. intros s Hs.
  apply in_flat_map in Hs. destruct Hs as (w & _ & Hs).
  apply in_flat_map in Hs. destruct Hs as ([b t] & _ & Hs).
  apply in_map_iff in Hs. destruct Hs as (x & <- & _). reflexivity.
Qed.

(** Statement by statement, nothing raises, whatever was on disk
    before; the tables are those of [index], and the snippets. *)
Lemma analysis_index min_word_freq max_snippets_per_book st :
  exists rows,
    exec_all (analysis texts metas min_word_freq max_snippets_per_book) st
    = ({| disk := Some {| books := books index;
                          word_frequencies := word_frequencies index;
                          word_stats := word_stats index;
                          snippets := rows |};
          conn := None |}, true).
Proof.
  unfold analysis.
  pose proof (gathered_books texts metas) as Hb.
  destruct (gathered texts metas) as [g books_out] eqn:Eg.
  cbn [snd] in Hb. subst books_out.
  unfold stats. rewrite stat_fold. cbn [app].
  assert (Ef : all_frequencies g = frequencies)
    by (unfold frequencies; now rewrite Eg).
  assert (Et : book_totals g = totals) by (unfold totals; now rewrite Eg).
  rewrite Ef, Et.
  cbn [create_database app exec_all exec disk conn].
  rewrite <- (map_map (book_row texts) InsertBook).
  rewrite exec_all_app, exec_books.
  2:{ cbn [books empty_db app]. rewrite map_map. cbn [b_book_id book_row].
      apply NoDup_map_filter, ids_distinct. }
  cbn [fst snd app books word_frequencies word_stats snippets empty_db].
  rewrite exec_all_app, exec_frequencies.
  2:{ cbn [word_frequencies app]. apply NoDup_frequency_keys.
      - apply gathered_NoDup.
      - apply frequencies_NoDup. }
  cbn [fst snd app books word_frequencies word_stats snippets].
  rewrite exec_all_app, exec_stats.
  2:{ cbn [word_stats app]. rewrite map_map. cbn [ws_word stat_row fst].
      apply gathered_NoDup. }
  cbn [fst snd app books word_frequencies word_stats snippets].
  rewrite exec_all_app.
  match goal with
  | |- context [exec_all (store_snippets ?m ?t ?w)
                         {| disk := ?d; conn := Some ?db |}] =>
      destruct (exec_snippets (store_snippets m t w) d db
                  (store_snippets_inserts m t w)) as (rows & -> & _)
  end.
  cbn [fst snd app books word_frequencies word_stats snippets
       exec_all exec conn disk index].
  exists rows. reflexivity.
Qed.

End Run.

(** A run of the pipeline goes through and leaves the index of the
    books of [BOOKS]. *)
Lemma rebuild_index {py : PyText} texts min_word_freq max_snippets_per_book st :
  exists rows,
    rebuild texts min_word_freq max_snippets_per_book st
    = ({| disk :=
            Some {| books := books (index texts get_book_metadata);
                    word_frequencies :=
                      word_frequencies (index texts get_book_metadata);
                    word_stats := word_stats (index texts get_book_metadata);
                    snippets := rows |};
          conn := None |}, true).
Proof.
  unfold rebuild, run_analysis. apply analysis_index, book_ids_distinct.
Qed.

End PipelineFacts.
(** ** The rows of the index *)

Module IndexFacts.
Import TextExtractor Downloader Analyzer.
Import DictFacts CountFacts GatherFacts ExecFacts PipelineFacts.
Local Open Scope Z_scope.

Section Rows.
Context {py : PyText}.
Variable texts : str -> option str.
Variable metas : list BookMeta.
Hypothesis ids_distinct : NoDup (map book_id metas).

Lemma totals_indexed :
  totals texts metas
  = map (fun m => (book_id m, len (tokens_of texts m))) (indexed texts metas).
Proof. apply gathered_totals, ids_distinct. Qed.

Lemma in_totals b t :
  Dict.get b (totals texts metas) = Some t ->
  exists m, In m (indexed texts metas) /\ book_id m = b
            /\ len (tokens_of texts m) = t.
Proof.
  intros H. apply get_in in H. rewrite totals_indexed in H.
  apply in_map_iff in H. destruct H as (m & [= <- <-] & Hm).
  now exists m.
Qed.

(** A row of word_frequencies belongs to an indexed book, and its
    relative frequency is worked out from that book's token count. *)
Lemma in_index_frequencies r :
  In r (word_frequencies (index texts metas)) ->
  exists m, In m (indexed texts metas) /\ book_id m = wf_book_id r
    /\ wf_relative_frequency r
       = calculate_relative_frequency (wf_count r)
                                      (len (tokens_of texts m)).
Proof.
  cbn [index word_frequencies]. rewrite in_flat_map.
  intros ([w bc] & _ & Hr). apply in_frequency_rows in Hr.
  destruct Hr as (_ & t & _ & Ht & ->).
  apply in_totals in Ht. destruct Ht as (m & Hm & Hb & <-).
  now exists m.
Qed.

Lemma total_occurrences_nonneg w l : 0 <= total_occurrences texts w l.
Proof.
  unfold total_occurrences.
  induction l as [|x l IH]; [cbn [map]; rewrite sum_nil; lia|].
  cbn [map]. rewrite sum_cons.
  pose proof (count_word_nonneg w (tokens_of texts x)). lia.
Qed.

Lemma column_nonempty w l :
  column w (map (counted texts) l) <> [] <-> 0 < total_occurrences texts w l.
Proof.
  rewrite column_counted.
  induction l as [|m l IH]; cbn [flat_map].
  - unfold total_occurrences. cbn [map]. rewrite sum_nil.
    split; [congruence|lia].
  - pose proof (total_occurrences_nonneg w l) as Hl.
    unfold total_occurrences in *. cbn [map]. rewrite sum_cons.
    pose proof (count_word_nonneg w (tokens_of texts m)) as Hn.
    destruct (Z.eqb_spec (count_word w (tokens_of texts m)) 0) as [E|E].
    + rewrite E. cbn [app]. rewrite IH. lia.
    + cbn [app]. split; [intros _; lia|discriminate].
Qed.

(** A row of word_stats: its word occurs in the indexed books, the total
    is the number of its occurrences, the mean position the weighted sum
    over that total. *)
Lemma in_index_stats r :
  In r (word_stats (index texts metas)) ->
  0 < total_occurrences texts (ws_word r) (indexed texts metas)
  /\ ws_total_count r
     = total_occurrences texts (ws_word r) (indexed texts metas)
  /\ ws_mean_position r
     = mean_position_of
         (weighted_occurrences texts (ws_word r) (indexed texts metas))
         (total_occurrences texts (ws_word r) (indexed texts metas)).
Proof.
  cbn [index word_stats]. rewrite in_map_iff.
  intros ([w bc] & <- & H).
  cbn [stat_row ws_word fst snd ws_total_count ws_mean_position].
  apply (in_frequencies texts metas ids_distinct) in H.
  destruct H as [-> Hne].
  rewrite sum_column.
  rewrite (weighted_sum_column texts metas ids_distinct)
    by apply incl_loaded.
  apply column_nonempty in Hne. now repeat split.
Qed.

(** Every word of an indexed book has its row. *)
Lemma index_stats_complete w :
  0 < total_occurrences texts w (indexed texts metas) ->
  exists r, In r (word_stats (index texts metas)) /\ ws_word r = w.
Proof.
  intros H. apply column_nonempty in H.
  pose proof (gathered_get texts metas ids_distinct w) as G.
  unfold indexed in H.
  destruct (column w (map (counted texts) (loaded texts metas)))
    as [|e col] eqn:E; [congruence|].
  apply get_in in G.
  exists (stat_row (book_id_to_metadata metas) (w, e :: col)).
  split; [|reflexivity].
  cbn [index word_stats]. apply in_map. exact G.
Qed.

Lemma index_stats_NoDup :
  NoDup (map ws_word (word_stats (index texts metas))).
Proof.
  cbn [index word_stats]. rewrite map_map. cbn [stat_row ws_word fst].
  apply gathered_NoDup.
Qed.

End Rows.

(** ** Weighted means *)

Lemma weighted_bounds {A} (seq_of cnt : A -> Z) lo hi l :
  (forall m, In m l -> 0 <= cnt m) ->
  (forall m, In m l -> 0 < cnt m -> lo <= seq_of m <= hi) ->
  lo * sum (map cnt l) <= sum (map (fun m => seq_of m * cnt m) l)
  /\ sum (map (fun m => seq_of m * cnt m) l) <= hi * sum (map cnt l).
Proof.
  induction l as [|m l IH]; intros Hc Hb.
  - cbn [map]. rewrite !sum_nil. lia.
  - cbn [map]. rewrite !sum_cons.
    destruct IH as [IH1 IH2].
    + intros x Hx. apply Hc. now right.
    + intros x Hx. apply Hb. now right.
    + specialize (Hc m (or_introl eq_refl)).
      specialize (Hb m (or_introl eq_refl)).
      destruct (Z.eq_dec (cnt m) 0) as [E|E].
      * rewrite E. lia.
      * specialize (Hb ltac:(lia)). nia.
Qed.

Lemma mean_position_bounds ws tc lo hi :
  0 < tc -> lo * tc <= ws -> ws <= hi * tc ->
  (inject_Z lo <= mean_position_of ws tc
   /\ mean_position_of ws tc <= inject_Z hi)%Q.
Proof.
  intros Ht H1 H2. unfold mean_position_of.
  destruct (Z.ltb_spec 0 tc) as [_|]; [|lia].
  assert (Hq : (0 < inject_Z tc)%Q) by (rewrite (Zlt_Qlt 0 tc) in Ht; exact Ht).
  split.
  - apply Qle_shift_div_l; [exact Hq|].
    rewrite <- inject_Z_mult. now rewrite <- Zle_Qle.
  - apply Qle_shift_div_r; [exact Hq|].
    rewrite <- inject_Z_mult. now rewrite <- Zle_Qle.
Qed.

End IndexFacts.
(* ================================================================== *)
(** * The claims about the aggregates *)

Module Aggregates.
Import TextExtractor Downloader Analyzer.
Import DictFacts CountFacts GatherFacts ExecFacts PipelineFacts IndexFacts.
Local Open Scope Z_scope.

(** The corpus of the specification's example: two books, at sequence
    indices 0 and 5. *)
Definition two_books (book_id : str) : option str :=
  if str_eqb book_id (of_string "praefatio")
  then Some (of_string "arma virumque arma")
  else if str_eqb book_id (of_string "5") then Some (of_string "arma cano")
  else None.

Definition no_file : store := {| disk := None; conn := None |}.

Definition two_books_db : DB :=
  Eval vm_compute in
    match disk (fst (rebuild (py := latin) two_books 2 5 no_file)) with
    | Some db => db
    | None => empty_db
    end.

Definition arma : str := of_string "arma".

(** The books of [l] in which [w] occurs. *)
Definition containing {py : PyText} (texts : str -> option str) (w : str)
    (l : list BookMeta) : list BookMeta :=
  filter (fun m => 0 <? count_word w (tokens_of texts m)) l.

Lemma NoDup_map_eq {A B} (f : A -> B) l a b :
  NoDup (map f l) -> In a l -> In b l -> f a = f b -> a = b.
Proof.
  induction l as [|x l IH]; simpl; intros H Ha Hb E; [contradiction|].
  inversion H as [|? ? Hx Hl]; subst.
  destruct Ha as [->|Ha], Hb as [->|Hb].
  - reflexivity.
  - exfalso. apply Hx. rewrite E. now apply in_map.
  - exfalso. apply Hx. rewrite <- E. now apply in_map.
  - now apply IH.
Qed.

Section Core.
Context {py : PyText}.
Variable texts : str -> option str.
Variable metas : list BookMeta.
Hypothesis ids_distinct : NoDup (map book_id metas).

Lemma index_relative_frequency r :
  In r (word_frequencies (index texts metas)) ->
  exists b,
    In b (books (index texts metas)) /\ b_book_id b = wf_book_id r
    /\ (0 < b_total_words b ->
        (wf_relative_frequency r
         == inject_Z (wf_count r) / inject_Z (b_total_words b)
            * inject_Z 10000)%Q)
    /\ (b_total_words b = 0 -> (wf_relative_frequency r == 0)%Q).
Proof.
  intros Hr.
  apply (in_index_frequencies texts metas ids_distinct) in Hr.
  destruct Hr as (m & Hm & Hid & Hrf).
  exists (book_row texts m). cbn [index books].
  split; [now apply in_map|]. split; [exact Hid|].
  rewrite Hrf. cbn [book_row b_total_words].
  unfold calculate_relative_frequency.
  destruct (Z.eqb_spec (len (tokens_of texts m)) 0) as [E|E].
  - split; [lia|]. intros _. reflexivity.
  - split; [|contradiction]. intros _. reflexivity.
Qed.

Lemma total_containing w l :
  total_occurrences texts w (containing texts w l)
  = total_occurrences texts w l.
Proof.
  unfold total_occurrences, containing.
  induction l as [|m l IH]; [reflexivity|].
  cbn [filter map]. rewrite sum_cons.
  pose proof (count_word_nonneg w (tokens_of texts m)).
  destruct (Z.ltb_spec 0 (count_word w (tokens_of texts m))).
  - cbn [map]. rewrite sum_cons. lia.
  - lia.
Qed.

Lemma weighted_containing w l :
  weighted_occurrences texts w (containing texts w l)
  = weighted_occurrences texts w l.
Proof.
  unfold weighted_occurrences, containing.
  induction l as [|m l IH]; [reflexivity|].
  cbn [filter map]. rewrite sum_cons.
  pose proof (count_word_nonneg w (tokens_of texts m)).
  destruct (Z.ltb_spec 0 (count_word w (tokens_of texts m))).
  - cbn [map]. rewrite sum_cons. lia.
  - replace (count_word w (tokens_of texts m)) with 0 by lia. lia.
Qed.

Lemma index_mean_position w :
  0 < total_occurrences texts w (indexed texts metas) ->
  exists r,
    In r (word_stats (index texts metas)) /\ ws_word r = w
    /\ (forall r', In r' (word_stats (index texts metas)) ->
                   ws_word r' = w -> r' = r)
    /\ ws_total_count r
       = total_occurrences texts w (containing texts w (indexed texts metas))
    /\ (ws_mean_position r
        == inject_Z (weighted_occurrences texts w
                       (containing texts w (indexed texts metas)))
           / inject_Z (total_occurrences texts w
                         (containing texts w (indexed texts metas))))%Q.
Proof.
  intros Hw.
  destruct (index_stats_complete texts metas ids_distinct w Hw)
    as (r & Hr & <-).
  exists r. split; [exact Hr|]. split; [reflexivity|]. split.
  - intros r' Hr' E.
    apply (NoDup_map_eq ws_word (word_stats (index texts metas)));
      [apply index_stats_NoDup|assumption..].
  - destruct (in_index_stats texts metas ids_distinct r Hr) as (_ & Et & Em).
    rewrite total_containing, weighted_containing.
    split; [exact Et|]. rewrite Em. unfold mean_position_of.
    destruct (Z.ltb_spec 0 (total_occurrences texts (ws_word r)
                              (indexed texts metas))); [reflexivity|lia].
Qed.

Lemma index_mean_within r lo hi :
  In r (word_stats (index texts metas)) ->
  (forall m, In m (indexed texts metas) ->
             0 < count_word (ws_word r) (tokens_of texts m) ->
             lo <= sequence_index m <= hi) ->
  (inject_Z lo <= ws_mean_position r)%Q
  /\ (ws_mean_position r <= inject_Z hi)%Q.
Proof.
  intros Hr Hb.
  destruct (in_index_stats texts metas ids_distinct r Hr) as (Hpos & _ & ->).
  destruct (weighted_bounds sequence_index
              (fun m => count_word (ws_word r) (tokens_of texts m))
              lo hi (indexed texts metas)) as [H1 H2].
  - intros m _. apply count_word_nonneg.
  - exact Hb.
  - now apply mean_position_bounds.
Qed.

End Core.

Lemma rebuild_tables {py : PyText} texts min_word_freq max_snippets_per_book
    st db :
  disk (fst (rebuild texts min_word_freq max_snippets_per_book st)) = Some db ->
  books db = books (index texts get_book_metadata)
  /\ word_frequencies db = word_frequencies (index texts get_book_metadata)
  /\ word_stats db = word_stats (index texts get_book_metadata).
Proof.
  destruct (rebuild_index texts min_word_freq max_snippets_per_book st)
    as (rows & ->).
  cbn [fst disk]. generalize (index texts get_book_metadata). intros i.
  intros [= <-]. cbn [books word_frequencies word_stats]. now repeat split.
Qed.

(** C2.  Every row of word_frequencies that a run leaves belongs to a
    row of books; when that book has words, the relative frequency is
    count / total_words * 10000, and when it has none, it is 0.  (Floats
    are read as the rationals they stand for.) *)
Theorem relative_frequency_invariant (py : PyText) texts
    min_word_freq max_snippets_per_book st db r :
  disk (fst (rebuild texts min_word_freq max_snippets_per_book st)) = Some db ->
  In r (word_frequencies db) ->
  exists b,
    In b (books db) /\ b_book_id b = wf_book_id r
    /\ (0 < b_total_words b ->
        (wf_relative_frequency r
         == inject_Z (wf_count r) / inject_Z (b_total_words b)
            * inject_Z 10000)%Q)
    /\ (b_total_words b = 0 -> (wf_relative_frequency r == 0)%Q).
Proof.
  intros Hdb Hr. apply rebuild_tables in Hdb. destruct Hdb as (Eb & Ef & _).
  rewrite Ef in Hr. rewrite Eb.
  apply index_relative_frequency; [apply book_ids_distinct|exact Hr].
Qed.

Lemma relative_frequency_invariant_witness :
  let r := {| wf_word := arma; wf_book_id := of_string "praefatio";
              wf_count := 2;
              wf_relative_frequency :=
                calculate_relative_frequency 2 3 |} in
  disk (fst (rebuild (py := latin) two_books 2 5 no_file)) = Some two_books_db
  /\ In r (word_frequencies two_books_db)
  /\ exists b,
       In b (books two_books_db) /\ b_book_id b = wf_book_id r
       /\ (0 < b_total_words b ->
           (wf_relative_frequency r
            == inject_Z (wf_count r) / inject_Z (b_total_words b)
               * inject_Z 10000)%Q)
       /\ (b_total_words b = 0 -> (wf_relative_frequency r == 0)%Q).
Proof.
  intros r.
  assert (H1 : disk (fst (rebuild (py := latin) two_books 2 5 no_file))
               = Some two_books_db) by (vm_compute; reflexivity).
  assert (H2 : In r (word_frequencies two_books_db))
    by (vm_compute; left; reflexivity).
  split; [exact H1|]. split; [exact H2|].
  exact (relative_frequency_invariant latin two_books 2 5 no_file
           two_books_db r H1 H2).
Defined.

(** C3.  Every word that occurs in an indexed book has one row in
    word_stats, and its mean position is the sum of sequence_index times
    count over the books that contain the word, divided by the sum of the
    counts. *)
Theorem mean_position_formula (py : PyText) texts
    min_word_freq max_snippets_per_book st db w :
  disk (fst (rebuild texts min_word_freq max_snippets_per_book st)) = Some db ->
  0 < total_occurrences texts w (indexed texts get_book_metadata) ->
  exists r,
    In r (word_stats db) /\ ws_word r = w
    /\ (forall r', In r' (word_stats db) -> ws_word r' = w -> r' = r)
    /\ ws_total_count r
       = total_occurrences texts w
           (containing texts w (indexed texts get_book_metadata))
    /\ (ws_mean_position r
        == inject_Z (weighted_occurrences texts w
                       (containing texts w (indexed texts get_book_metadata)))
           / inject_Z (total_occurrences texts w
                         (containing texts w
                            (indexed texts get_book_metadata))))%Q.
Proof.
  intros Hdb Hw. apply rebuild_tables in Hdb. destruct Hdb as (_ & _ & Es).
  rewrite Es.
  apply index_mean_position; [apply book_ids_distinct|exact Hw].
Qed.

Lemma mean_position_formula_witness :
  disk (fst (rebuild (py := latin) two_books 2 5 no_file)) = Some two_books_db
  /\ 0 < total_occurrences (py := latin) two_books arma
            (indexed two_books get_book_metadata)
  /\ exists r,
       In r (word_stats two_books_db) /\ ws_word r = arma
       /\ (forall r', In r' (word_stats two_books_db) ->
                      ws_word r' = arma -> r' = r)
       /\ ws_total_count r
          = total_occurrences (py := latin) two_books arma
              (containing (py := latin) two_books arma
                 (indexed two_books get_book_metadata))
       /\ (ws_mean_position r
           == inject_Z (weighted_occurrences (py := latin) two_books arma
                          (containing (py := latin) two_books arma
                             (indexed two_books get_book_metadata)))
              / inject_Z (total_occurrences (py := latin) two_books arma
                            (containing (py := latin) two_books arma
                               (indexed two_books get_book_metadata))))%Q.
Proof.
  assert (H1 : disk (fst (rebuild (py := latin) two_books 2 5 no_file))
               = Some two_books_db) by (vm_compute; reflexivity).
  assert (H2 : 0 < total_occurrences (py := latin) two_books arma
                     (indexed two_books get_book_metadata))
    by (vm_compute; reflexivity).
  split; [exact H1|]. split; [exact H2|].
  exact (mean_position_formula latin two_books 2 5 no_file
           two_books_db arma H1 H2).
Defined.

(** The example of the specification: "arma" twice in the book at
    sequence index 0 and once in the book at 5. *)
Lemma arma_mean_position :
  exists r,
    In r (word_stats two_books_db) /\ ws_word r = arma
    /\ ws_total_count r = 3 /\ ws_book_count r = 2
    /\ (ws_mean_position r == (0 * 2 + 5 * 1) / 3)%Q.
Proof.
  eexists. split; [vm_compute; left; reflexivity|].
  repeat split.
Qed.

(** C8.  The mean position of a row of word_stats lies between any two
    bounds that enclose the sequence indices of the books in which the
    word occurs; so between the least and the greatest of them. *)
Theorem mean_position_within_support (py : PyText) texts
    min_word_freq max_snippets_per_book st db r lo hi :
  disk (fst (rebuild texts min_word_freq max_snippets_per_book st)) = Some db ->
  In r (word_stats db) ->
  (forall m, In m (indexed texts get_book_metadata) ->
             0 < count_word (ws_word r) (tokens_of texts m) ->
             lo <= sequence_index m <= hi) ->
  (inject_Z lo <= ws_mean_position r)%Q
  /\ (ws_mean_position r <= inject_Z hi)%Q.
Proof.
  intros Hdb Hr Hb. apply rebuild_tables in Hdb. destruct Hdb as (_ & _ & Es).
  rewrite Es in Hr.
  apply (index_mean_within texts get_book_metadata book_ids_distinct r lo hi
           Hr Hb).
Qed.

Lemma mean_position_within_support_witness :
  let r := {| ws_word := arma; ws_total_count := 3; ws_book_count := 2;
              ws_mean_position := mean_position_of 5 3 |} in
  disk (fst (rebuild (py := latin) two_books 2 5 no_file)) = Some two_books_db
  /\ In r (word_stats two_books_db)
  /\ (forall m, In m (indexed two_books get_book_metadata) ->
                0 < count_word (ws_word r) (tokens_of (py := latin) two_books m) ->
                0 <= sequence_index m <= 5)
  /\ (inject_Z 0 <= ws_mean_position r)%Q
  /\ (ws_mean_position r <= inject_Z 5)%Q.
Proof.
  intros r.
  assert (H1 : disk (fst (rebuild (py := latin) two_books 2 5 no_file))
               = Some two_books_db) by (vm_compute; reflexivity).
  assert (H2 : In r (word_stats two_books_db))
    by (vm_compute; left; reflexivity).
  assert (H3 : forall m, In m (indexed two_books get_book_metadata) ->
                 0 < count_word (ws_word r)
                       (tokens_of (py := latin) two_books m) ->
                 0 <= sequence_index m <= 5).
  { intros m Hm _. vm_compute in Hm.
    destruct Hm as [<-|[<-|[]]]; vm_compute; split; discriminate. }
  split; [exact H1|]. split; [exact H2|]. split; [exact H3|].
  exact (mean_position_within_support latin two_books 2 5 no_file
           two_books_db r 0 5 H1 H2 H3).
Defined.

End Aggregates.
(* ================================================================== *)
(** * The claims about the tokenizer *)

Module Tokens.
Import TextExtractor Vocabulary TokenizerFacts.

(** C9.  Normalizing is idempotent.  A token in normalized form, a run
    of the letters a to z that is not empty, comes out of the mapping of
    the accented letters followed by lowering as it went in, and it is
    the one token of itself; tokens in normalized form, joined by spaces
    and tokenized, come out as they were.  So do the tokens of any text,
    and on any text the mapping followed by lowering does twice what it
    does once. *)
Theorem normalization_idempotent (py : PyText) (ws : list str) :
  Forall normalized ws ->
  Forall (fun w => lower (normalize_diacritics w) = w
                   /\ tokenize w true = [w]) ws
  /\ tokenize (unwords ws) true = ws
  /\ (forall text,
        tokenize (unwords (tokenize text true)) true = tokenize text true)
  /\ (forall u,
        lower (normalize_diacritics (lower (normalize_diacritics u)))
        = lower (normalize_diacritics u)).
Proof.
  intros H. split; [|split; [|split]].
  - apply Forall_forall. intros w Hw. rewrite Forall_forall in H.
    pose proof (H w Hw) as Nw. split.
    + destruct Nw as [_ Haz].
      rewrite (normalize_diacritics_id _ (forallb_az_plain _ Haz)).
      apply lower_uncased, forallb_az_uncased, Haz.
    + apply (tokenize_unwords [w]). now constructor.
  - now apply tokenize_unwords.
  - intros text. apply tokenize_unwords, tokenize_normalized.
  - intros u.
    assert (P : plain (lower (normalize_diacritics u)) = true)
      by apply lower_plain, normalize_diacritics_plain.
    rewrite (normalize_diacritics_id _ P). apply lower_lower.
Qed.

Lemma normalization_idempotent_witness :
  let ws := [of_string "arma"; of_string "virumque"; of_string "cano"] in
  Forall normalized ws
  /\ Forall (fun w => lower (PyText := latin) (normalize_diacritics w) = w
                      /\ tokenize (py := latin) w true = [w]) ws
  /\ tokenize (py := latin) (unwords ws) true = ws
  /\ (forall text,
        tokenize (py := latin) (unwords (tokenize (py := latin) text true))
                 true
        = tokenize (py := latin) text true)
  /\ (forall u,
        lower (PyText := latin)
              (normalize_diacritics
                 (lower (PyText := latin) (normalize_diacritics u)))
        = lower (PyText := latin) (normalize_diacritics u)).
Proof.
  intros ws.
  assert (H : Forall normalized ws).
  { repeat constructor; try (vm_compute; reflexivity);
      intros K; discriminate K. }
  split; [exact H|].
  exact (normalization_idempotent latin ws H).
Defined.

(** C10.  Every accented letter that the pattern admits is a key of the
    normalization table, and every token of the normalizing mode is a run
    of the letters a to z with at least one letter. *)
Theorem tokens_are_ascii_lowercase (py : PyText) (text w : str) :
  In w (tokenize text true) ->
  w <> [] /\ forallb is_az w = true
  /\ forallb is_diacritic LATIN_WORD_ACCENTED = true.
Proof.
  intros H. pose proof (tokenize_normalized text) as T.
  rewrite Forall_forall in T. destruct (T w H) as [Hne Haz].
  repeat split; [exact Hne|exact Haz].
Qed.

Lemma tokens_are_ascii_lowercase_witness :
  let text := of_string "Arma VIRUMQUE c" ++ [257%N] ++ of_string "n" ++ [332%N]
              ++ of_string ", Tr" ++ [339%N] ++ of_string "iae 2x" in
  let w := of_string "troeiae" in
  In w (tokenize (py := latin) text true)
  /\ w <> [] /\ forallb is_az w = true
  /\ forallb is_diacritic LATIN_WORD_ACCENTED = true.
Proof.
  intros text w.
  assert (H : In w (tokenize (py := latin) text true))
    by (vm_compute; do 3 right; left; reflexivity).
  split; [exact H|].
  exact (tokens_are_ascii_lowercase latin text w H).
Defined.

End Tokens.
(* ================================================================== *)
(** * The claims about the snippets *)

Module Snippets.
Import TextExtractor Analyzer SnippetFacts.
Local Open Scope Z_scope.

(** C6.  Every snippet is the snippet of a match: its context is the
    slice of the text between the window's start and end, with the
    ellipsis in front exactly when the window does not start at the
    start of the text, and the ellipsis behind exactly when it does not
    end at its end. *)
Theorem ellipsis_marks_truncation (py : PyText) text word
    context_chars max_snippets s :
  In s (extract_snippets text word context_chars max_snippets) ->
  exists m,
    In m (finditer word text)
    /\ position s = Z.of_nat (fst m)
    /\ context s
       = (if window_start context_chars m =? 0 then [] else ellipsis)
           ++ slice text (window_start context_chars m)
                         (window_end text context_chars m)
           ++ (if window_end text context_chars m =? len text
               then [] else ellipsis).
Proof.
  intros H. unfold extract_snippets in H. apply snippets_loop_in in H.
  destruct H as [[]|(m & Hm & ->)].
  exists m. split; [exact Hm|]. split; [reflexivity|].
  apply snippet_of_context.
Qed.

Lemma ellipsis_marks_truncation_witness :
  let text := of_string "Arma virumque arma, ARMA" in
  let word := of_string "arma" in
  let s := {| context := of_string "...ue arma, A..."; position := 14 |} in
  In s (extract_snippets (py := latin) text word 3 2)
  /\ exists m,
       In m (finditer (py := latin) word text)
       /\ position s = Z.of_nat (fst m)
       /\ context s
          = (if window_start 3 m =? 0 then [] else ellipsis)
              ++ slice text (window_start 3 m) (window_end text 3 m)
              ++ (if window_end text 3 m =? len text then [] else ellipsis).
Proof.
  intros text word s.
  assert (H : In s (extract_snippets (py := latin) text word 3 2))
    by (vm_compute; right; left; reflexivity).
  split; [exact H|].
  exact (ellipsis_marks_truncation latin text word 3 2 s H).
Defined.

(** C5.  With a cap of zero the extractor still returns a snippet: the
    loop appends before it compares the length with the cap. *)
Theorem snippet_cap_of_zero_exceeded :
  let found := extract_snippets (py := latin)
                 (of_string "arma virumque cano") (of_string "arma") 50 0 in
  found = [ {| context := of_string "arma virumque cano"; position := 0 |} ]
  /\ ~ len found <= 0.
Proof.
  split; [vm_compute; reflexivity|]. vm_compute. intros H. now apply H.
Qed.

End Snippets.
(* ================================================================== *)
(** * The queries *)

Module QueryFacts.
Import TextExtractor Downloader Analyzer ExecFacts Aggregates.
Local Open Scope Z_scope.

Section Ordering.
Context {A : Type}.
Variable le : A -> A -> bool.
Hypothesis le_total : forall a b, le a b = true \/ le b a = true.
Hypothesis le_trans : forall a b c,
  le a b = true -> le b c = true -> le a c = true.

Lemma insert_by_perm x l : Permutation (insert_by le x l) (x :: l).
Proof.
  induction l as [|y l IH]; simpl; [reflexivity|].
  destruct (le x y); [reflexivity|].
  rewrite IH. apply perm_swap.
Qed.

Lemma order_by_perm l : Permutation (order_by le l) l.
Proof.
  unfold order_by. induction l as [|x l IH]; simpl; [reflexivity|].
  rewrite insert_by_perm. now constructor.
Qed.

Lemma insert_by_sorted x l :
  StronglySorted (fun a b => le a b = true) l ->
  StronglySorted (fun a b => le a b = true) (insert_by le x l).
Proof.
  induction l as [|y l IH]; simpl; intros H.
  - repeat constructor.
  - inversion H as [|? ? Hl Hy]; subst.
    destruct (le x y) eqn:E.
    + constructor; [exact H|]. constructor; [exact E|].
      rewrite Forall_forall in *. intros z Hz.
      apply (le_trans x y z E). now apply Hy.
    + constructor; [now apply IH|].
      rewrite Forall_forall in *. intros z Hz.
      apply (Permutation_in _ (insert_by_perm x l)) in Hz.
      destruct Hz as [<-|Hz]; [|now apply Hy].
      destruct (le_total x y) as [K|K]; [congruence|exact K].
Qed.

Lemma order_by_sorted l :
  StronglySorted (fun a b => le a b = true) (order_by le l).
Proof.
  unfold order_by. induction l as [|x l IH]; simpl; [constructor|].
  now apply insert_by_sorted.
Qed.

End Ordering.

(** The row [get_word_frequencies] answers for one book. *)
Definition frequency_of (word : str) (db : DB) (b : BookRow)
  : FrequencyResult :=
  match find (fun wf => str_eqb (b_book_id b) (wf_book_id wf)
                        && str_eqb (wf_word wf) word)
             (word_frequencies db) with
  | Some wf =>
      {| fr_book_id := b_book_id b;
         fr_title := b_title b;
         fr_sequence_index := b_sequence_index b;
         fr_count := wf_count wf;
         fr_relative_frequency := wf_relative_frequency wf |}
  | None =>
      {| fr_book_id := b_book_id b;
         fr_title := b_title b;
         fr_sequence_index := b_sequence_index b;
         fr_count := 0;
         fr_relative_frequency := 0%Q |}
  end.





Lemma frequency_of_present word db b wf :
  NoDup (map frequency_key (word_frequencies db)) ->
  In wf (word_frequencies db) ->
  wf_word wf = word -> wf_book_id wf = b_book_id b ->
  fr_count (frequency_of word db b) = wf_count wf
  /\ fr_relative_frequency (frequency_of word db b)
     = wf_relative_frequency wf.
Proof.
  intros Hnd Hwf Ew Eb. unfold frequency_of.
  destruct (find _ (word_frequencies db)) as [wf'|] eqn:F.
  - apply find_some in F. destruct F as [Hwf' E].
    apply andb_true_iff in E. destruct E as [E1 E2].
    apply str_eqb_eq in E1, E2.
    assert (wf' = wf).
    { apply (NoDup_map_eq frequency_key (word_frequencies db));
        try assumption.
      unfold frequency_key. congruence. }
    subst. now split.
  - exfalso. apply (find_none _ _ F) in Hwf.
    rewrite Eb, Ew, !str_eqb_refl in Hwf. discriminate.
Qed.

Lemma StronglySorted_weaken {A} (R R' : A -> A -> Prop) l :
  (forall a b, R a b -> R' a b) ->
  StronglySorted R l -> StronglySorted R' l.
Proof.
  intros H. induction 1 as [|a l Hl IH Ha]; constructor; [exact IH|].
  rewrite Forall_forall in *. intros b Hb. apply H. now apply Ha.
Qed.

End QueryFacts.

Module Queries.
Import TextExtractor Downloader Analyzer ExecFacts Aggregates QueryFacts.
Local Open Scope Z_scope.

Definition two_books_store : store :=
  {| disk := Some two_books_db; conn := None |}.



(** The example of the specification: "virumque" is in the first book
    only, and the second is answered with zeros. *)
Lemma virumque_frequencies :
  option_map (map (fun r => (fr_sequence_index r, fr_count r)))
             (get_word_frequencies (py := latin) (of_string "Virumque")
                                   two_books_store)
  = Some [(0, 1); (5, 0)].
Proof. vm_compute. reflexivity. Qed.

Definition starts_with (prefix s : str) : bool :=
  str_eqb (firstn (List.length prefix) s) prefix.

(** C7.  The prefix "_r" finds "arma", which does not start with it:
    LIKE reads the underscore as any one character. *)
Theorem search_words_reads_wildcards :
  search_words (py := latin) (of_string "_r") 5 two_books_store
  = Some [arma]
  /\ starts_with (of_string "_r") arma = false.
Proof. split; vm_compute; reflexivity. Qed.

End Queries.
(* ================================================================== *)
(** * A rebuild that fails *)

Module Failure.
Import TextExtractor Downloader Analyzer.
Import GatherFacts ExecFacts PipelineFacts Aggregates Queries.
Local Open Scope Z_scope.

Lemma is_insert_snippet_insert s :
  is_insert_snippet s = true -> is_insert s = true.
Proof. now destruct s. Qed.

Lemma forallb_map_insert {A} (f : A -> stmt) l :
  (forall x, is_insert (f x) = true) -> forallb is_insert (map f l) = true.
Proof.
  intros H. apply forallb_forall. intros s Hs. apply in_map_iff in Hs.
  destruct Hs as (x & <- & _). apply H.
Qed.

Section Shape.
Context {py : PyText}.
Variable texts : str -> option str.

(** The run is: the three statements of [create_database], inserts
    only, the commit, the close. *)
Lemma analysis_shape metas min_word_freq max_snippets_per_book :
  exists inserts,
    analysis texts metas min_word_freq max_snippets_per_book
    = create_database ++ inserts ++ [Commit; Close]
    /\ forallb is_insert inserts = true.
Proof.
  unfold analysis.
  pose proof (gathered_books texts metas) as Hb.
  destruct (gathered texts metas) as [g books_out]. cbn [snd] in Hb.
  subst books_out. unfold stats. rewrite stat_fold. cbn [app].
  match goal with
  | |- exists _, create_database ++ ?b ++ ?f ++ ?s ++ ?n ++ _ = _ /\ _ =>
      exists (b ++ f ++ s ++ n)
  end.
  split.
  - rewrite <- !app_assoc. reflexivity.
  - rewrite !forallb_app. repeat (apply andb_true_iff; split).
    + now apply forallb_map_insert.
    + now apply forallb_map_insert.
    + now apply forallb_map_insert.
    + apply forallb_forall. intros s Hs. apply is_insert_snippet_insert.
      pose proof (store_snippets_inserts max_snippets_per_book
                    (book_texts g)
                    (map ws_word
                       (filter (fun r => min_word_freq <=? ws_total_count r)
                          (map (stat_row (book_id_to_metadata metas)
                                         )
                               (all_frequencies g))))) as K.
      rewrite forallb_forall in K. now apply K.
Qed.

Lemma forallb_firstn {A} (p : A -> bool) n l :
  forallb p l = true -> forallb p (firstn n l) = true.
Proof.
  rewrite !forallb_forall. intros H x Hx. apply H.
  rewrite <- (firstn_skipn n l). apply in_or_app. now left.
Qed.

Lemma failed_analysis metas min_word_freq max_snippets_per_book st k :
  (2 <= k)%nat ->
  (k + 2 <= List.length
              (analysis texts metas min_word_freq max_snippets_per_book))%nat ->
  disk (exec_until_failure k
          (analysis texts metas min_word_freq max_snippets_per_book) st)
  = Some empty_db.
Proof.
  destruct (analysis_shape metas min_word_freq max_snippets_per_book)
    as (inserts & -> & Hi).
  intros H2 Hk. rewrite !length_app in Hk. cbn [List.length create_database] in Hk.
  unfold exec_until_failure, create_database.
  destruct k as [|[|[|k]]]; try lia.
  - reflexivity.
  - cbn [app firstn exec_all exec disk conn].
    rewrite firstn_app.
    replace (k - List.length inserts)%nat with O by lia.
    cbn [firstn]. rewrite app_nil_r.
    rewrite exec_all_inserts_disk; [reflexivity|].
    now apply forallb_firstn.
Qed.

End Shape.

(** C1, as the code has it.  A rebuild that fails once the schema is
    there and before the last commit leaves the new, empty tables on
    disk: a reader sees none of the rows written so far, and nothing of
    the index that was there before. *)
Theorem failed_rebuild_leaves_empty_index (py : PyText) texts
    min_word_freq max_snippets_per_book st k :
  (2 <= k)%nat ->
  (k + 2 <= List.length
              (run_analysis texts min_word_freq max_snippets_per_book))%nat ->
  disk (exec_until_failure k
          (run_analysis texts min_word_freq max_snippets_per_book) st)
  = Some empty_db.
Proof. unfold run_analysis. apply failed_analysis. Qed.

Lemma failed_rebuild_leaves_empty_index_witness :
  (2 <= 5)%nat
  /\ (5 + 2 <= List.length (run_analysis (py := latin) two_books 2 5))%nat
  /\ disk (exec_until_failure 5 (run_analysis (py := latin) two_books 2 5)
             two_books_store)
     = Some empty_db.
Proof.
  assert (H1 : (2 <= 5)%nat) by lia.
  assert (H2 : (5 + 2
                <= List.length (run_analysis (py := latin) two_books 2 5))%nat)
    by (vm_compute; lia).
  split; [exact H1|]. split; [exact H2|].
  exact (failed_rebuild_leaves_empty_index latin two_books 2 5
           two_books_store 5 H1 H2).
Defined.

(** C1 fails as stated: with the index of the two books on disk, a
    rebuild whose first INSERT fails leaves empty tables, and the query
    that had two rows has none. *)
Lemma failed_rebuild_loses_prior_index :
  let after :=
    exec_until_failure 3 (run_analysis (py := latin) two_books 2 5)
                       two_books_store in
  disk two_books_store = Some two_books_db
  /\ disk after <> disk two_books_store
  /\ option_map (@List.length _)
       (get_word_frequencies (py := latin) arma two_books_store) = Some 2%nat
  /\ get_word_frequencies (py := latin) arma after = Some [].
Proof.
  intros after. split; [reflexivity|]. split.
  - vm_compute. discriminate.
  - split; vm_compute; reflexivity.
Qed.

End Failure.
(* ================================================================== *)
(** * More about the tokenizer *)

Module TextMore.
Import TextExtractor Vocabulary TokenizerFacts.

(** What the table says of one character. *)
Definition normalize_char (c : char) : str :=
  match find (fun e : char * str => N.eqb c (fst e)) DIACRITIC_MAP with
  | Some e => snd e
  | None => [c]
  end.

(** A text cut into tokens and what lies between them. *)
Fixpoint weave (gap : str) (rest : list (str * str)) : str :=
  match rest with
  | [] => gap
  | (w, gap') :: rest' => gap ++ w ++ weave gap' rest'
  end.

Definition lookup (m : list (char * str)) (c : char) : str :=
  match find (fun e : char * str => N.eqb c (fst e)) m with
  | Some e => snd e
  | None => [c]
  end.

Lemma flat_map_flat_map {A B C} (f : A -> list B) (g : B -> list C) l :
  flat_map g (flat_map f l) = flat_map (fun x => flat_map g (f x)) l.
Proof.
  induction l as [|x l IH]; simpl; [reflexivity|].
  now rewrite flat_map_app, IH.
Qed.

(** No character of [r] is a key of [m]. *)
Definition fresh (m : list (char * str)) (r : str) : bool :=
  forallb (fun d : char =>
             negb (existsb (fun e : char * str => N.eqb d (fst e)) m)) r.

Lemma fresh_lookup (m : list (char * str)) (d : char) :
  existsb (fun e : char * str => N.eqb d (fst e)) m = false ->
  lookup m d = [d].
Proof.
  intros H. unfold lookup.
  destruct (find _ m) as [e|] eqn:F; [|reflexivity].
  apply find_some in F. destruct F as [He E].
  assert (K : existsb (fun e : char * str => N.eqb d (fst e)) m = true)
    by (apply existsb_exists; now exists e).
  congruence.
Qed.

Lemma flat_map_lookup_fresh (m : list (char * str)) (r : str) :
  fresh m r = true -> flat_map (lookup m) r = r.
Proof.
  unfold fresh. induction r as [|d r IH]; simpl; [reflexivity|].
  rewrite andb_true_iff, negb_true_iff. intros [Hd Hr].
  now rewrite (IH Hr), (fresh_lookup m d Hd).
Qed.

Lemma fresh_tail (m0 : list (char * str)) e m1 r :
  fresh (m0 ++ e :: m1) r = true -> fresh m1 r = true.
Proof.
  unfold fresh. rewrite !forallb_forall. intros H d Hd.
  specialize (H d Hd). rewrite negb_true_iff in *.
  rewrite existsb_app in H. apply orb_false_iff in H. destruct H as [_ H].
  simpl in H. apply orb_false_iff in H. tauto.
Qed.

Lemma lookup_cons_same (e : char * str) m1 :
  lookup (e :: m1) (fst e) = snd e.
Proof. unfold lookup. simpl. now rewrite N.eqb_refl. Qed.

Lemma lookup_cons_other (e : char * str) m1 (c : char) :
  c <> fst e -> lookup (e :: m1) c = lookup m1 c.
Proof.
  intros H. unfold lookup. simpl. apply N.eqb_neq in H. now rewrite H.
Qed.

(** Replacing key after key is looking every character up once, as long
    as no replacement holds a key. *)
Lemma replace_all_lookup_from (m1 : list (char * str)) :
  forall (m0 : list (char * str)) (t : str),
  forallb (fun e : char * str => fresh (m0 ++ m1) (snd e)) (m0 ++ m1) = true ->
  fold_left (fun t e => replace (fst e) (snd e) t) m1 t
  = flat_map (lookup m1) t.
Proof.
  induction m1 as [|e m1 IH]; intros m0 t H.
  - simpl. induction t as [|c t IHt]; simpl; [reflexivity|].
    now rewrite <- IHt.
  - cbn [fold_left].
    assert (A : (m0 ++ [e]) ++ m1 = m0 ++ e :: m1)
      by (rewrite <- app_assoc; reflexivity).
    specialize (IH (m0 ++ [e])). rewrite A in IH. rewrite (IH _ H).
    unfold replace. rewrite flat_map_flat_map.
    apply flat_map_ext. intros c.
    destruct (N.eq_dec c (fst e)) as [->|Hne].
    + rewrite N.eqb_refl, lookup_cons_same.
      apply flat_map_lookup_fresh.
      rewrite forallb_forall in H.
      apply (fresh_tail m0 e m1). apply H.
      apply in_or_app. right. now left.
    + rewrite (lookup_cons_other e m1 c Hne).
      apply N.eqb_neq in Hne. rewrite Hne. simpl. apply app_nil_r.
Qed.

Lemma replace_all_lookup (m : list (char * str)) (t : str) :
  forallb (fun e : char * str => fresh m (snd e)) m = true ->
  fold_left (fun t e => replace (fst e) (snd e) t) m t
  = flat_map (lookup m) t.
Proof. intros H. exact (replace_all_lookup_from m [] t H). Qed.

Lemma normalize_char_length c :
  (1 <= List.length (normalize_char c) <= 2)%nat.
Proof.
  unfold normalize_char.
  destruct (find _ DIACRITIC_MAP) as [e|] eqn:F; [|simpl; lia].
  apply find_some in F. destruct F as [He _].
  assert (K : forallb (fun e : char * str =>
                         match snd e with
                         | [_] | [_; _] => true
                         | _ => false
                         end) DIACRITIC_MAP = true) by reflexivity.
  rewrite forallb_forall in K. specialize (K e He).
  destruct (snd e) as [|a [|b [|]]]; simpl; try discriminate; lia.
Qed.

Lemma flat_map_length_bounds {A B} (f : A -> list B) l :
  (forall x, 1 <= List.length (f x) <= 2)%nat ->
  (List.length l <= List.length (flat_map f l) <= 2 * List.length l)%nat.
Proof.
  intros H. induction l as [|x l IH]; simpl; [lia|].
  rewrite length_app. specialize (H x). lia.
Qed.

(** X1.  [normalize_diacritics] looks every character up in the table
    once, whatever stands around it: the thirty replacements one after
    the other amount to a single pass, so the function goes through
    concatenation, and a ligature counts for two letters. *)
Theorem normalize_diacritics_charwise (t u : str) :
  normalize_diacritics t = flat_map normalize_char t
  /\ normalize_diacritics (t ++ u)
     = normalize_diacritics t ++ normalize_diacritics u
  /\ (List.length t <= List.length (normalize_diacritics t)
      <= 2 * List.length t)%nat.
Proof.
  assert (E : forall x, normalize_diacritics x = flat_map normalize_char x).
  { intros x. unfold normalize_diacritics.
    rewrite replace_all_lookup by reflexivity. reflexivity. }
  split; [apply E|]. split.
  - rewrite !E. apply flat_map_app.
  - rewrite E. apply flat_map_length_bounds, normalize_char_length.
Qed.

(** X2.  What [normalize_diacritics] returns holds no character of the
    table, and the function leaves such text as it is: applied twice it
    does what it does once. *)
Theorem normalize_diacritics_idempotent (t : str) :
  forallb (fun c => negb (is_diacritic c)) (normalize_diacritics t) = true
  /\ normalize_diacritics (normalize_diacritics t) = normalize_diacritics t.
Proof.
  split; [apply normalize_diacritics_plain|].
  apply normalize_diacritics_id, normalize_diacritics_plain.
Qed.

Section WithPy.
Context {py : PyText}.

(** The matches lie in the text one after the other. *)
Lemma findall_from_weave fuel : forall prev t,
  exists gap gaps,
    List.length gaps = List.length (findall_from fuel prev t)
    /\ t = weave gap (combine (findall_from fuel prev t) gaps).
Proof.
  induction fuel as [|fuel IH]; intros prev t.
  - exists t, []. simpl. now split.
  - destruct t as [|c t].
    + exists [], []. simpl. now split.
    + cbn [findall_from].
      destruct (match_here prev (c :: t)) as [k|] eqn:E.
      * destruct (IH (nth_error (c :: t) (Nat.pred k)) (skipn k (c :: t)))
          as (gap & gaps & Hl & Ht).
        exists [], (gap :: gaps). split; [simpl; now rewrite Hl|].
        cbn [combine weave app]. rewrite <- Ht.
        symmetry. apply firstn_skipn.
      * destruct (IH (Some c) t) as (gap & gaps & Hl & Ht).
        exists (c :: gap), gaps. split; [exact Hl|].
        destruct (combine _ gaps) as [|[w g] rest] eqn:C.
        -- simpl in *. now f_equal.
        -- cbn [weave] in *. simpl. now f_equal.
Qed.

(** X3.  Without normalization the tokens are runs of letters of the
    pattern, none empty, that lie in the text in the order of the list
    and do not overlap: the text is the tokens with gaps between. *)
Theorem raw_tokens_lie_in_text (text : str) :
  Forall (fun w => w <> [] /\ forallb latin_letter w = true)
         (tokenize text false)
  /\ exists gap gaps,
       List.length gaps = List.length (tokenize text false)
       /\ text = weave gap (combine (tokenize text false) gaps).
Proof.
  unfold tokenize, findall. split.
  - apply Forall_forall. intros w Hw.
    apply findall_from_letters in Hw. tauto.
  - apply findall_from_weave.
Qed.

End WithPy.
End TextMore.
(* ================================================================== *)
(** * More about a run of the pipeline *)

Module RunMore.
Import TextExtractor Vocabulary TokenizerFacts Downloader Analyzer.
Import DictFacts CountFacts GatherFacts ExecFacts PipelineFacts IndexFacts.
Import Aggregates.
Local Open Scope Z_scope.

(** The table of snippets after the statements [stmts], when it held
    [rows] before: the ids go on from the number of rows. *)
Fixpoint stored_snippets (rows : list SnippetRow) (stmts : list stmt)
  : list SnippetRow :=
  match stmts with
  | [] => rows
  | InsertSnippet word book_id context position :: stmts' =>
      stored_snippets
        (rows ++ [ {| s_id := len rows + 1;
                      s_word := word;
                      s_book_id := book_id;
                      s_context := context;
                      s_position_in_book := position |} ])
        stmts'
  | _ :: stmts' => stored_snippets rows stmts'
  end.

Lemma exec_snippets_rows stmts : forall d db,
  forallb is_insert_snippet stmts = true ->
  exec_all stmts {| disk := d; conn := Some db |}
  = ({| disk := d;
        conn := Some {| books := books db;
                        word_frequencies := word_frequencies db;
                        word_stats := word_stats db;
                        snippets := stored_snippets (snippets db) stmts |} |},
     true).
Proof.
  induction stmts as [|s stmts IH]; intros d db H.
  - simpl. now destruct db.
  - simpl in H. apply andb_true_iff in H. destruct H as [Hs H].
    destruct s; try discriminate.
    cbn [exec_all exec conn insert disk stored_snippets].
    rewrite (IH _ _ H). reflexivity.
Qed.

Section Full.
Context {py : PyText}.
Variable texts : str -> option str.
Variable metas : list BookMeta.
Hypothesis ids_distinct : NoDup (map book_id metas).
Variables min_word_freq max_snippets_per_book : Z.

(** The words that get snippets. *)
Definition common_words : list str :=
  map ws_word
      (filter (fun r => min_word_freq <=? ws_total_count r)
              (word_stats (index texts metas))).

Definition snippet_statements : list stmt :=
  store_snippets max_snippets_per_book
                 (book_texts (fst (gathered texts metas))) common_words.

(** The database a run leaves. *)
Definition full_index : DB :=
  {| books := books (index texts metas);
     word_frequencies := word_frequencies (index texts metas);
     word_stats := word_stats (index texts metas);
     snippets := stored_snippets [] snippet_statements |}.

Lemma analysis_full st :
  exec_all (analysis texts metas min_word_freq max_snippets_per_book) st
  = ({| disk := Some full_index; conn := None |}, true).
Proof.
  unfold full_index, snippet_statements, common_words. unfold analysis.
  pose proof (gathered_books texts metas) as Hb.
  cbn [index books word_frequencies word_stats].
  unfold frequencies, totals, indexed.
  destruct (gathered texts metas) as [g books_out] eqn:Eg.
  cbn [snd] in Hb. subst books_out.
  unfold stats. rewrite stat_fold. cbn [app fst].
  cbn [create_database app exec_all exec disk conn].
  rewrite <- (map_map (book_row texts) InsertBook).
  rewrite exec_all_app, exec_books.
  2:{ cbn [books empty_db app]. rewrite map_map. cbn [b_book_id book_row].
      apply NoDup_map_filter, ids_distinct. }
  cbn [fst snd app books word_frequencies word_stats snippets empty_db].
  rewrite exec_all_app, exec_frequencies.
  2:{ cbn [word_frequencies app].
      pose proof (gathered_NoDup texts metas) as N1.
      pose proof (frequencies_NoDup texts metas ids_distinct) as N2.
      unfold frequencies in N2. rewrite Eg in N1, N2. cbn [fst] in N1, N2.
      now apply NoDup_frequency_keys. }
  cbn [fst snd app books word_frequencies word_stats snippets].
  rewrite exec_all_app, exec_stats.
  2:{ cbn [word_stats app]. rewrite map_map. cbn [ws_word stat_row fst].
      pose proof (gathered_NoDup texts metas) as N1.
      rewrite Eg in N1. exact N1. }
  cbn [fst snd app books word_frequencies word_stats snippets].
  rewrite exec_all_app, exec_snippets_rows by apply store_snippets_inserts.
  cbn [fst snd app books word_frequencies word_stats snippets
       exec_all exec conn disk].
  reflexivity.
Qed.

End Full.

Lemma rebuild_full {py : PyText} texts min_word_freq max_snippets_per_book st :
  rebuild texts min_word_freq max_snippets_per_book st
  = ({| disk := Some (full_index texts get_book_metadata
                                 min_word_freq max_snippets_per_book);
        conn := None |}, true).
Proof.
  unfold rebuild, run_analysis. apply analysis_full, book_ids_distinct.
Qed.

Definition distinct_tokens (ws : list str) : list str :=
  nodup (list_eq_dec N.eq_dec) ws.

Lemma count_word_in w ws : 0 < count_word w ws <-> In w ws.
Proof.
  unfold count_word. induction ws as [|x ws IH]; simpl.
  - unfold len. simpl. split; [lia|contradiction].
  - destruct (str_eqb w x) eqn:E.
    + apply str_eqb_eq in E. subst. rewrite len_cons.
      pose proof (len_nonneg (filter (str_eqb x) ws)). split; [now left|lia].
    + apply str_eqb_neq in E. rewrite IH. split; [now right|].
      intros [K|K]; [congruence|exact K].
Qed.

Lemma count_word_le w ws : count_word w ws <= len ws.
Proof.
  unfold count_word, len. apply inj_le. induction ws as [|x ws IH]; simpl;
    [lia|]. destruct (str_eqb w x); simpl; lia.
Qed.

Lemma in_keys_Counter w ws : In w (Dict.keys (Counter ws)) <-> In w ws.
Proof.
  rewrite <- get_in_keys, get_Counter, <- count_word_in.
  pose proof (count_word_nonneg w ws).
  destruct (Z.eqb_spec (count_word w ws) 0); split; try congruence; lia.
Qed.

(** As many keys as there are different tokens. *)
Lemma len_Counter ws : len (Counter ws) = len (distinct_tokens ws).
Proof.
  unfold len. f_equal.
  rewrite <- (length_map fst (Counter ws)). apply Permutation_length.
  apply NoDup_Permutation.
  - apply NoDup_Counter.
  - apply NoDup_nodup.
  - intros w. fold (Dict.keys (Counter ws)).
    rewrite in_keys_Counter. unfold distinct_tokens.
    now rewrite nodup_In.
Qed.

Lemma sum_positive {A} (f : A -> Z) l :
  (forall x, 0 <= f x) -> 0 < sum (map f l) -> exists x, In x l /\ 0 < f x.
Proof.
  intros Hf. induction l as [|x l IH]; cbn [map].
  - rewrite sum_nil. lia.
  - rewrite sum_cons. intros H.
    destruct (Z.eq_dec (f x) 0) as [E|E].
    + destruct IH as (y & Hy & Py); [lia|]. exists y. split; [now right|exact Py].
    + exists x. split; [now left|]. specialize (Hf x). lia.
Qed.

Section Tables.
Context {py : PyText}.
Variable texts : str -> option str.
Variable metas : list BookMeta.
Hypothesis ids_distinct : NoDup (map book_id metas).

Lemma index_books :
  books (index texts metas)
  = map (fun m =>
           {| b_book_id := book_id m;
              b_title := title m;
              b_sequence_index := sequence_index m;
              b_total_words := len (tokens_of texts m);
              b_unique_words := len (distinct_tokens (tokens_of texts m)) |})
        (indexed texts metas).
Proof.
  cbn [index books]. apply map_ext. intros m. unfold book_row.
  now rewrite len_Counter.
Qed.

Lemma in_column w l b c :
  In (b, c) (column w (map (counted texts) l)) ->
  exists m, In m l /\ book_id m = b
            /\ c = count_word w (tokens_of texts m) /\ 0 < c.
Proof.
  rewrite column_counted, in_flat_map. intros (m & Hm & H).
  pose proof (count_word_nonneg w (tokens_of texts m)).
  destruct (Z.eqb_spec (count_word w (tokens_of texts m)) 0);
    [contradiction|].
  destruct H as [[= <- <-]|[]]. exists m. repeat split; try assumption. lia.
Qed.

(** A row of word_frequencies stands for a word that occurs in an
    indexed book, with the number of its occurrences there. *)
Lemma in_index_frequencies_count r :
  In r (word_frequencies (index texts metas)) ->
  exists m,
    In m (indexed texts metas) /\ book_id m = wf_book_id r
    /\ wf_count r = count_word (wf_word r) (tokens_of texts m)
    /\ 0 < wf_count r
    /\ wf_relative_frequency r
       = calculate_relative_frequency (wf_count r)
                                      (len (tokens_of texts m)).
Proof.
  cbn [index word_frequencies]. rewrite in_flat_map.
  intros ([w bc] & Hw & Hr). apply in_frequency_rows in Hr.
  destruct Hr as (Ew & t & Hbc & Ht & Hrf).
  apply (in_frequencies texts metas ids_distinct) in Hw.
  destruct Hw as [-> _].
  apply in_column in Hbc. destruct Hbc as (m & Hm & Hid & Hc & Hpos).
  exists m. split; [exact Hm|]. split; [exact Hid|].
  rewrite Ew. split; [exact Hc|]. split; [exact Hpos|].
  rewrite Hrf. f_equal.
  rewrite (totals_indexed texts metas ids_distinct) in Ht.
  apply get_in in Ht. apply in_map_iff in Ht.
  destruct Ht as (m' & [= E1 E2] & Hm').
  assert (m' = m).
  { apply (NoDup_map_eq book_id (indexed texts metas));
      [apply NoDup_map_filter, ids_distinct|assumption..|congruence]. }
  subst. now symmetry.
Qed.

Lemma relative_frequency_range c t :
  0 < c -> c <= t ->
  (0 < calculate_relative_frequency c t)%Q
  /\ (calculate_relative_frequency c t <= inject_Z 10000)%Q.
Proof.
  intros Hc Ht. unfold calculate_relative_frequency.
  destruct (Z.eqb_spec t 0); [lia|].
  assert (Hq : (0 < inject_Z t)%Q).
  { assert (K : 0 < t) by lia. rewrite (Zlt_Qlt 0 t) in K. exact K. }
  assert (Hp : (0 < inject_Z c)%Q).
  { pose proof Hc as K. rewrite (Zlt_Qlt 0 c) in K. exact K. }
  assert (H1 : (0 < inject_Z c / inject_Z t)%Q).
  { apply Qlt_shift_div_l; [exact Hq|]. rewrite Qmult_0_l. exact Hp. }
  assert (H2 : (inject_Z c / inject_Z t <= 1)%Q).
  { apply Qle_shift_div_r; [exact Hq|]. rewrite Qmult_1_l.
    now rewrite <- Zle_Qle. }
  split.
  - apply Qmult_lt_0_compat; [exact H1|reflexivity].
  - rewrite <- (Qmult_1_l (inject_Z 10000)) at 2.
    apply Qmult_le_compat_r; [exact H2|discriminate].
Qed.

Lemma index_frequency_range r :
  In r (word_frequencies (index texts metas)) ->
  exists b,
    In b (books (index texts metas)) /\ b_book_id b = wf_book_id r
    /\ 1 <= wf_count r <= b_total_words b
    /\ (0 < wf_relative_frequency r)%Q
    /\ (wf_relative_frequency r <= inject_Z 10000)%Q.
Proof.
  intros Hr. apply in_index_frequencies_count in Hr.
  destruct Hr as (m & Hm & Hid & Hc & Hpos & Hrf).
  exists (book_row texts m). cbn [index books book_row b_book_id b_total_words].
  split; [now apply in_map|]. split; [exact Hid|].
  assert (Hle : wf_count r <= len (tokens_of texts m))
    by (rewrite Hc; apply count_word_le).
  split; [lia|]. rewrite Hrf. now apply relative_frequency_range.
Qed.

Lemma index_words_normalized r :
  In r (word_stats (index texts metas)) -> normalized (ws_word r).
Proof.
  intros Hr.
  destruct (in_index_stats texts metas ids_distinct r Hr) as (Hpos & _).
  unfold total_occurrences in Hpos. apply sum_positive in Hpos.
  - destruct Hpos as (m & _ & Hm). apply count_word_in in Hm.
    pose proof (tokenize_normalized (text_of texts m)) as T.
    rewrite Forall_forall in T. now apply T.
  - intros m. apply count_word_nonneg.
Qed.

End Tables.

(** X5.  The books table has one row for each entry of [BOOKS] whose
    text file is there, in the order of [BOOKS]; a book without file is
    skipped.  total_words is the number of tokens of the text and
    unique_words the number of different ones. *)
Theorem books_table (py : PyText) texts
    min_word_freq max_snippets_per_book st db :
  disk (fst (rebuild texts min_word_freq max_snippets_per_book st)) = Some db ->
  books db
  = map (fun m =>
           {| b_book_id := book_id m;
              b_title := title m;
              b_sequence_index := sequence_index m;
              b_total_words := len (tokens_of texts m);
              b_unique_words := len (distinct_tokens (tokens_of texts m)) |})
        (indexed texts get_book_metadata).
Proof.
  intros Hdb. apply rebuild_tables in Hdb. destruct Hdb as (-> & _).
  apply index_books.
Qed.

Lemma books_table_witness :
  disk (fst (rebuild (py := latin) two_books 2 5 no_file)) = Some two_books_db
  /\ books two_books_db
     = map (fun m =>
              {| b_book_id := book_id m;
                 b_title := title m;
                 b_sequence_index := sequence_index m;
                 b_total_words := len (tokens_of (py := latin) two_books m);
                 b_unique_words :=
                   len (distinct_tokens (tokens_of (py := latin) two_books m))
              |})
           (indexed two_books get_book_metadata).
Proof.
  assert (H1 : disk (fst (rebuild (py := latin) two_books 2 5 no_file))
               = Some two_books_db) by (vm_compute; reflexivity).
  split; [exact H1|].
  exact (books_table latin two_books 2 5 no_file two_books_db H1).
Defined.

(** X6.  Every row of word_frequencies has a count of at least one and
    at most the total_words of its book, and a relative frequency above
    0 and at most 10000. *)
Theorem frequency_rows_in_range (py : PyText) texts
    min_word_freq max_snippets_per_book st db r :
  disk (fst (rebuild texts min_word_freq max_snippets_per_book st)) = Some db ->
  In r (word_frequencies db) ->
  exists b,
    In b (books db) /\ b_book_id b = wf_book_id r
    /\ 1 <= wf_count r <= b_total_words b
    /\ (0 < wf_relative_frequency r)%Q
    /\ (wf_relative_frequency r <= inject_Z 10000)%Q.
Proof.
  intros Hdb Hr. apply rebuild_tables in Hdb. destruct Hdb as (Eb & Ef & _).
  rewrite Ef in Hr. rewrite Eb.
  apply index_frequency_range; [apply book_ids_distinct|exact Hr].
Qed.

Lemma frequency_rows_in_range_witness :
  let r := {| wf_word := arma; wf_book_id := of_string "praefatio";
              wf_count := 2;
              wf_relative_frequency :=
                calculate_relative_frequency 2 3 |} in
  disk (fst (rebuild (py := latin) two_books 2 5 no_file)) = Some two_books_db
  /\ In r (word_frequencies two_books_db)
  /\ exists b,
       In b (books two_books_db) /\ b_book_id b = wf_book_id r
       /\ 1 <= wf_count r <= b_total_words b
       /\ (0 < wf_relative_frequency r)%Q
       /\ (wf_relative_frequency r <= inject_Z 10000)%Q.
Proof.
  intros r.
  assert (H1 : disk (fst (rebuild (py := latin) two_books 2 5 no_file))
               = Some two_books_db) by (vm_compute; reflexivity).
  assert (H2 : In r (word_frequencies two_books_db))
    by (vm_compute; left; reflexivity).
  split; [exact H1|]. split; [exact H2|].
  exact (frequency_rows_in_range latin two_books 2 5 no_file
           two_books_db r H1 H2).
Defined.

(** X7.  Every word of word_stats is a run of the letters a to z with at
    least one letter: no capital, accent, digit or wildcard character is
    ever a key of the index. *)
Theorem stored_words_are_normalized (py : PyText) texts
    min_word_freq max_snippets_per_book st db r :
  disk (fst (rebuild texts min_word_freq max_snippets_per_book st)) = Some db ->
  In r (word_stats db) ->
  ws_word r <> [] /\ forallb is_az (ws_word r) = true.
Proof.
  intros Hdb Hr. apply rebuild_tables in Hdb. destruct Hdb as (_ & _ & Es).
  rewrite Es in Hr.
  apply (index_words_normalized texts get_book_metadata book_ids_distinct r Hr).
Qed.

Lemma stored_words_are_normalized_witness :
  let r := {| ws_word := arma; ws_total_count := 3; ws_book_count := 2;
              ws_mean_position := mean_position_of 5 3 |} in
  disk (fst (rebuild (py := latin) two_books 2 5 no_file)) = Some two_books_db
  /\ In r (word_stats two_books_db)
  /\ ws_word r <> [] /\ forallb is_az (ws_word r) = true.
Proof.
  intros r.
  assert (H1 : disk (fst (rebuild (py := latin) two_books 2 5 no_file))
               = Some two_books_db) by (vm_compute; reflexivity).
  assert (H2 : In r (word_stats two_books_db))
    by (vm_compute; left; reflexivity).
  split; [exact H1|]. split; [exact H2|].
  exact (stored_words_are_normalized latin two_books 2 5 no_file
           two_books_db r H1 H2).
Defined.

End RunMore.
(* ================================================================== *)
(** * A run over files that may not be readable *)

Module Files.
Import TextExtractor Downloader Analyzer.
Import DictFacts CountFacts GatherFacts ExecFacts PipelineFacts IndexFacts.
Import Aggregates RunMore.
Local Open Scope Z_scope.

(** What [load_text] does for the text file of one book. *)
Inductive outcome :=
| NotFound              (* the file is not there: FileNotFoundError *)
| Unreadable            (* read_text raises: bytes that are not UTF-8
                           (UnicodeDecodeError), or a file that cannot
                           be opened *)
| Text (text : str).    (* the decoded text *)

Section Run.
Context {py : PyText}.
Variable files : str -> outcome.

(** The files as the loop sees them once [load_text] has gone through. *)
Definition readable (book_id : str) : option str :=
  match files book_id with
  | Text text => Some text
  | NotFound | Unreadable => None
  end.

Definition unreadable (meta : BookMeta) : bool :=
  match files (book_id meta) with
  | Unreadable => true
  | NotFound | Text _ => false
  end.

(** The loop over [book_metadata]: [FileNotFoundError] is caught and the
    book skipped, any other exception of [load_text] leaves the loop and
    [run_analysis] with it.  The flag tells whether the loop came to its
    end. *)
Fixpoint gather_books (book_metadata : list BookMeta)
    (acc : Gathered * list stmt) : Gathered * list stmt * bool :=
  match book_metadata with
  | [] => (acc, true)
  | meta :: book_metadata' =>
      match files (book_id meta) with
      | Unreadable => (acc, false)
      | NotFound | Text _ =>
          gather_books book_metadata' (gather_book readable acc meta)
      end
  end.

(** What [run_analysis] has sent to the database when it returns or
    when the exception leaves it, and whether it returned. *)
Definition statements (book_metadata : list BookMeta)
    (min_word_freq max_snippets_per_book : Z) : list stmt * bool :=
  let '(_, books_out, complete) :=
    gather_books book_metadata
      ({| all_frequencies := []; book_totals := []; book_texts := [] |}, [])
  in
  if complete
  then (analysis readable book_metadata min_word_freq max_snippets_per_book,
        true)
  else (create_database ++ books_out, false).

Definition run_on (book_metadata : list BookMeta)
    (min_word_freq max_snippets_per_book : Z) (st : store) : store * bool :=
  let (stmts, returned) :=
    statements book_metadata min_word_freq max_snippets_per_book in
  let (st', stored) := exec_all stmts st in
  (st', stored && returned).

(** [run_analysis] on the files, with nothing else in its way. *)
Definition run (min_word_freq max_snippets_per_book : Z) (st : store)
  : store * bool :=
  run_on get_book_metadata min_word_freq max_snippets_per_book st.

Definition all_readable (book_metadata : list BookMeta) : bool :=
  forallb (fun meta => negb (unreadable meta)) book_metadata.

Lemma gather_books_complete metas : forall acc,
  all_readable metas = true ->
  gather_books metas acc = (fold_left (gather_book readable) metas acc, true).
Proof.
  induction metas as [|m metas IH]; intros acc H; [reflexivity|].
  cbn [all_readable forallb] in H. apply andb_true_iff in H.
  destruct H as [Hm H]. cbn [gather_books fold_left].
  unfold unreadable in Hm.
  destruct (files (book_id m)); [now apply IH|discriminate Hm|now apply IH].
Qed.

Lemma gather_book_inserts acc m :
  forallb is_insert (snd acc) = true ->
  forallb is_insert (snd (gather_book readable acc m)) = true.
Proof.
  destruct acc as [g out]. cbn [snd]. intros H. unfold gather_book.
  destruct (load_text readable (book_id m)); cbn [snd]; [|exact H].
  rewrite forallb_app, H. reflexivity.
Qed.

Lemma gather_books_stopped metas : forall acc,
  all_readable metas = false ->
  forallb is_insert (snd acc) = true ->
  snd (gather_books metas acc) = false
  /\ forallb is_insert (snd (fst (gather_books metas acc))) = true.
Proof.
  induction metas as [|m metas IH]; intros acc H Hacc; [discriminate H|].
  cbn [all_readable forallb] in H. cbn [gather_books].
  unfold unreadable in H.
  destruct (files (book_id m)); cbn [negb andb] in H.
  - apply IH; [exact H|now apply gather_book_inserts].
  - now split.
  - apply IH; [exact H|now apply gather_book_inserts].
Qed.

(** After [create_database] the file holds the four tables, empty,
    whatever was there before. *)
Lemma exec_create_database st :
  exec_all create_database st
  = ({| disk := Some empty_db; conn := Some empty_db |}, true).
Proof. reflexivity. Qed.

Section Books.
Variable metas : list BookMeta.
Hypothesis ids_distinct : NoDup (map book_id metas).
Variables min_word_freq max_snippets_per_book : Z.

Lemma run_on_spec st :
  snd (run_on metas min_word_freq max_snippets_per_book st)
  = all_readable metas
  /\ if all_readable metas
     then fst (run_on metas min_word_freq max_snippets_per_book st)
          = {| disk := Some (full_index readable metas min_word_freq
                                        max_snippets_per_book);
               conn := None |}
     else disk (fst (run_on metas min_word_freq max_snippets_per_book st))
          = Some empty_db.
Proof.
  unfold run_on, statements.
  destruct (all_readable metas) eqn:A.
  - rewrite (gather_books_complete metas _ A).
    destruct (fold_left _ metas _) as [g out].
    rewrite (analysis_full readable metas ids_distinct). now split.
  - destruct (gather_books_stopped metas
                ({| all_frequencies := []; book_totals := [];
                    book_texts := [] |}, []) A eq_refl) as [S I].
    destruct (gather_books metas _) as [[g out] complete].
    cbn [fst snd] in S, I. subst complete.
    rewrite exec_all_app, exec_create_database. cbn [fst snd].
    pose proof (exec_all_inserts_disk out
                  {| disk := Some empty_db; conn := Some empty_db |} I) as D.
    destruct (exec_all out _) as [st' stored]. cbn [fst snd disk] in *.
    split; [apply andb_false_r|exact D].
Qed.

End Books.
End Run.

(** X4.  A run that nothing else interrupts returns exactly when
    [load_text] raises nothing but [FileNotFoundError] for the books of
    [BOOKS]: a missing file is skipped, a file that cannot be read or
    decoded ends the run with the exception.  When the run returns, no
    insert has met a key that is already there, whatever the texts are
    and whatever was on disk before, be it the database of an earlier
    run; the connection is closed and the database depends on the texts
    and the two options only.  When the run is ended by the exception,
    the file holds the four tables, empty. *)
Theorem run_returns_iff_files_readable (py : PyText) (files : str -> outcome)
    (min_word_freq max_snippets_per_book : Z) (st : store) :
  snd (run files min_word_freq max_snippets_per_book st)
  = all_readable files get_book_metadata
  /\ if all_readable files get_book_metadata
     then fst (run files min_word_freq max_snippets_per_book st)
          = {| disk := Some (full_index (readable files) get_book_metadata
                                        min_word_freq max_snippets_per_book);
               conn := None |}
     else disk (fst (run files min_word_freq max_snippets_per_book st))
          = Some empty_db.
Proof. apply run_on_spec, book_ids_distinct. Qed.

(** The two books of the example, and a third file that is not UTF-8:
    the run raises and leaves the tables empty. *)
Lemma run_on_a_file_that_is_not_utf8 :
  let files := fun book_id =>
    if str_eqb book_id (of_string "7") then Unreadable
    else match two_books book_id with
         | Some text => Text text
         | None => NotFound
         end in
  snd (run (py := latin) files 2 5 Queries.two_books_store) = false
  /\ disk (fst (run (py := latin) files 2 5 Queries.two_books_store))
     = Some empty_db.
Proof. split; vm_compute; reflexivity. Qed.

End Files.
(* ================================================================== *)
(** * How the tables of a run hang together *)

Module Integrity.
Import TextExtractor Vocabulary TokenizerFacts Downloader Analyzer.
Import DictFacts CountFacts GatherFacts ExecFacts PipelineFacts IndexFacts.
Import Aggregates SnippetFacts TextMore RunMore.
Local Open Scope Z_scope.

Lemma filter_all {A} (p : A -> bool) l :
  (forall x, In x l -> p x = true) -> filter p l = l.
Proof.
  induction l as [|x l IH]; simpl; intros H; [reflexivity|].
  rewrite (H x (or_introl eq_refl)). f_equal. apply IH.
  intros y Hy. apply H. now right.
Qed.

Lemma filter_none {A} (p : A -> bool) l :
  (forall x, In x l -> p x = false) -> filter p l = [].
Proof.
  induction l as [|x l IH]; simpl; intros H; [reflexivity|].
  rewrite (H x (or_introl eq_refl)). apply IH.
  intros y Hy. apply H. now right.
Qed.

(** Filtering what a keyed list produced, by a test that only looks at
    the key of the producer. *)
Lemma filter_flat_map_keyed {A B} (key : A -> str) (p : B -> bool)
    (f : A -> list B) (k : str) (l : list A) :
  NoDup (map key l) ->
  (forall x y, In x l -> In y (f x) -> p y = str_eqb (key x) k) ->
  filter p (flat_map f l)
  = match find (fun x => str_eqb (key x) k) l with
    | Some x => f x
    | None => []
    end.
Proof.
  induction l as [|x l IH]; intros Hnd Hp; [reflexivity|].
  inversion Hnd as [|? ? Hx Hl]; subst.
  cbn [flat_map find]. rewrite filter_app.
  assert (Hp' : forall x' y, In x' l -> In y (f x') ->
                             p y = str_eqb (key x') k).
  { intros x' y Hx' Hy. apply Hp; [now right|exact Hy]. }
  destruct (str_eqb (key x) k) eqn:E.
  - rewrite filter_all.
    + rewrite filter_none; [apply app_nil_r|].
      intros y Hy. apply in_flat_map in Hy. destruct Hy as (x' & Hx' & Hy).
      rewrite (Hp' x' y Hx' Hy). apply str_eqb_neq. intros K.
      apply str_eqb_eq in E. apply Hx. rewrite E, <- K. now apply in_map.
    + intros y Hy. rewrite (Hp x y (or_introl eq_refl) Hy). exact E.
  - rewrite filter_none.
    + simpl. now apply IH.
    + intros y Hy. rewrite (Hp x y (or_introl eq_refl) Hy). exact E.
Qed.

Lemma flat_map_ext_in {A B} (f g : A -> list B) l :
  (forall x, In x l -> f x = g x) -> flat_map f l = flat_map g l.
Proof.
  induction l as [|x l IH]; intros H; [reflexivity|].
  cbn [flat_map]. rewrite (H x (or_introl eq_refl)). f_equal.
  apply IH. intros y Hy. apply H. now right.
Qed.

Lemma find_keyed {A} (key : A -> str) (l : list A) x :
  NoDup (map key l) -> In x l ->
  find (fun y => str_eqb (key y) (key x)) l = Some x.
Proof.
  intros Hnd Hx.
  destruct (find _ l) as [y|] eqn:F.
  - apply find_some in F. destruct F as [Hy E]. apply str_eqb_eq in E.
    f_equal. now apply (NoDup_map_eq key l).
  - apply (find_none _ _ F) in Hx. now rewrite str_eqb_refl in Hx.
Qed.

Section Tables.
Context {py : PyText}.
Variable texts : str -> option str.
Variable metas : list BookMeta.
Hypothesis ids_distinct : NoDup (map book_id metas).

Lemma totals_get m :
  In m (indexed texts metas) ->
  Dict.get (book_id m) (totals texts metas) = Some (len (tokens_of texts m)).
Proof.
  intros Hm. rewrite (totals_indexed texts metas ids_distinct).
  apply in_get.
  - unfold Dict.keys. rewrite map_map. cbn [fst].
    apply NoDup_map_filter, ids_distinct.
  - apply in_map_iff. now exists m.
Qed.

(** Every book of a column has its total: no entry is dropped when the
    frequencies are stored. *)
Lemma frequency_rows_all w :
  frequency_rows (totals texts metas)
                 (w, column w (map (counted texts) (indexed texts metas)))
  = flat_map
      (fun m =>
         if count_word w (tokens_of texts m) =? 0 then []
         else [ {| wf_word := w;
                   wf_book_id := book_id m;
                   wf_count := count_word w (tokens_of texts m);
                   wf_relative_frequency :=
                     calculate_relative_frequency
                       (count_word w (tokens_of texts m))
                       (len (tokens_of texts m)) |} ])
      (indexed texts metas).
Proof.
  unfold frequency_rows. cbn [fst snd]. rewrite column_counted.
  rewrite flat_map_flat_map. apply flat_map_ext_in. intros m Hm.
  destruct (count_word w (tokens_of texts m) =? 0); [reflexivity|].
  cbn [flat_map fst snd]. rewrite (totals_get m Hm). reflexivity.
Qed.

Lemma frequencies_of_word w bc :
  In (w, bc) (frequencies texts metas) ->
  filter (fun f => str_eqb (wf_word f) w) (word_frequencies (index texts metas))
  = frequency_rows (totals texts metas) (w, bc).
Proof.
  intros H. cbn [index word_frequencies].
  rewrite (filter_flat_map_keyed fst _ _ w).
  - change w with (fst (w, bc)) at 1.
    rewrite (find_keyed fst _ (w, bc)); [reflexivity| |exact H].
    apply gathered_NoDup.
  - apply gathered_NoDup.
  - intros [w' bc'] r _ Hr. apply in_frequency_rows in Hr.
    destruct Hr as [-> _]. reflexivity.
Qed.

Lemma index_stats_consistent r :
  In r (word_stats (index texts metas)) ->
  ws_total_count r
  = sum (map wf_count
           (filter (fun f => str_eqb (wf_word f) (ws_word r))
                   (word_frequencies (index texts metas))))
  /\ ws_book_count r
     = len (filter (fun f => str_eqb (wf_word f) (ws_word r))
                   (word_frequencies (index texts metas)))
  /\ 1 <= ws_book_count r <= ws_total_count r.
Proof.
  cbn [index word_stats]. rewrite in_map_iff. intros ([w bc] & <- & H).
  cbn [stat_row ws_word ws_total_count ws_book_count fst snd].
  fold (word_frequencies (index texts metas)).
  rewrite (frequencies_of_word w bc H).
  apply (in_frequencies texts metas ids_distinct) in H.
  destruct H as [-> Hne].
  rewrite frequency_rows_all, column_counted.
  assert (Hne' : flat_map
            (fun m => if count_word w (tokens_of texts m) =? 0 then []
                      else [(book_id m, count_word w (tokens_of texts m))])
            (indexed texts metas) <> [])
    by (rewrite <- column_counted; exact Hne).
  clear Hne. unfold Dict.values, len.
  assert (G : forall l : list BookMeta,
    let col := flat_map
        (fun m => if count_word w (tokens_of texts m) =? 0 then []
                  else [(book_id m, count_word w (tokens_of texts m))]) l in
    let rows := flat_map
        (fun m =>
           if count_word w (tokens_of texts m) =? 0 then []
           else [ {| wf_word := w;
                     wf_book_id := book_id m;
                     wf_count := count_word w (tokens_of texts m);
                     wf_relative_frequency :=
                       calculate_relative_frequency
                         (count_word w (tokens_of texts m))
                         (len (tokens_of texts m)) |} ]) l in
    map snd col = map wf_count rows
    /\ List.length col = List.length rows
    /\ Z.of_nat (List.length col) <= sum (map snd col)).
  { induction l as [|m l IH]; cbn [flat_map map].
    - cbn. repeat split; lia.
    - cbv zeta in IH. destruct IH as (I1 & I2 & I3).
      pose proof (count_word_nonneg w (tokens_of texts m)) as P.
      destruct (count_word w (tokens_of texts m) =? 0) eqn:E.
      + cbn [app]. now repeat split.
      + apply Z.eqb_neq in E. cbn [app map List.length snd wf_count].
        rewrite !sum_cons. repeat split; [now f_equal|now f_equal|lia]. }
  specialize (G (indexed texts metas)). cbv zeta in G.
  destruct G as (G1 & G2 & G3).
  unfold len in G1, G2. rewrite <- G1, <- G2. repeat split; try lia.
  destruct (flat_map _ (indexed texts metas)) as [|e col] eqn:C;
    [now contradict Hne'|].
  cbn [List.length]. lia.
Qed.

End Tables.

(** X8.  word_stats agrees with word_frequencies: the total_count of a
    word is the sum of the counts of its rows there, and its book_count
    is the number of those rows, of which there is at least one. *)
Theorem stats_agree_with_frequencies (py : PyText) texts
    min_word_freq max_snippets_per_book st db r :
  disk (fst (rebuild texts min_word_freq max_snippets_per_book st)) = Some db ->
  In r (word_stats db) ->
  ws_total_count r
  = sum (map wf_count
           (filter (fun f => str_eqb (wf_word f) (ws_word r))
                   (word_frequencies db)))
  /\ ws_book_count r
     = len (filter (fun f => str_eqb (wf_word f) (ws_word r))
                   (word_frequencies db))
  /\ 1 <= ws_book_count r <= ws_total_count r.
Proof.
  intros Hdb Hr. apply rebuild_tables in Hdb. destruct Hdb as (_ & Ef & Es).
  rewrite Es in Hr. rewrite Ef.
  apply index_stats_consistent; [apply book_ids_distinct|exact Hr].
Qed.

Lemma stats_agree_with_frequencies_witness :
  let r := {| ws_word := arma; ws_total_count := 3; ws_book_count := 2;
              ws_mean_position := mean_position_of 5 3 |} in
  disk (fst (rebuild (py := latin) two_books 2 5 no_file)) = Some two_books_db
  /\ In r (word_stats two_books_db)
  /\ ws_total_count r
     = sum (map wf_count
              (filter (fun f => str_eqb (wf_word f) (ws_word r))
                      (word_frequencies two_books_db)))
  /\ ws_book_count r
     = len (filter (fun f => str_eqb (wf_word f) (ws_word r))
                   (word_frequencies two_books_db))
  /\ 1 <= ws_book_count r <= ws_total_count r.
Proof.
  intros r.
  assert (H1 : disk (fst (rebuild (py := latin) two_books 2 5 no_file))
               = Some two_books_db) by (vm_compute; reflexivity).
  assert (H2 : In r (word_stats two_books_db))
    by (vm_compute; left; reflexivity).
  split; [exact H1|]. split; [exact H2|].
  exact (stats_agree_with_frequencies latin two_books 2 5 no_file
           two_books_db r H1 H2).
Defined.

End Integrity.
(* ================================================================== *)
(** * The table of snippets *)

Module SnippetTable.
Import TextExtractor Vocabulary TokenizerFacts Downloader Analyzer.
Import DictFacts CountFacts GatherFacts ExecFacts PipelineFacts IndexFacts.
Import Aggregates SnippetFacts TextMore RunMore Integrity.
Local Open Scope Z_scope.

(** The INSERT that wrote a row, and what a row keeps of the snippet. *)
Definition as_insert (s : SnippetRow) : stmt :=
  InsertSnippet (s_word s) (s_book_id s) (s_context s) (s_position_in_book s).

Definition snippet_of_row (s : SnippetRow) : Snippet :=
  {| context := s_context s; position := s_position_in_book s |}.

Definition of_word_and_book (w b : str) (s : SnippetRow) : bool :=
  str_eqb (s_word s) w && str_eqb (s_book_id s) b.

Definition inserted_snippet (s : stmt) : Snippet :=
  match s with
  | InsertSnippet _ _ c p => {| context := c; position := p |}
  | _ => {| context := []; position := 0 |}
  end.

Definition inserts_word (w : str) (s : stmt) : bool :=
  match s with InsertSnippet w' _ _ _ => str_eqb w' w | _ => false end.

Definition inserts_book (b : str) (s : stmt) : bool :=
  match s with InsertSnippet _ b' _ _ => str_eqb b' b | _ => false end.

Lemma stored_snippets_spec stmts : forall rows,
  forallb is_insert_snippet stmts = true ->
  map as_insert (stored_snippets rows stmts) = map as_insert rows ++ stmts
  /\ map s_id (stored_snippets rows stmts)
     = map s_id rows
         ++ map Z.of_nat (seq (S (List.length rows)) (List.length stmts)).
Proof.
  induction stmts as [|s stmts IH]; intros rows H.
  - simpl. now rewrite !app_nil_r.
  - simpl in H. apply andb_true_iff in H. destruct H as [Hs H].
    destruct s as [| | | | | | |w b c p]; try discriminate.
    cbn [stored_snippets].
    destruct (IH (rows ++ [ {| s_id := len rows + 1; s_word := w;
                               s_book_id := b; s_context := c;
                               s_position_in_book := p |} ]) H)
      as [I1 I2].
    rewrite I1, I2, !map_app, <- !app_assoc. cbn [map app as_insert s_word
      s_book_id s_context s_position_in_book s_id List.length seq].
    split; [reflexivity|]. f_equal. f_equal.
    + unfold len. lia.
    + rewrite length_app. cbn [List.length]. now rewrite Nat.add_1_r.
Qed.

Lemma filter_map_comm {A B} (f : A -> B) (p : B -> bool) l :
  filter p (map f l) = map f (filter (fun x => p (f x)) l).
Proof.
  induction l as [|x l IH]; simpl; [reflexivity|].
  destruct (p (f x)); simpl; now rewrite IH.
Qed.

Lemma filter_and {A} (p q : A -> bool) l :
  filter (fun x => p x && q x) l = filter q (filter p l).
Proof.
  induction l as [|x l IH]; simpl; [reflexivity|].
  destruct (p x); simpl; [destruct (q x)|]; now rewrite IH.
Qed.

Section Full.
Context {py : PyText}.
Variable texts : str -> option str.
Variable metas : list BookMeta.
Hypothesis ids_distinct : NoDup (map book_id metas).
Variables min_word_freq max_snippets_per_book : Z.

Lemma table_inserts : map as_insert (stored_snippets [] (snippet_statements texts metas min_word_freq max_snippets_per_book)) = (snippet_statements texts metas min_word_freq max_snippets_per_book).
Proof.
  destruct (stored_snippets_spec (snippet_statements texts metas min_word_freq max_snippets_per_book) []) as [H _];
    [apply store_snippets_inserts|exact H].
Qed.

Lemma table_ids :
  map s_id (stored_snippets [] (snippet_statements texts metas min_word_freq max_snippets_per_book)) = map Z.of_nat (seq 1 (List.length (stored_snippets [] (snippet_statements texts metas min_word_freq max_snippets_per_book)))).
Proof.
  destruct (stored_snippets_spec (snippet_statements texts metas min_word_freq max_snippets_per_book) []) as [H1 H2];
    [apply store_snippets_inserts|].
  rewrite H2. cbn [map app List.length]. do 2 f_equal.
  rewrite <- (length_map as_insert), H1. reflexivity.
Qed.

Lemma common_words_NoDup : NoDup (common_words texts metas min_word_freq).
Proof.
  unfold common_words. apply NoDup_map_filter.
  apply index_stats_NoDup.
Qed.

Lemma in_common_words w :
  In w (common_words texts metas min_word_freq) <->
  exists r, In r (word_stats (index texts metas)) /\ ws_word r = w
            /\ min_word_freq <= ws_total_count r.
Proof.
  unfold common_words. rewrite in_map_iff. split.
  - intros (r & E & Hr). apply filter_In in Hr. destruct Hr as [Hr L].
    apply Z.leb_le in L. now exists r.
  - intros (r & Hr & E & L). exists r. split; [exact E|].
    apply filter_In. split; [exact Hr|]. now apply Z.leb_le.
Qed.

(** What is sent for one word and one book. *)
Lemma statements_of w b :
  filter (inserts_book b) (filter (inserts_word w) (snippet_statements texts metas min_word_freq max_snippets_per_book))
  = if existsb (str_eqb w) (common_words texts metas min_word_freq)
    then match find (fun m => str_eqb (book_id m) b) (indexed texts metas) with
         | Some m =>
             map (fun sn => InsertSnippet w (book_id m) (context sn)
                                          (position sn))
                 (extract_snippets (text_of texts m) w 50
                                   max_snippets_per_book)
         | None => []
         end
    else [].
Proof.
  unfold snippet_statements, store_snippets.
  rewrite (filter_flat_map_keyed (fun x : str => x) _ _ w).
  - destruct (find (fun x : str => str_eqb x w) (common_words texts metas min_word_freq)) as [w'|] eqn:F.
    + apply find_some in F. destruct F as [Hw E]. apply str_eqb_eq in E.
      subst w'.
      assert (X : existsb (str_eqb w) (common_words texts metas min_word_freq) = true).
      { apply existsb_exists. exists w. split; [exact Hw|apply str_eqb_refl]. }
      rewrite X. rewrite (gathered_texts texts metas ids_distinct).
      fold (indexed texts metas).
      rewrite flat_map_concat_map, map_map, <- flat_map_concat_map.
      rewrite (filter_flat_map_keyed book_id _ _ b).
      * reflexivity.
      * apply NoDup_map_filter, ids_distinct.
      * intros m s _ Hs. apply in_map_iff in Hs. destruct Hs as (sn & <- & _).
        reflexivity.
    + destruct (existsb (str_eqb w) (common_words texts metas min_word_freq)) eqn:X; [|reflexivity].
      apply existsb_exists in X. destruct X as (w' & Hw & E).
      apply str_eqb_eq in E. subst w'.
      apply (find_none _ _ F) in Hw. now rewrite str_eqb_refl in Hw.
  - rewrite map_id. apply common_words_NoDup.
  - intros w' s _ Hs. apply in_flat_map in Hs. destruct Hs as ([b' t] & _ & Hs).
    apply in_map_iff in Hs. destruct Hs as (sn & <- & _). reflexivity.
Qed.

Lemma table_of w b :
  map snippet_of_row (filter (of_word_and_book w b) (stored_snippets [] (snippet_statements texts metas min_word_freq max_snippets_per_book)))
  = if existsb (str_eqb w) (common_words texts metas min_word_freq)
    then match find (fun m => str_eqb (book_id m) b) (indexed texts metas) with
         | Some m => extract_snippets (text_of texts m) w 50
                                      max_snippets_per_book
         | None => []
         end
    else [].
Proof.
  pose proof (statements_of w b) as S.
  rewrite <- table_inserts in S. rewrite !filter_map_comm in S.
  apply (f_equal (map inserted_snippet)) in S. rewrite map_map in S.
  rewrite <- filter_and in S.
  etransitivity; [|etransitivity; [exact S|]].
  - reflexivity.
  - destruct (existsb (str_eqb w) (common_words texts metas min_word_freq)); [|reflexivity].
    destruct (find _ (indexed texts metas)) as [m|]; [|reflexivity].
    rewrite map_map. cbn [inserted_snippet].
    rewrite <- (map_id (extract_snippets _ _ _ _)) at 2.
    apply map_ext. now intros [c p].
Qed.

Lemma indexed_text m :
  In m (indexed texts metas) -> texts (book_id m) = Some (text_of texts m).
Proof.
  intros Hm. apply filter_In in Hm. destruct Hm as [_ Hm].
  unfold has_text in Hm. unfold text_of.
  destruct (texts (book_id m)); [reflexivity|discriminate Hm].
Qed.

Lemma table_rows s :
  In s (stored_snippets [] (snippet_statements texts metas min_word_freq max_snippets_per_book)) ->
  (exists r, In r (word_stats (index texts metas)) /\ ws_word r = s_word s
             /\ min_word_freq <= ws_total_count r)
  /\ (exists b text,
        In b (books (index texts metas)) /\ b_book_id b = s_book_id s
        /\ texts (s_book_id s) = Some text
        /\ In {| context := s_context s; position := s_position_in_book s |}
              (extract_snippets text (s_word s) 50 max_snippets_per_book))
  /\ map s_id (stored_snippets [] (snippet_statements texts metas min_word_freq max_snippets_per_book)) = map Z.of_nat (seq 1 (List.length (stored_snippets [] (snippet_statements texts metas min_word_freq max_snippets_per_book)))).
Proof.
  intros Hs. split; [|split; [|apply table_ids]].
  - apply (in_map as_insert) in Hs. rewrite table_inserts in Hs.
    unfold snippet_statements, store_snippets in Hs.
    apply in_flat_map in Hs. destruct Hs as (w & Hw & Hs).
    apply in_flat_map in Hs. destruct Hs as ([b t] & _ & Hs).
    apply in_map_iff in Hs. destruct Hs as (sn & E & _).
    injection E as E1 E2 E3 E4. subst w. now apply in_common_words.
  - apply (in_map as_insert) in Hs. rewrite table_inserts in Hs.
    unfold snippet_statements, store_snippets in Hs.
    apply in_flat_map in Hs. destruct Hs as (w & Hw & Hs).
    apply in_flat_map in Hs. destruct Hs as ([b t] & Hb & Hs).
    apply in_map_iff in Hs. destruct Hs as (sn & E & Hsn).
    injection E as E1 E2 E3 E4. subst w b.
    rewrite (gathered_texts texts metas ids_distinct) in Hb.
    apply in_map_iff in Hb. destruct Hb as (m & [= Eb Et] & Hm).
    exists (book_row texts m), (text_of texts m).
    split; [cbn [index books]; apply in_map; exact Hm|].
    split; [exact Eb|]. split; [rewrite <- Eb; now apply indexed_text|].
    rewrite Et, <- E3, <- E4. now destruct sn.
Qed.

Lemma common_word_test r :
  In r (word_stats (index texts metas)) ->
  existsb (str_eqb (ws_word r)) (common_words texts metas min_word_freq)
  = (min_word_freq <=? ws_total_count r).
Proof.
  intros Hr. destruct (Z.leb_spec min_word_freq (ws_total_count r)) as [L|L].
  - apply existsb_exists. exists (ws_word r). split; [|apply str_eqb_refl].
    apply in_common_words. now exists r.
  - destruct (existsb _ (common_words texts metas min_word_freq)) eqn:X; [exfalso|reflexivity].
    apply existsb_exists in X. destruct X as (w & Hw & E).
    apply str_eqb_eq in E. subst w. apply in_common_words in Hw.
    destruct Hw as (r' & Hr' & E & L').
    assert (r' = r)
      by (apply (NoDup_map_eq ws_word (word_stats (index texts metas)));
          [apply index_stats_NoDup|assumption..]).
    subst r'. lia.
Qed.

Lemma table_of_row r b text :
  In r (word_stats (index texts metas)) ->
  In b (books (index texts metas)) ->
  texts (b_book_id b) = Some text ->
  map snippet_of_row
      (filter (of_word_and_book (ws_word r) (b_book_id b)) (stored_snippets [] (snippet_statements texts metas min_word_freq max_snippets_per_book)))
  = if min_word_freq <=? ws_total_count r
    then extract_snippets text (ws_word r) 50 max_snippets_per_book
    else [].
Proof.
  intros Hr Hb Ht. rewrite table_of, (common_word_test r Hr).
  destruct (min_word_freq <=? ws_total_count r); [|reflexivity].
  cbn [index books] in Hb. apply in_map_iff in Hb.
  destruct Hb as (m & <- & Hm). cbn [book_row b_book_id] in *.
  rewrite (find_keyed book_id (indexed texts metas) m);
    [|apply NoDup_map_filter, ids_distinct|exact Hm].
  rewrite (indexed_text m Hm) in Ht. injection Ht as <-. reflexivity.
Qed.

Lemma table_capped w b :
  1 <= max_snippets_per_book ->
  len (filter (of_word_and_book w b) (stored_snippets [] (snippet_statements texts metas min_word_freq max_snippets_per_book))) <= max_snippets_per_book.
Proof.
  intros H.
  assert (E : len (filter (of_word_and_book w b) (stored_snippets [] (snippet_statements texts metas min_word_freq max_snippets_per_book)))
              = len (map snippet_of_row
                         (filter (of_word_and_book w b) (stored_snippets [] (snippet_statements texts metas min_word_freq max_snippets_per_book)))))
    by (unfold len; now rewrite length_map).
  rewrite E, table_of.
  destruct (existsb _ (common_words texts metas min_word_freq)); [|unfold len; simpl; lia].
  destruct (find _ (indexed texts metas)) as [m|]; [|unfold len; simpl; lia].
  now apply extract_snippets_bound.
Qed.

End Full.

Lemma rebuild_snippets {py : PyText} texts min_word_freq max_snippets_per_book
    st db :
  disk (fst (rebuild texts min_word_freq max_snippets_per_book st)) = Some db ->
  snippets db
  = stored_snippets []
      (snippet_statements texts get_book_metadata min_word_freq
                          max_snippets_per_book).
Proof.
  rewrite rebuild_full. cbn [fst disk]. intros [= <-].
  unfold full_index. cbn [snippets]. reflexivity.
Qed.

(** X9.  Every row of snippets belongs to a word of word_stats whose
    total_count reaches min_word_freq and to a book of the books table,
    and is a snippet that [extract_snippets] finds for that word in the
    text of that book, with 50 characters of context and the cap of the
    run.  The ids count the rows from 1. *)
Theorem snippet_rows_come_from_the_texts (py : PyText) texts
    min_word_freq max_snippets_per_book st db s :
  disk (fst (rebuild texts min_word_freq max_snippets_per_book st)) = Some db ->
  In s (snippets db) ->
  (exists r, In r (word_stats db) /\ ws_word r = s_word s
             /\ min_word_freq <= ws_total_count r)
  /\ (exists b text,
        In b (books db) /\ b_book_id b = s_book_id s
        /\ texts (s_book_id s) = Some text
        /\ In {| context := s_context s; position := s_position_in_book s |}
              (extract_snippets text (s_word s) 50 max_snippets_per_book))
  /\ map s_id (snippets db)
     = map Z.of_nat (seq 1 (List.length (snippets db))).
Proof.
  intros Hdb Hs. pose proof (rebuild_snippets _ _ _ _ _ Hdb) as E.
  apply rebuild_tables in Hdb. destruct Hdb as (Eb & _ & Es).
  rewrite E in Hs. rewrite E, Eb, Es.
  apply (table_rows texts get_book_metadata book_ids_distinct), Hs.
Qed.

Lemma snippet_rows_come_from_the_texts_witness :
  let s := {| s_id := 1; s_word := arma; s_book_id := of_string "praefatio";
              s_context := of_string "arma virumque arma";
              s_position_in_book := 0 |} in
  disk (fst (rebuild (py := latin) two_books 2 5 no_file)) = Some two_books_db
  /\ In s (snippets two_books_db)
  /\ (exists r, In r (word_stats two_books_db) /\ ws_word r = s_word s
                /\ 2 <= ws_total_count r)
  /\ (exists b text,
        In b (books two_books_db) /\ b_book_id b = s_book_id s
        /\ two_books (s_book_id s) = Some text
        /\ In {| context := s_context s; position := s_position_in_book s |}
              (extract_snippets (py := latin) text (s_word s) 50 5))
  /\ map s_id (snippets two_books_db)
     = map Z.of_nat (seq 1 (List.length (snippets two_books_db))).
Proof.
  intros s.
  assert (H1 : disk (fst (rebuild (py := latin) two_books 2 5 no_file))
               = Some two_books_db) by (vm_compute; reflexivity).
  assert (H2 : In s (snippets two_books_db))
    by (vm_compute; left; reflexivity).
  split; [exact H1|]. split; [exact H2|].
  exact (snippet_rows_come_from_the_texts latin two_books 2 5 no_file
           two_books_db s H1 H2).
Defined.

(** X10.  The rows of snippets for a word of word_stats and a book of
    the books table are, in the order of their ids, the snippets that
    [extract_snippets] returns for the word in the text of the book when
    the total_count of the word reaches min_word_freq; a rarer word has
    no row at all. *)
Theorem snippets_of_word_in_book (py : PyText) texts
    min_word_freq max_snippets_per_book st db r b text :
  disk (fst (rebuild texts min_word_freq max_snippets_per_book st)) = Some db ->
  In r (word_stats db) ->
  In b (books db) ->
  texts (b_book_id b) = Some text ->
  map snippet_of_row
      (filter (of_word_and_book (ws_word r) (b_book_id b)) (snippets db))
  = if min_word_freq <=? ws_total_count r
    then extract_snippets text (ws_word r) 50 max_snippets_per_book
    else [].
Proof.
  intros Hdb Hr Hb Ht. pose proof (rebuild_snippets _ _ _ _ _ Hdb) as E.
  apply rebuild_tables in Hdb. destruct Hdb as (Eb & _ & Es).
  rewrite Es in Hr. rewrite Eb in Hb. rewrite E.
  apply (table_of_row texts get_book_metadata book_ids_distinct); assumption.
Qed.

Lemma snippets_of_word_in_book_witness :
  let r := {| ws_word := arma; ws_total_count := 3; ws_book_count := 2;
              ws_mean_position := mean_position_of 5 3 |} in
  let b := {| b_book_id := of_string "praefatio";
              b_title := of_string "Praefatio";
              b_sequence_index := 0; b_total_words := 3;
              b_unique_words := 2 |} in
  let text := of_string "arma virumque arma" in
  disk (fst (rebuild (py := latin) two_books 2 5 no_file)) = Some two_books_db
  /\ In r (word_stats two_books_db)
  /\ In b (books two_books_db)
  /\ two_books (b_book_id b) = Some text
  /\ map snippet_of_row
         (filter (of_word_and_book (ws_word r) (b_book_id b))
                 (snippets two_books_db))
     = if 2 <=? ws_total_count r
       then extract_snippets (py := latin) text (ws_word r) 50 5
       else [].
Proof.
  intros r b text.
  assert (H1 : disk (fst (rebuild (py := latin) two_books 2 5 no_file))
               = Some two_books_db) by (vm_compute; reflexivity).
  assert (H2 : In r (word_stats two_books_db))
    by (vm_compute; left; reflexivity).
  assert (H3 : In b (books two_books_db))
    by (vm_compute; left; reflexivity).
  assert (H4 : two_books (b_book_id b) = Some text)
    by (vm_compute; reflexivity).
  split; [exact H1|]. split; [exact H2|]. split; [exact H3|].
  split; [exact H4|].
  exact (snippets_of_word_in_book latin two_books 2 5 no_file
           two_books_db r b text H1 H2 H3 H4).
Defined.

(** X11.  With a cap of at least one, the snippets table never holds
    more rows for a word and a book than the cap. *)
Theorem stored_snippets_capped (py : PyText) texts
    min_word_freq max_snippets_per_book st db w b :
  1 <= max_snippets_per_book ->
  disk (fst (rebuild texts min_word_freq max_snippets_per_book st)) = Some db ->
  len (filter (of_word_and_book w b) (snippets db)) <= max_snippets_per_book.
Proof.
  intros Hmax Hdb. rewrite (rebuild_snippets _ _ _ _ _ Hdb).
  apply (table_capped texts get_book_metadata book_ids_distinct). exact Hmax.
Qed.

Lemma stored_snippets_capped_witness :
  1 <= 1
  /\ disk (fst (rebuild (py := latin) two_books 2 1 no_file))
     = Some (full_index (py := latin) two_books get_book_metadata 2 1)
  /\ len (filter (of_word_and_book arma (of_string "praefatio"))
                 (snippets (full_index (py := latin) two_books
                                       get_book_metadata 2 1))) <= 1.
Proof.
  assert (H1 : 1 <= 1) by lia.
  assert (H2 : disk (fst (rebuild (py := latin) two_books 2 1 no_file))
               = Some (full_index (py := latin) two_books
                                  get_book_metadata 2 1))
    by (vm_compute; reflexivity).
  split; [exact H1|]. split; [exact H2|].
  exact (stored_snippets_capped latin two_books 2 1 no_file _
           arma (of_string "praefatio") H1 H2).
Defined.

End SnippetTable.
(* ================================================================== *)
(** * More about the snippets of one text *)

Module SnippetMore.
Import TextExtractor TokenizerFacts Analyzer SnippetFacts.
Local Open Scope Z_scope.

Lemma firstn_plus {A} n m : forall l : list A,
  firstn (n + m) l = firstn n l ++ firstn m (skipn n l).
Proof.
  induction n as [|n IH]; intros l; [reflexivity|].
  destruct l as [|x l]; [now rewrite skipn_nil, !firstn_nil|].
  cbn [Nat.add firstn skipn app]. now rewrite IH.
Qed.

(** A stretch of the text cut in two. *)
Lemma stretch_split {A} (t : list A) a b c :
  (a <= b <= c)%nat ->
  firstn (c - a) (skipn a t)
  = firstn (b - a) (skipn a t) ++ firstn (c - b) (skipn b t).
Proof.
  intros H. replace (c - a)%nat with ((b - a) + (c - b))%nat by lia.
  rewrite firstn_plus, skipn_skipn. do 3 f_equal. lia.
Qed.

Lemma slice_inside (text : str) a b :
  0 <= a <= b -> b <= len text ->
  slice text a b = firstn (Z.to_nat b - Z.to_nat a) (skipn (Z.to_nat a) text).
Proof.
  intros H1 H2. unfold slice, slice_index.
  destruct (Z.ltb_spec a 0), (Z.ltb_spec b 0); try lia.
  rewrite !Z.min_l by lia. f_equal. lia.
Qed.

Lemma len_firstn_le {A} n (l : list A) : len (firstn n l) <= Z.of_nat n.
Proof. unfold len. pose proof (firstn_le_length n l). lia. Qed.

Lemma len_plus {A} (l l' : list A) : len (l ++ l') = len l + len l'.
Proof. unfold len. rewrite length_app. lia. Qed.

Section WithPy.
Context {py : PyText}.

(** The pattern [\b word \b] matches at offset [i] of [text]. *)
Definition occurs_at (word text : str) (i : nat) : Prop :=
  match_at word text i = true.

Lemma imatch_length word : forall text,
  imatch word text = true -> (List.length word <= List.length text)%nat.
Proof.
  induction word as [|w word IH]; intros [|c text]; simpl; try lia;
    try discriminate.
  rewrite andb_true_iff. intros [_ H]. apply IH in H. lia.
Qed.

Lemma imatch_firstn word : forall text,
  imatch word text = true -> imatch word (firstn (List.length word) text) = true.
Proof.
  induction word as [|w word IH]; intros [|c text]; simpl; try reflexivity;
    try discriminate.
  rewrite !andb_true_iff. intros [E H]. split; [exact E|now apply IH].
Qed.

Lemma match_at_fits word text i :
  match_at word text i = true ->
  (i + List.length word <= List.length text)%nat
  /\ imatch word (skipn i text) = true.
Proof.
  unfold match_at. rewrite !andb_true_iff. intros [[B H] _].
  split; [|exact H].
  destruct (Nat.le_gt_cases i (List.length text)) as [L|L].
  - apply imatch_length in H. rewrite length_skipn in H. lia.
  - exfalso. assert (E1 : nth_error text i = None)
      by (apply nth_error_None; lia).
    assert (E2 : char_before text i = None).
    { destruct i as [|j]; [reflexivity|]. simpl. apply nth_error_None. lia. }
    rewrite E1, E2 in B. discriminate B.
Qed.

(** What [finditer] reports: matches of the pattern, from the offset on. *)
Lemma finditer_from_sound word text fuel : forall i m,
  In m (finditer_from fuel word text i) ->
  (i <= fst m)%nat /\ snd m = (fst m + List.length word)%nat
  /\ match_at word text (fst m) = true.
Proof.
  induction fuel as [|fuel IH]; intros i m H; [contradiction|].
  cbn [finditer_from] in H.
  destruct (List.length text <? i)%nat; [contradiction|].
  destruct (match_at word text i) eqn:M.
  - destruct H as [<-|H]; [cbn [fst snd]; now repeat split|].
    apply IH in H. destruct H as (L & E & Hm).
    split; [|now split]. destruct word; cbn [List.length] in *; lia.
  - apply IH in H. destruct H as (L & E & Hm). split; [lia|now split].
Qed.

(** From left to right, each after the end of the one before. *)
Lemma finditer_from_sorted word text fuel : forall i,
  StronglySorted (fun a b => (fst a < fst b)%nat /\ (snd a <= fst b)%nat)
                 (finditer_from fuel word text i).
Proof.
  induction fuel as [|fuel IH]; intros i; [constructor|].
  cbn [finditer_from].
  destruct (List.length text <? i)%nat; [constructor|].
  destruct (match_at word text i); [|apply IH].
  constructor; [apply IH|]. apply Forall_forall. intros m Hm.
  apply finditer_from_sound in Hm. destruct Hm as (L & _ & _).
  cbn [fst snd]. destruct word; cbn [List.length] in *; lia.
Qed.

(** No match is passed over, unless an earlier one covers its start. *)
Lemma finditer_from_complete word text fuel : forall i j,
  (i <= j)%nat -> (List.length text < i + fuel)%nat ->
  match_at word text j = true ->
  exists m, In m (finditer_from fuel word text i)
            /\ (fst m = j \/ (fst m < j < snd m)%nat).
Proof.
  induction fuel as [|fuel IH]; intros i j Hij Hf Hj.
  - apply match_at_fits in Hj. lia.
  - cbn [finditer_from].
    pose proof (match_at_fits _ _ _ Hj) as [Fit _].
    destruct (Nat.ltb_spec (List.length text) i) as [L|L]; [lia|].
    destruct (match_at word text i) eqn:M.
    + destruct (Nat.eq_dec i j) as [->|Ne].
      * exists (j, (j + List.length word)%nat). split; [now left|now left].
      * destruct (Nat.lt_ge_cases j (i + List.length word)) as [In_|Out].
        -- exists (i, (i + List.length word)%nat). split; [now left|].
           right. cbn [fst snd]. lia.
        -- destruct (IH (match word with
                         | [] => S i
                         | _ => (i + List.length word)%nat
                         end) j) as (m & Hm & P).
           ++ destruct word; cbn [List.length] in *; lia.
           ++ destruct word; cbn [List.length] in *; lia.
           ++ exact Hj.
           ++ exists m. split; [now right|exact P].
    + assert (Ne : i <> j) by (intros ->; congruence).
      destruct (IH (S i) j) as (m & Hm & P); [lia|lia|exact Hj|].
      exists m. split; [exact Hm|exact P].
Qed.

(** The loop keeps the first matches, as many as the cap says and one at
    least. *)
Lemma snippets_loop_firstn text cc max ms : forall acc,
  len acc < Z.max 1 max ->
  snippets_loop text cc max ms acc
  = acc ++ map (snippet_of text cc)
               (firstn (Z.to_nat (Z.max 1 max - len acc)) ms).
Proof.
  induction ms as [|m ms IH]; intros acc H.
  - cbn [snippets_loop]. rewrite firstn_nil. cbn [map]. now rewrite app_nil_r.
  - cbn [snippets_loop].
    replace (Z.to_nat (Z.max 1 max - len acc))
      with (S (Z.to_nat (Z.max 1 max - len acc - 1))) by lia.
    cbn [firstn map].
    destruct (Z.leb_spec max (len (acc ++ [snippet_of text cc m]))) as [L|L].
    + rewrite len_app in L.
      replace (Z.to_nat (Z.max 1 max - len acc - 1)) with O
        by (unfold len in *; lia).
      reflexivity.
    + rewrite IH by (rewrite len_app in *; lia).
      rewrite <- app_assoc. cbn [app]. rewrite len_app.
      do 4 f_equal. lia.
Qed.

Lemma extract_snippets_eq text word cc max :
  extract_snippets text word cc max
  = map (snippet_of text cc)
        (firstn (Z.to_nat (Z.max 1 max)) (finditer word text)).
Proof.
  unfold extract_snippets. rewrite snippets_loop_firstn.
  - cbn [app]. unfold len. cbn [List.length]. now rewrite Z.sub_0_r.
  - unfold len. cbn [List.length]. lia.
Qed.

(** The context of a snippet around its match. *)
Lemma snippet_of_around text word cc i :
  0 <= cc -> match_at word text i = true ->
  exists before after,
    context (snippet_of text cc (i, (i + List.length word)%nat))
    = before ++ firstn (List.length word) (skipn i text) ++ after
    /\ len before <= cc + 3 /\ len after <= cc + 3.
Proof.
  intros Hcc M. apply match_at_fits in M. destruct M as [Fit _].
  rewrite snippet_of_context. unfold window_start, window_end.
  cbn [fst snd].
  set (ws := Z.max 0 (Z.of_nat i - cc)).
  set (we := Z.min (len text) (Z.of_nat (i + List.length word) + cc)).
  assert (Hws : 0 <= ws <= Z.of_nat i) by (unfold ws; lia).
  assert (Hwe : Z.of_nat (i + List.length word) <= we <= len text)
    by (unfold we, len; lia).
  rewrite slice_inside by lia.
  rewrite (stretch_split text (Z.to_nat ws) i (Z.to_nat we)) by lia.
  rewrite (stretch_split text i (i + List.length word) (Z.to_nat we)) by lia.
  replace (i + List.length word - i)%nat with (List.length word) by lia.
  exists ((if ws =? 0 then [] else ellipsis)
            ++ firstn (i - Z.to_nat ws) (skipn (Z.to_nat ws) text)),
         (firstn (Z.to_nat we - (i + List.length word))
                 (skipn (i + List.length word) text)
            ++ (if we =? len text then [] else ellipsis)).
  split; [now rewrite <- !app_assoc|].
  rewrite !len_plus.
  pose proof (len_firstn_le (i - Z.to_nat ws) (skipn (Z.to_nat ws) text)).
  pose proof (len_firstn_le (Z.to_nat we - (i + List.length word))
                            (skipn (i + List.length word) text)).
  assert (E3 : len ellipsis = 3) by reflexivity.
  assert (E0 : len (@nil char) = 0) by reflexivity.
  split.
  - destruct (ws =? 0); [rewrite E0|rewrite E3]; unfold ws in *; lia.
  - destruct (we =? len text); [rewrite E0|rewrite E3]; unfold we in *; lia.
Qed.

(** The snippets come in the order of the text, none before the end of
    the match before it. *)
Lemma extract_snippets_rise text word cc max_snippets :
  StronglySorted
    (fun a b => position a < position b
                /\ position a + len word <= position b)
    (extract_snippets text word cc max_snippets).
Proof.
  rewrite extract_snippets_eq.
  pose proof (finditer_from_sorted word text (S (List.length text)) O) as S.
  fold (finditer word text) in S.
  assert (A : forall m, In m (finditer word text) ->
                        snd m = (fst m + List.length word)%nat).
  { intros m Hm. now apply finditer_from_sound in Hm. }
  revert S A. generalize (finditer word text).
  generalize (Z.to_nat (Z.max 1 max_snippets)).
  intros n ms. revert n. induction ms as [|m ms IH]; intros n S A.
  - rewrite firstn_nil. constructor.
  - destruct n as [|n]; [constructor|]. cbn [firstn map].
    inversion S as [|? ? S' F]; subst.
    constructor; [apply IH; [exact S'|intros; apply A; now right]|].
    apply Forall_forall. intros s Hs. apply in_map_iff in Hs.
    destruct Hs as (m' & <- & Hm'). apply in_firstn in Hm'.
    rewrite Forall_forall in F. specialize (F m' Hm').
    cbn [snippet_of position]. rewrite (A m (or_introl eq_refl)) in F.
    unfold len. lia.
Qed.

End WithPy.

(** X12.  [extract_snippets] returns the snippets of the first matches
    of the pattern, in the order of the text: as many as the cap says
    when there are that many, and never fewer than one when the pattern
    matches at all, since the length is compared with the cap only after
    a snippet was appended. *)
Theorem extract_snippets_takes_first_matches (py : PyText)
    (text word : str) (context_chars max_snippets : Z) :
  extract_snippets text word context_chars max_snippets
  = map (snippet_of text context_chars)
        (firstn (Z.to_nat (Z.max 1 max_snippets)) (finditer word text)).
Proof. apply extract_snippets_eq. Qed.

(** X13.  Every snippet stands at an offset where the word is found in
    the text, compared as IGNORECASE compares and with a word boundary on
    either side, the whole match lying inside the text; the snippets
    come in the order of the text, and no match starts before the one
    before it has ended. *)
Theorem snippets_stand_at_matches (py : PyText)
    (text word : str) (context_chars max_snippets : Z) :
  Forall (fun s =>
            0 <= position s
            /\ position s + len word <= len text
            /\ occurs_at word text (Z.to_nat (position s))
            /\ imatch word (firstn (List.length word)
                                   (skipn (Z.to_nat (position s)) text))
               = true)
         (extract_snippets text word context_chars max_snippets)
  /\ StronglySorted
       (fun a b => position a < position b
                   /\ position a + len word <= position b)
       (extract_snippets text word context_chars max_snippets).
Proof.
  split.
  - rewrite extract_snippets_eq. apply Forall_forall. intros s Hs. apply in_map_iff in Hs.
    destruct Hs as (m & <- & Hm). apply in_firstn in Hm.
    apply finditer_from_sound in Hm. destruct Hm as (_ & _ & M).
    cbn [snippet_of position]. rewrite Nat2Z.id.
    pose proof (match_at_fits _ _ _ M) as [Fit I].
    split; [lia|]. split; [unfold len; lia|]. split; [exact M|].
    now apply imatch_firstn.
  - apply extract_snippets_rise.
Qed.

(** X14.  [extract_snippets] returns no snippet exactly when the
    pattern matches nowhere in the text: whatever the cap is, zero and
    negative numbers included, a word that stands in the text gets a
    snippet. *)
Theorem snippets_exist_iff_word_occurs (py : PyText)
    (text word : str) (context_chars max_snippets : Z) :
  extract_snippets text word context_chars max_snippets <> []
  <-> exists i, occurs_at word text i.
Proof.
  rewrite extract_snippets_eq. split.
  - intros H.
    destruct (firstn _ (finditer word text)) as [|m ms] eqn:E;
      [now contradict H|].
    assert (Hm : In m (finditer word text))
      by (apply (in_firstn m (Z.to_nat (Z.max 1 max_snippets)));
          rewrite E; now left).
    apply finditer_from_sound in Hm. exists (fst m). apply Hm.
  - intros (i & M).
    destruct (finditer_from_complete word text (S (List.length text)) O i)
      as (m & Hm & _); [lia|lia|exact M|].
    fold (finditer word text) in Hm.
    destruct (finditer word text) as [|m0 ms]; [contradiction|].
    replace (Z.to_nat (Z.max 1 max_snippets))
      with (S (Z.to_nat (Z.max 1 max_snippets - 1))) by lia.
    discriminate.
Qed.

(** X15.  With a window of zero or more characters, the context of a
    snippet holds the matched stretch of the text: it is that stretch
    with at most context_chars characters of text and an ellipsis on
    either side.  The context is never longer than the word, two windows
    and two ellipses. *)
Theorem snippet_context_holds_the_match (py : PyText)
    (text word : str) (context_chars max_snippets : Z) (s : Snippet) :
  0 <= context_chars ->
  In s (extract_snippets text word context_chars max_snippets) ->
  (exists before after,
     context s
     = before
         ++ firstn (List.length word) (skipn (Z.to_nat (position s)) text)
         ++ after
     /\ len before <= context_chars + 3
     /\ len after <= context_chars + 3)
  /\ len (context s) <= len word + 2 * context_chars + 6.
Proof.
  intros Hcc Hs. rewrite extract_snippets_eq in Hs. apply in_map_iff in Hs.
  destruct Hs as ([i j] & <- & Hm). apply in_firstn in Hm.
  apply finditer_from_sound in Hm. cbn [fst snd] in Hm.
  destruct Hm as (_ & -> & M).
  destruct (snippet_of_around text word context_chars i Hcc M)
    as (before & after & E & Hb & Ha).
  assert (P : position (snippet_of text context_chars
                                   (i, (i + List.length word)%nat))
              = Z.of_nat i) by reflexivity.
  rewrite P, Nat2Z.id. split.
  - exists before, after. now repeat split.
  - rewrite E, !len_plus.
    pose proof (len_firstn_le (List.length word) (skipn i text)).
    unfold len in *. lia.
Qed.

Lemma snippet_context_holds_the_match_witness :
  let text := of_string "Arma virumque arma, ARMA" in
  let word := of_string "arma" in
  let s := {| context := of_string "...ue arma, A..."; position := 14 |} in
  0 <= 3
  /\ In s (extract_snippets (py := latin) text word 3 2)
  /\ (exists before after,
        context s
        = before
            ++ firstn (List.length word)
                      (skipn (Z.to_nat (position s)) text)
            ++ after
        /\ len before <= 3 + 3 /\ len after <= 3 + 3)
  /\ len (context s) <= len word + 2 * 3 + 6.
Proof.
  intros text word s.
  assert (H0 : 0 <= 3) by lia.
  assert (H : In s (extract_snippets (py := latin) text word 3 2))
    by (vm_compute; right; left; reflexivity).
  split; [exact H0|]. split; [exact H|].
  exact (snippet_context_holds_the_match latin text word 3 2 s H0 H).
Defined.

End SnippetMore.
(* ================================================================== *)
(** * The other readers of the index *)

Module AnalyzerReads.
Import TextExtractor Downloader Analyzer.
Local Open Scope Z_scope.




Section Reads.
Context {py : PyText}.


(** The rows of idx_word_stats_position from the lowest mean_position
    up; rows with the same mean_position stand in the order of their
    insertion. *)
Definition by_mean_position (db : DB) : list WordStatRow :=
  order_by (fun a b => Qle_bool (ws_mean_position a) (ws_mean_position b))
           (word_stats db).

(** ORDER BY mean_position is answered by walking
    idx_word_stats_position, forwards for ASC and backwards for DESC, so
    that rows with the same mean_position come in the order of their
    insertion for ASC and in the reverse order for DESC.  [None]:
    sqlite3 raises, because the file has no tables or because min_count
    or limit does not fit 64 bits. *)
Definition get_words_by_position (ascending : bool) (min_count limit : Z)
    (st : store) : option (list WordStatRow) :=
  match bind_int min_count, bind_int limit, disk st with
  | Some min_count, Some limit, Some db =>
      Some (limit_rows limit
              (filter (fun r => min_count <=? ws_total_count r)
                      (if ascending then by_mean_position db
                       else rev (by_mean_position db))))
  | _, _, _ => None
  end.

End Reads.
End AnalyzerReads.

(* ================================================================== *)
(** * Reading the index that a run wrote *)

Module ReadFacts.
Import TextExtractor Vocabulary TokenizerFacts Downloader Analyzer.
Import DictFacts CountFacts GatherFacts ExecFacts PipelineFacts IndexFacts.
Import Aggregates QueryFacts SnippetFacts TextMore RunMore Integrity.
Import SnippetMore SnippetTable AnalyzerReads.
Local Open Scope Z_scope.


Lemma StronglySorted_filter {A} (R : A -> A -> Prop) p l :
  StronglySorted R l -> StronglySorted R (filter p l).
Proof.
  induction 1 as [|x l Hl IH Hx]; simpl; [constructor|].
  destruct (p x); [|exact IH]. constructor; [exact IH|].
  rewrite Forall_forall in *. intros y Hy. apply filter_In in Hy.
  now apply Hx.
Qed.



Lemma flat_map_nil_inv {A B} (f : A -> list B) l x :
  flat_map f l = [] -> In x l -> f x = [].
Proof.
  induction l as [|y l IH]; [contradiction|]. cbn [flat_map].
  intros H [->|Hx]; apply app_eq_nil in H; [tauto|]. now apply IH.
Qed.


Lemma flat_map_of_map {A B C} (g : A -> B) (f : B -> list C) l :
  flat_map f (map g l) = flat_map (fun x => f (g x)) l.
Proof. induction l as [|x l IH]; simpl; now rewrite ?IH. Qed.

Lemma StronglySorted_app {A} (R : A -> A -> Prop) l1 l2 :
  StronglySorted R l1 -> StronglySorted R l2 ->
  (forall y z, In y l1 -> In z l2 -> R y z) ->
  StronglySorted R (l1 ++ l2).
Proof.
  induction 1 as [|x l Hl IH Hx]; intros H2 H; [exact H2|].
  cbn [app]. constructor.
  - apply IH; [exact H2|]. intros y z Hy Hz. apply H; [now right|exact Hz].
  - rewrite Forall_forall in *. intros z Hz. apply in_app_or in Hz.
    destruct Hz as [Hz|Hz]; [now apply Hx|]. apply H; [now left|exact Hz].
Qed.



Section Reads.
Context {py : PyText}.
Variable texts : str -> option str.
Variable metas : list BookMeta.
Hypothesis ids_distinct : NoDup (map book_id metas).
Hypothesis sequence_rises :
  StronglySorted (fun a b => sequence_index a < sequence_index b) metas.

(** The row of word_frequencies for a word and a book. *)
Definition frequency_row (w : str) (m : BookMeta) : WordFrequencyRow :=
  {| wf_word := w;
     wf_book_id := book_id m;
     wf_count := count_word w (tokens_of texts m);
     wf_relative_frequency :=
       calculate_relative_frequency (count_word w (tokens_of texts m))
                                    (len (tokens_of texts m)) |}.






Variables min_word_freq max_snippets_per_book : Z.









End Reads.







End ReadFacts.
(* ================================================================== *)
(** * The rankings *)

Module Rankings.
Import TextExtractor Vocabulary TokenizerFacts Downloader Analyzer.
Import DictFacts CountFacts GatherFacts ExecFacts PipelineFacts IndexFacts.
Import Aggregates QueryFacts RunMore AnalyzerReads ReadFacts.
Local Open Scope Z_scope.


(** The word is matched by the pattern, as LIKE reads the two. *)
Definition matched_by (pattern : str) (r : WordStatRow) : bool :=
  pattern_compare (c_string pattern) (c_string (ws_word r)).

Lemma limit_rows_incl {A} n (l : list A) x : In x (limit_rows n l) -> In x l.
Proof.
  unfold limit_rows. destruct (n <? 0); [easy|].
  intros H. rewrite <- (firstn_skipn (Z.to_nat n) l). apply in_or_app.
  now left.
Qed.

Lemma StronglySorted_firstn {A} (R : A -> A -> Prop) n : forall l,
  StronglySorted R l -> StronglySorted R (firstn n l).
Proof.
  induction n as [|n IH]; intros l H; [constructor|].
  destruct H as [|x l Hl Hx]; [constructor|]. cbn [firstn].
  constructor; [now apply IH|]. rewrite Forall_forall in *.
  intros y Hy. apply Hx. rewrite <- (firstn_skipn n l). apply in_or_app.
  now left.
Qed.

Lemma limit_rows_sorted {A} (R : A -> A -> Prop) n l :
  StronglySorted R l -> StronglySorted R (limit_rows n l).
Proof.
  unfold limit_rows. destruct (n <? 0); [easy|]. apply StronglySorted_firstn.
Qed.

Lemma limit_rows_len {A} n (l : list A) :
  0 <= n -> len (limit_rows n l) <= n.
Proof.
  intros H. unfold limit_rows. destruct (Z.ltb_spec n 0); [lia|].
  unfold len. pose proof (firstn_le_length (Z.to_nat n) l). lia.
Qed.

Lemma limit_rows_all {A} n (l : list A) :
  n < 0 \/ len l <= n -> limit_rows n l = l.
Proof.
  unfold limit_rows, len. intros H. destruct (Z.ltb_spec n 0); [reflexivity|].
  apply firstn_all2. lia.
Qed.

Lemma StronglySorted_rev {A} (R : A -> A -> Prop) l :
  StronglySorted R l -> StronglySorted (fun a b => R b a) (rev l).
Proof.
  induction 1 as [|x l Hl IH Hx]; [constructor|]. cbn [rev].
  apply StronglySorted_app; [exact IH|repeat constructor|].
  intros y z Hy [<-|[]]. apply in_rev in Hy.
  rewrite Forall_forall in Hx. now apply Hx.
Qed.

Lemma filter_perm {A} (p : A -> bool) l l' :
  Permutation l l' -> Permutation (filter p l) (filter p l').
Proof.
  induction 1 as [|x l l' _ IH|x y l|l l' l'' _ IH1 _ IH2]; cbn [filter].
  - constructor.
  - destruct (p x); [now constructor|exact IH].
  - destruct (p x), (p y); try reflexivity. apply perm_swap.
  - now transitivity (filter p l').
Qed.

(** What a ranking query returns, whichever way the index is walked:
    rows of the table that pass the test, in the order of the walk, no
    more than the limit. *)
Lemma ranking {A} (R : A -> A -> Prop) (p : A -> bool) n (walk table : list A) :
  Permutation walk table -> StronglySorted R walk ->
  (forall r, In r (limit_rows n (filter p walk)) -> In r table /\ p r = true)
  /\ StronglySorted R (limit_rows n (filter p walk))
  /\ (0 <= n -> len (limit_rows n (filter p walk)) <= n)
  /\ (n < 0 \/ len (filter p table) <= n ->
      Permutation (limit_rows n (filter p walk)) (filter p table)).
Proof.
  intros Hp Hs. split; [|split; [|split]].
  - intros r Hr. apply limit_rows_incl in Hr. apply filter_In in Hr.
    destruct Hr as [Hr Pr]. split; [|exact Pr].
    now apply (Permutation_in _ Hp).
  - now apply limit_rows_sorted, StronglySorted_filter.
  - apply limit_rows_len.
  - intros H. pose proof (filter_perm p _ _ Hp) as F.
    rewrite limit_rows_all; [exact F|].
    destruct H as [H|H]; [now left|right].
    unfold len in *. now rewrite (Permutation_length F).
Qed.

Lemma by_mean_position_sorted db :
  StronglySorted
    (fun a b => (ws_mean_position a <= ws_mean_position b)%Q)
    (by_mean_position db).
Proof.
  apply (StronglySorted_weaken
           (fun a b => Qle_bool (ws_mean_position a) (ws_mean_position b)
                       = true)).
  - intros a b. apply Qle_bool_iff.
  - apply order_by_sorted.
    + intros a b. rewrite !Qle_bool_iff.
      destruct (Qlt_le_dec (ws_mean_position a) (ws_mean_position b)) as [L|L];
        auto using Qlt_le_weak.
    + intros a b c. rewrite !Qle_bool_iff. apply Qle_trans.
Qed.

Lemma by_total_count_sorted db :
  StronglySorted (fun a b => ws_total_count a <= ws_total_count b)
                 (by_total_count db).
Proof.
  apply (StronglySorted_weaken
           (fun a b => (ws_total_count a <=? ws_total_count b) = true)).
  - intros a b. apply Z.leb_le.
  - apply order_by_sorted.
    + intros a b. rewrite !Z.leb_le. lia.
    + intros a b c. rewrite !Z.leb_le. lia.
Qed.

Lemma bind_int_fits n : - 2 ^ 63 <= n < 2 ^ 63 -> bind_int n = Some n.
Proof.
  intros H. unfold bind_int.
  destruct (Z.leb_spec (- 2 ^ 63) n), (Z.ltb_spec n (2 ^ 63));
    try reflexivity; lia.
Qed.

(** As long as the pattern is not too long, the walk with its limit is
    a filter and a cut. *)
Lemma select_like_filter pattern bytes rows :
  bytes <= LIKE_PATTERN_LENGTH ->
  forall limit,
    select_like pattern bytes limit rows
    = Some (limit_rows limit (filter (matched_by pattern) rows)).
Proof.
  intros Hb. induction rows as [|r rows IH]; intros limit.
  - cbn [select_like filter]. unfold limit_rows.
    destruct (limit =? 0), (limit <? 0); try reflexivity;
      now rewrite firstn_nil.
  - cbn [select_like filter].
    destruct (Z.eqb_spec limit 0) as [->|Ne]; [reflexivity|].
    unfold like. destruct (Z.ltb_spec LIKE_PATTERN_LENGTH bytes); [lia|].
    fold (matched_by pattern r). destruct (matched_by pattern r).
    + rewrite IH. cbn [option_map]. f_equal. unfold limit_rows.
      destruct (Z.ltb_spec limit 0), (Z.ltb_spec (limit - 1) 0);
        try lia; [reflexivity|].
      replace (Z.to_nat limit) with (S (Z.to_nat (limit - 1))) by lia.
      reflexivity.
    + apply IH.
Qed.






(** X18.  With a min_count and a limit that fit 64 bits,
    [get_words_by_position] returns rows of word_stats whose total_count
    reaches min_count, in the order asked for by mean_position, and at
    most limit of them when the limit is not negative; when the limit is
    negative or is not reached, every such row is returned. *)
Theorem words_by_position_ranked (ascending : bool)
    (min_count limit : Z) (st : store) (db : DB) :
  disk st = Some db ->
  - 2 ^ 63 <= min_count < 2 ^ 63 ->
  - 2 ^ 63 <= limit < 2 ^ 63 ->
  exists rows,
    get_words_by_position ascending min_count limit st = Some rows
    /\ (forall r, In r rows ->
                  In r (word_stats db) /\ min_count <= ws_total_count r)
    /\ StronglySorted
         (fun a b => if ascending
                     then (ws_mean_position a <= ws_mean_position b)%Q
                     else (ws_mean_position b <= ws_mean_position a)%Q)
         rows
    /\ (0 <= limit -> len rows <= limit)
    /\ (limit < 0
        \/ len (filter (fun r => min_count <=? ws_total_count r)
                       (word_stats db)) <= limit ->
        Permutation rows
          (filter (fun r => min_count <=? ws_total_count r) (word_stats db))).
Proof.
  intros Hd Hm Hl. unfold get_words_by_position.
  rewrite (bind_int_fits _ Hm), (bind_int_fits _ Hl), Hd.
  eexists. split; [reflexivity|].
  assert (P : Permutation (by_mean_position db) (word_stats db))
    by apply order_by_perm.
  destruct ascending.
  - destruct (ranking
                (fun a b => (ws_mean_position a <= ws_mean_position b)%Q)
                (fun r => min_count <=? ws_total_count r) limit
                (by_mean_position db) (word_stats db) P
                (by_mean_position_sorted db)) as (R1 & R2 & R3 & R4).
    split; [|split; [exact R2|split; [exact R3|exact R4]]].
    intros r Hr. destruct (R1 r Hr) as [H1 H2]. split; [exact H1|].
    now apply Z.leb_le.
  - destruct (ranking
                (fun a b => (ws_mean_position b <= ws_mean_position a)%Q)
                (fun r => min_count <=? ws_total_count r) limit
                (rev (by_mean_position db)) (word_stats db))
      as (R1 & R2 & R3 & R4).
    + rewrite <- P. symmetry. apply Permutation_rev.
    + apply (StronglySorted_rev _ _ (by_mean_position_sorted db)).
    + split; [|split; [exact R2|split; [exact R3|exact R4]]].
      intros r Hr. destruct (R1 r Hr) as [H1 H2]. split; [exact H1|].
      now apply Z.leb_le.
Qed.

Lemma words_by_position_ranked_witness :
  disk Queries.two_books_store = Some two_books_db
  /\ - 2 ^ 63 <= 1 < 2 ^ 63
  /\ - 2 ^ 63 <= 2 < 2 ^ 63
  /\ exists rows,
       get_words_by_position false 1 2 Queries.two_books_store = Some rows
       /\ (forall r, In r rows ->
                     In r (word_stats two_books_db) /\ 1 <= ws_total_count r)
       /\ StronglySorted
            (fun a b => if false
                        then (ws_mean_position a <= ws_mean_position b)%Q
                        else (ws_mean_position b <= ws_mean_position a)%Q)
            rows
       /\ (0 <= 2 -> len rows <= 2)
       /\ (2 < 0
           \/ len (filter (fun r => 1 <=? ws_total_count r)
                          (word_stats two_books_db)) <= 2 ->
           Permutation rows
             (filter (fun r => 1 <=? ws_total_count r)
                     (word_stats two_books_db))).
Proof.
  assert (H1 : disk Queries.two_books_store = Some two_books_db)
    by reflexivity.
  assert (H2 : - 2 ^ 63 <= 1 < 2 ^ 63) by lia.
  assert (H3 : - 2 ^ 63 <= 2 < 2 ^ 63) by lia.
  split; [exact H1|]. split; [exact H2|]. split; [exact H3|].
  exact (words_by_position_ranked false 1 2 Queries.two_books_store
           two_books_db H1 H2 H3).
Defined.

(** X19.  With a limit that fits 64 bits and a pattern, the lowered
    prefix and a final [%], of at most 50000 bytes, [search_words]
    returns words of word_stats that the pattern matches as LIKE reads
    it, from the highest total_count down, and at most limit of them
    when the limit is not negative; with a negative limit every matching
    word is returned. *)
Theorem search_words_ranked (py : PyText) (prefix : str) (limit bytes : Z)
    (st : store) (db : DB) :
  disk st = Some db ->
  utf8_bytes (lower prefix ++ [37%N]) = Some bytes ->
  bytes <= LIKE_PATTERN_LENGTH ->
  - 2 ^ 63 <= limit < 2 ^ 63 ->
  exists rows,
    search_words prefix limit st = Some (map ws_word rows)
    /\ (forall r, In r rows ->
                  In r (word_stats db)
                  /\ matched_by (lower prefix ++ [37%N]) r = true)
    /\ StronglySorted (fun a b => ws_total_count b <= ws_total_count a) rows
    /\ (0 <= limit -> len rows <= limit)
    /\ (limit < 0 ->
        Permutation rows
          (filter (matched_by (lower prefix ++ [37%N])) (word_stats db))).
Proof.
  intros Hd Hu Hb Hl. unfold search_words.
  rewrite Hu, (bind_int_fits _ Hl), Hd, (select_like_filter _ _ _ Hb).
  cbn [option_map]. eexists. split; [reflexivity|].
  destruct (ranking
              (fun a b => ws_total_count b <= ws_total_count a)
              (matched_by (lower prefix ++ [37%N])) limit
              (rev (by_total_count db)) (word_stats db))
    as (R1 & R2 & R3 & R4).
  - rewrite <- (Permutation_rev (by_total_count db)). apply order_by_perm.
  - apply (StronglySorted_rev _ _ (by_total_count_sorted db)).
  - split; [exact R1|]. split; [exact R2|]. split; [exact R3|].
    intros L. apply R4. now left.
Qed.

Lemma search_words_ranked_witness :
  disk Queries.two_books_store = Some two_books_db
  /\ utf8_bytes (lower (PyText := latin) (of_string "A") ++ [37%N]) = Some 2
  /\ 2 <= LIKE_PATTERN_LENGTH
  /\ - 2 ^ 63 <= 5 < 2 ^ 63
  /\ exists rows,
       search_words (py := latin) (of_string "A") 5 Queries.two_books_store
       = Some (map ws_word rows)
       /\ (forall r, In r rows ->
                     In r (word_stats two_books_db)
                     /\ matched_by (lower (PyText := latin) (of_string "A")
                                      ++ [37%N]) r = true)
       /\ StronglySorted
            (fun a b => ws_total_count b <= ws_total_count a) rows
       /\ (0 <= 5 -> len rows <= 5)
       /\ (5 < 0 ->
           Permutation rows
             (filter (matched_by (lower (PyText := latin) (of_string "A")
                                    ++ [37%N]))
                     (word_stats two_books_db))).
Proof.
  assert (H1 : disk Queries.two_books_store = Some two_books_db)
    by reflexivity.
  assert (H2 : utf8_bytes (lower (PyText := latin) (of_string "A") ++ [37%N])
               = Some 2) by (vm_compute; reflexivity).
  assert (H3 : 2 <= LIKE_PATTERN_LENGTH) by (vm_compute; discriminate).
  assert (H4 : - 2 ^ 63 <= 5 < 2 ^ 63) by lia.
  split; [exact H1|]. split; [exact H2|]. split; [exact H3|].
  split; [exact H4|].
  exact (search_words_ranked latin (of_string "A") 5 2
           Queries.two_books_store two_books_db H1 H2 H3 H4).
Defined.



(** The empty prefix on the index of the two books: "arma" with its
    three occurrences, then "cano", stored after "virumque" with the
    same single occurrence. *)
Lemma ties_come_latest_first :
  search_words (py := latin) [] 2 Queries.two_books_store
  = Some [arma; of_string "cano"].
Proof. vm_compute. reflexivity. Qed.

(** Without tables, with a limit beyond 64 bits or with a prefix that
    holds a surrogate, [search_words] raises. *)
Lemma search_words_raises :
  search_words (py := latin) [] 2 no_file = None
  /\ search_words (py := latin) [] (2 ^ 63) Queries.two_books_store = None
  /\ search_words (py := latin) [55296%N] 2 Queries.two_books_store = None.
Proof. repeat split; vm_compute; reflexivity. Qed.

End Rankings.
(* ================================================================== *)
(** * The books table against the frequencies *)

Module BookTotals.
Import TextExtractor Vocabulary TokenizerFacts Downloader Analyzer.
Import DictFacts CountFacts GatherFacts ExecFacts PipelineFacts IndexFacts.
Import Aggregates QueryFacts TextMore RunMore Integrity SnippetTable.
Import AnalyzerReads ReadFacts.
Local Open Scope Z_scope.

Lemma filter_flat_map {A B} (p : B -> bool) (f : A -> list B) l :
  filter p (flat_map f l) = flat_map (fun x => filter p (f x)) l.
Proof.
  induction l as [|x l IH]; [reflexivity|]. cbn [flat_map].
  now rewrite filter_app, IH.
Qed.

Lemma map_flat_map {A B C} (g : B -> C) (f : A -> list B) l :
  map g (flat_map f l) = flat_map (fun x => map g (f x)) l.
Proof.
  induction l as [|x l IH]; [reflexivity|]. cbn [flat_map].
  now rewrite map_app, IH.
Qed.

Lemma sum_ext {A} (f g : A -> Z) l :
  (forall x, In x l -> f x = g x) -> sum (map f l) = sum (map g l).
Proof.
  intros H. f_equal. apply map_ext_in. exact H.
Qed.

(** Over keys that differ, the counts of the tokens among them add up
    to the number of tokens. *)
Lemma sum_counts keys : forall ws,
  NoDup keys -> (forall w, In w ws -> In w keys) ->
  sum (map (fun w => count_word w ws) keys) = len ws.
Proof.
  intros ws Hnd. induction ws as [|t ws IH]; intros Hin.
  - clear. induction keys as [|k keys IH]; [reflexivity|].
    cbn [map]. now rewrite sum_cons, IH.
  - rewrite len_cons, <- IH by (intros w Hw; apply Hin; now right).
    assert (Ht : In t keys) by (apply Hin; now left).
    clear IH Hin. induction keys as [|k keys IH]; [contradiction|].
    inversion Hnd as [|? ? Hk Hnd']; subst.
    cbn [map]. rewrite !sum_cons, count_word_cons.
    destruct Ht as [->|Ht].
    + rewrite str_eqb_refl.
      assert (E : sum (map (fun w => count_word w (t :: ws)) keys)
                  = sum (map (fun w => count_word w ws) keys)).
      { apply sum_ext. intros w Hw. rewrite count_word_cons.
        destruct (str_eqb w t) eqn:E; [|lia].
        apply str_eqb_eq in E. now subst. }
      rewrite E. lia.
    + destruct (str_eqb k t) eqn:E.
      * apply str_eqb_eq in E. now subst.
      * rewrite (IH Hnd' Ht). lia.
Qed.

Lemma len_flat_map_test {A B} (p : A -> bool) (f : A -> B) l :
  len (flat_map (fun x => if p x then [] else [f x]) l)
  = len (filter (fun x => negb (p x)) l).
Proof.
  induction l as [|x l IH]; [reflexivity|]. cbn [flat_map filter].
  destruct (p x); cbn [negb app]; [exact IH|].
  now rewrite !len_cons, IH.
Qed.

Lemma sum_flat_map_test {A} (p : A -> bool) (f : A -> Z) l :
  (forall x, p x = true -> f x = 0) ->
  sum (flat_map (fun x => if p x then [] else [f x]) l) = sum (map f l).
Proof.
  intros H. induction l as [|x l IH]; [reflexivity|]. cbn [flat_map map].
  rewrite sum_cons. destruct (p x) eqn:E; cbn [app].
  - rewrite (H x E), IH. lia.
  - now rewrite sum_cons, IH.
Qed.

Section Books.
Context {py : PyText}.
Variable texts : str -> option str.
Variable metas : list BookMeta.
Hypothesis ids_distinct : NoDup (map book_id metas).

Lemma token_is_key m w :
  In m (indexed texts metas) -> In w (tokens_of texts m) ->
  In w (Dict.keys (frequencies texts metas)).
Proof.
  intros Hm Hw. apply count_word_in in Hw.
  pose proof (gathered_get texts metas ids_distinct w) as G.
  rewrite column_counted in G.
  destruct (flat_map _ (loaded texts metas)) as [|e col] eqn:C.
  - apply (flat_map_nil_inv _ _ m) in C; [|exact Hm]. cbv beta in C.
    destruct (Z.eqb_spec (count_word w (tokens_of texts m)) 0);
      [lia|discriminate C].
  - apply get_in in G. apply in_map_iff. now exists (w, e :: col).
Qed.

Lemma rows_of_book m :
  In m (indexed texts metas) ->
  filter (fun f => str_eqb (wf_book_id f) (book_id m))
         (word_frequencies (index texts metas))
  = flat_map (fun w => if count_word w (tokens_of texts m) =? 0 then []
                       else [frequency_row texts w m])
             (Dict.keys (frequencies texts metas)).
Proof.
  intros Hm. cbn [index word_frequencies]. rewrite filter_flat_map.
  unfold Dict.keys. rewrite flat_map_of_map.
  apply flat_map_ext_in. intros [w bc] H. cbn [fst].
  apply (in_frequencies texts metas ids_distinct) in H.
  destruct H as [-> _].
  rewrite (frequency_rows_all texts metas ids_distinct).
  rewrite (filter_flat_map_keyed book_id _ _ (book_id m)).
  - rewrite (find_keyed book_id _ m);
      [reflexivity|apply NoDup_map_filter, ids_distinct|exact Hm].
  - apply NoDup_map_filter, ids_distinct.
  - intros x y _ Hy.
    destruct (count_word w (tokens_of texts x) =? 0); [contradiction|].
    destruct Hy as [<-|[]]. reflexivity.
Qed.

Lemma index_book_totals b :
  In b (books (index texts metas)) ->
  sum (map wf_count
           (filter (fun f => str_eqb (wf_book_id f) (b_book_id b))
                   (word_frequencies (index texts metas))))
  = b_total_words b
  /\ len (filter (fun f => str_eqb (wf_book_id f) (b_book_id b))
                 (word_frequencies (index texts metas)))
     = b_unique_words b.
Proof.
  cbn [index books]. rewrite in_map_iff. intros (m & <- & Hm).
  cbn [book_row b_book_id b_total_words b_unique_words].
  fold (word_frequencies (index texts metas)).
  rewrite (rows_of_book m Hm). split.
  - rewrite map_flat_map.
    rewrite (flat_map_ext_in _
               (fun w => if count_word w (tokens_of texts m) =? 0 then []
                         else [count_word w (tokens_of texts m)])).
    + rewrite (sum_flat_map_test
                 (fun w => count_word w (tokens_of texts m) =? 0)
                 (fun w => count_word w (tokens_of texts m)))
        by (intros w; apply Z.eqb_eq).
      apply sum_counts; [apply gathered_NoDup|].
      intros w. now apply token_is_key.
    + intros w _. now destruct (count_word w (tokens_of texts m) =? 0).
  - rewrite (len_flat_map_test
               (fun w => count_word w (tokens_of texts m) =? 0)
               (fun w => frequency_row texts w m)).
    rewrite len_Counter. unfold len. f_equal. apply Permutation_length.
    apply NoDup_Permutation.
    + apply NoDup_filter, gathered_NoDup.
    + apply NoDup_nodup.
    + intros w. rewrite filter_In, negb_true_iff, Z.eqb_neq.
      unfold distinct_tokens.
      rewrite nodup_In, <- (count_word_in w (tokens_of texts m)).
      pose proof (count_word_nonneg w (tokens_of texts m)).
      split.
      * intros [_ Ne]. lia.
      * intros P. split; [|lia]. apply (token_is_key m); [exact Hm|].
        now apply count_word_in.
Qed.

End Books.

(** X21.  For every row of books, the counts of the rows of
    word_frequencies for that book add up to its total_words, and the
    number of those rows is its unique_words. *)
Theorem books_agree_with_frequencies (py : PyText) texts
    min_word_freq max_snippets_per_book st db b :
  disk (fst (rebuild texts min_word_freq max_snippets_per_book st)) = Some db ->
  In b (books db) ->
  sum (map wf_count
           (filter (fun f => str_eqb (wf_book_id f) (b_book_id b))
                   (word_frequencies db)))
  = b_total_words b
  /\ len (filter (fun f => str_eqb (wf_book_id f) (b_book_id b))
                 (word_frequencies db))
     = b_unique_words b.
Proof.
  intros Hdb Hb. apply rebuild_tables in Hdb. destruct Hdb as (Eb & Ef & _).
  rewrite Eb in Hb. rewrite Ef.
  apply index_book_totals; [apply book_ids_distinct|exact Hb].
Qed.

Lemma books_agree_with_frequencies_witness :
  let b := {| b_book_id := of_string "praefatio";
              b_title := of_string "Praefatio";
              b_sequence_index := 0; b_total_words := 3;
              b_unique_words := 2 |} in
  disk (fst (rebuild (py := latin) two_books 2 5 no_file)) = Some two_books_db
  /\ In b (books two_books_db)
  /\ sum (map wf_count
              (filter (fun f => str_eqb (wf_book_id f) (b_book_id b))
                      (word_frequencies two_books_db)))
     = b_total_words b
  /\ len (filter (fun f => str_eqb (wf_book_id f) (b_book_id b))
                 (word_frequencies two_books_db))
     = b_unique_words b.
Proof.
  intros b.
  assert (H1 : disk (fst (rebuild (py := latin) two_books 2 5 no_file))
               = Some two_books_db) by (vm_compute; reflexivity).
  assert (H2 : In b (books two_books_db))
    by (vm_compute; left; reflexivity).
  split; [exact H1|]. split; [exact H2|].
  exact (books_agree_with_frequencies latin two_books 2 5 no_file
           two_books_db b H1 H2).
Defined.

(** X22.  [calculate_frequencies] counts the tokens of the text: a word
    is a key exactly when it is a token, its value is the number of its
    occurrences among the tokens, no key comes twice, and the values add
    up to the number of tokens. *)
Theorem calculate_frequencies_counts (py : PyText) (text : str) :
  (forall w,
     Dict.get w (calculate_frequencies text)
     = if count_word w (tokenize text true) =? 0 then None
       else Some (count_word w (tokenize text true)))
  /\ (forall w, In w (Dict.keys (calculate_frequencies text))
                <-> In w (tokenize text true))
  /\ NoDup (Dict.keys (calculate_frequencies text))
  /\ sum (Dict.values (calculate_frequencies text))
     = len (tokenize text true).
Proof.
  unfold calculate_frequencies. split; [|split; [|split]].
  - intros w. apply get_Counter.
  - intros w. apply in_keys_Counter.
  - apply NoDup_Counter.
  - apply sum_Counter.
Qed.

End BookTotals.
(* ================================================================== *)
(** * Keys, vocabulary and the corpus without texts *)

Module RunEdges.
Import TextExtractor Vocabulary TokenizerFacts Downloader Analyzer.
Import DictFacts CountFacts GatherFacts ExecFacts PipelineFacts IndexFacts.
Import Aggregates QueryFacts TextMore RunMore Integrity SnippetTable.
Import AnalyzerReads ReadFacts.
Local Open Scope Z_scope.

Section Edges.
Context {py : PyText}.
Variable texts : str -> option str.
Variable metas : list BookMeta.
Hypothesis ids_distinct : NoDup (map book_id metas).

Lemma index_keys :
  NoDup (map b_book_id (books (index texts metas)))
  /\ NoDup (map frequency_key (word_frequencies (index texts metas)))
  /\ NoDup (map ws_word (word_stats (index texts metas))).
Proof.
  split; [|split].
  - cbn [index books]. rewrite map_map. cbn [book_row b_book_id].
    apply NoDup_map_filter, ids_distinct.
  - cbn [index word_frequencies]. apply NoDup_frequency_keys.
    + apply gathered_NoDup.
    + intros w bc H. now apply (frequencies_NoDup texts metas ids_distinct w).
  - apply index_stats_NoDup.
Qed.

Lemma index_vocabulary w :
  In w (map ws_word (word_stats (index texts metas)))
  <-> exists m, In m (indexed texts metas) /\ In w (tokens_of texts m).
Proof.
  split.
  - intros H. apply in_map_iff in H. destruct H as (r & <- & Hr).
    destruct (in_index_stats texts metas ids_distinct r Hr) as (P & _).
    unfold total_occurrences in P. apply sum_positive in P.
    + destruct P as (m & Hm & Pm). exists m. split; [exact Hm|].
      now apply count_word_in.
    + intros m. apply count_word_nonneg.
  - intros (m & Hm & Hw).
    destruct (index_stats_complete texts metas ids_distinct w)
      as (r & Hr & <-).
    + apply count_word_in in Hw. unfold total_occurrences.
      clear - Hm Hw. induction (indexed texts metas) as [|x l IH];
        [contradiction|].
      cbn [map]. rewrite sum_cons.
      pose proof (count_word_nonneg w (tokens_of texts x)).
      pose proof (total_occurrences_nonneg texts w l) as T.
      unfold total_occurrences in T.
      destruct Hm as [->|Hm]; [lia|]. specialize (IH Hm). lia.
    + now apply in_map.
Qed.

Lemma index_without_texts min_word_freq max_snippets_per_book :
  (forall m, In m metas -> texts (book_id m) = None) ->
  full_index texts metas min_word_freq max_snippets_per_book = empty_db.
Proof.
  intros H.
  assert (Ei : indexed texts metas = []).
  { unfold indexed, loaded. apply filter_none. intros m Hm.
    unfold has_text. now rewrite (H m Hm). }
  assert (Ef : frequencies texts metas = []).
  { unfold frequencies. rewrite gathered_frequencies.
    fold (indexed texts metas). now rewrite Ei. }
  unfold full_index, snippet_statements, common_words.
  cbn [index books word_frequencies word_stats]. rewrite Ei, Ef.
  reflexivity.
Qed.

End Edges.

(** X23.  In the index of a run no two rows of books share their
    book_id, no two rows of word_frequencies their word and book_id, and
    no two rows of word_stats their word. *)
Theorem index_keys_are_unique (py : PyText) texts
    min_word_freq max_snippets_per_book st db :
  disk (fst (rebuild texts min_word_freq max_snippets_per_book st)) = Some db ->
  NoDup (map b_book_id (books db))
  /\ NoDup (map frequency_key (word_frequencies db))
  /\ NoDup (map ws_word (word_stats db)).
Proof.
  intros Hdb. apply rebuild_tables in Hdb. destruct Hdb as (Eb & Ef & Es).
  rewrite Eb, Ef, Es. apply index_keys, book_ids_distinct.
Qed.

Lemma index_keys_are_unique_witness :
  disk (fst (rebuild (py := latin) two_books 2 5 no_file)) = Some two_books_db
  /\ NoDup (map b_book_id (books two_books_db))
  /\ NoDup (map frequency_key (word_frequencies two_books_db))
  /\ NoDup (map ws_word (word_stats two_books_db)).
Proof.
  assert (H1 : disk (fst (rebuild (py := latin) two_books 2 5 no_file))
               = Some two_books_db) by (vm_compute; reflexivity).
  split; [exact H1|].
  exact (index_keys_are_unique latin two_books 2 5 no_file two_books_db H1).
Defined.

(** X24.  The words of word_stats are the tokens of the texts that were
    there: a word has a row exactly when it is a token of the text of
    some book of [BOOKS] whose file was found. *)
Theorem vocabulary_is_the_tokens (py : PyText) texts
    min_word_freq max_snippets_per_book st db w :
  disk (fst (rebuild texts min_word_freq max_snippets_per_book st)) = Some db ->
  (In w (map ws_word (word_stats db))
   <-> exists m text,
         In m get_book_metadata /\ texts (book_id m) = Some text
         /\ In w (tokenize text true)).
Proof.
  intros Hdb. apply rebuild_tables in Hdb. destruct Hdb as (_ & _ & Es).
  rewrite Es.
  rewrite (index_vocabulary texts get_book_metadata book_ids_distinct w).
  clear. generalize get_book_metadata. intros metas. split.
  - intros (m & Hm & Hw). exists m, (text_of texts m).
    split; [now apply (incl_loaded texts metas)|].
    split; [now apply (indexed_text texts metas)|exact Hw].
  - intros (m & text & Hm & Ht & Hw). exists m. split.
    + apply filter_In. split; [exact Hm|]. unfold has_text. now rewrite Ht.
    + unfold tokens_of, text_of. now rewrite Ht.
Qed.

Lemma vocabulary_is_the_tokens_witness :
  disk (fst (rebuild (py := latin) two_books 2 5 no_file)) = Some two_books_db
  /\ (In arma (map ws_word (word_stats two_books_db))
      <-> exists m text,
            In m get_book_metadata /\ two_books (book_id m) = Some text
            /\ In arma (tokenize (py := latin) text true)).
Proof.
  assert (H1 : disk (fst (rebuild (py := latin) two_books 2 5 no_file))
               = Some two_books_db) by (vm_compute; reflexivity).
  split; [exact H1|].
  exact (vocabulary_is_the_tokens latin two_books 2 5 no_file two_books_db
           arma H1).
Defined.

(** X25.  When none of the text files is there, every book is skipped
    and the run still goes through: it leaves a database whose four
    tables are empty. *)
Theorem run_without_texts (py : PyText) texts
    min_word_freq max_snippets_per_book st :
  (forall m, In m get_book_metadata -> texts (book_id m) = None) ->
  rebuild texts min_word_freq max_snippets_per_book st
  = ({| disk := Some empty_db; conn := None |}, true).
Proof.
  intros H. rewrite rebuild_full.
  now rewrite (index_without_texts texts get_book_metadata _ _ H).
Qed.

Lemma run_without_texts_witness :
  (forall m, In m get_book_metadata -> (fun _ : str => @None str) (book_id m)
                                       = None)
  /\ rebuild (py := latin) (fun _ => None) 2 5 no_file
     = ({| disk := Some empty_db; conn := None |}, true).
Proof.
  assert (H : forall m, In m get_book_metadata ->
                        (fun _ : str => @None str) (book_id m) = None)
    by (intros m _; reflexivity).
  split; [exact H|].
  exact (run_without_texts latin (fun _ => None) 2 5 no_file H).
Defined.

(** X26.  [get_book_title] tells the books apart: two ids have the same
    title only when they are the same id. *)
Theorem book_titles_tell_books_apart (a b : str) :
  str_eqb (get_book_title a) (get_book_title b) = str_eqb a b.
Proof.
  unfold get_book_title.
  destruct (str_eqb a (of_string "praefatio")) eqn:Ea;
    destruct (str_eqb b (of_string "praefatio")) eqn:Eb.
  - apply str_eqb_eq in Ea, Eb. subst. reflexivity.
  - apply str_eqb_eq in Ea. subst.
    rewrite (str_eqb_sym (of_string "praefatio") b), Eb.
    apply str_eqb_neq. intros K. vm_compute in K. discriminate K.
  - apply str_eqb_eq in Eb. subst. rewrite Ea.
    apply str_eqb_neq. intros K. vm_compute in K. discriminate K.
  - destruct (str_eqb a b) eqn:E.
    + apply str_eqb_eq in E. subst. apply str_eqb_refl.
    + apply str_eqb_neq in E. apply str_eqb_neq. intros K.
      apply app_inv_head in K. contradiction.
Qed.

(** X27.  In the metadata of [BOOKS] no id and no title comes twice,
    every title is the [get_book_title] of its id, and the
    sequence_index counts the entries from 0 without a gap, the lost
    books left out. *)
Theorem book_metadata_is_keyed :
  NoDup (map book_id get_book_metadata)
  /\ NoDup (map title get_book_metadata)
  /\ map title get_book_metadata
     = map get_book_title (map book_id get_book_metadata)
  /\ map sequence_index get_book_metadata
     = map Z.of_nat (seq 0 (List.length BOOKS)).
Proof.
  split; [apply book_ids_distinct|].
  split; [apply distinct_NoDup; vm_compute; reflexivity|].
  split; vm_compute; reflexivity.
Qed.

End RunEdges.
